(** * Spatial hash grids of adm87/utilities: a shallow embedding

    The repository carries several generations of one data structure, a
    two-dimensional spatial hash grid:

    - [src/hash/grid.go]      package [hash]: generation stamps, reverse
                              index, padding and per-cell predicate;
    - [src/hashgrid/grid.go]  package [hashgrid]: no reverse index, padding,
                              seen-set and exact overlap recheck in [Query];
    - [src/unnamed/part_000]  package [hashgrid] with a reverse index
                              ([cellKeys]) and reused buffers;
    - [src/unnamed/part_001]  the first [hashgrid], keys without bias;
    - [src/unnamed/part_002]  the first [hash.Grid], without padding.

    Each generation is embedded in a module of its own ([Hash],
    [HashGrid], [HashGridRev], [HashGridV1], [HashV1], in the order above).
    A sixth grid, with one cell size, sits in [src/pool/pool.go] ([HashV0])
    next to the object pool [Pool]; [src/linq/linq.go] ([Linq]) and the two
    sets of [src/hash/set.go] ([HashSet], [HashSetV2]) complete the
    repository.
    Machine integers are [Z] with the wrap-around written out, [float32] is
    the binary32 instance of the Standard Library's [spec_float], Go maps
    are [gmap]s and slices are lists; a method that mutates its receiver
    returns the new grid next to its result. *)

From Stdlib Require Import ZArith Lia Bool String QArith.
From Stdlib Require Import Floats.SpecFloat.
From stdpp Require Import base option list gmap fin_maps.

#[local] Open Scope Z_scope.

(** ** Machine integers *)

Module Int.

Definition min_int32 : Z := - 2 ^ 31.
Definition max_int32 : Z := 2 ^ 31 - 1.

Definition in_int32 (z : Z) : Prop := min_int32 <= z <= max_int32.
Definition in_int32b (z : Z) : bool := (min_int32 <=? z) && (z <=? max_int32).

Definition min_int64 : Z := - 2 ^ 63.
Definition max_int64 : Z := 2 ^ 63 - 1.
Definition in_int64b (z : Z) : bool := (min_int64 <=? z) && (z <=? max_int64).

(** Conversions between integer types keep the low bits. *)
Definition to_uint32 (z : Z) : Z := z mod 2 ^ 32.
Definition to_uint64 (z : Z) : Z := z mod 2 ^ 64.
Definition to_int32 (z : Z) : Z := (z + 2 ^ 31) mod 2 ^ 32 - 2 ^ 31.
Definition to_int64 (z : Z) : Z := (z + 2 ^ 63) mod 2 ^ 64 - 2 ^ 63.

(** [x++], [x--], [a + b], [a - b] on [int32]. *)
Definition add32 (a b : Z) : Z := to_int32 (a + b).
Definition sub32 (a b : Z) : Z := to_int32 (a - b).
Definition add64 (a b : Z) : Z := to_int64 (a + b).

End Int.

(** ** binary32 floating point *)

(** [float32] arithmetic is the binary32 instance of [spec_float], every
    operation rounded to nearest even on its own.  Go allows an
    implementation to fuse a product with the sum that follows it, which
    can round the bounds handed to a per-cell predicate differently; no
    statement below depends on the values a predicate receives.

    Go leaves the result of converting a floating-point value to an integer
    type that cannot represent it to the implementation (amd64 yields
    the smallest value of the type, arm64 saturates).  The embedding is
    parametric in that choice: [unrepresentable w x] is the result of
    converting [x] to the signed integer type of [w] bits. *)
Class FloatToInt := unrepresentable : Z -> spec_float -> Z.

Module F32.

Definition prec : Z := 24.
Definition emax : Z := 128.

Abbreviation float32 := spec_float.

Definition div : float32 -> float32 -> float32 := SFdiv prec emax.
Definition mul : float32 -> float32 -> float32 := SFmul prec emax.
Definition add : float32 -> float32 -> float32 := SFadd prec emax.

Definition eqb : float32 -> float32 -> bool := SFeqb.
Definition ltb : float32 -> float32 -> bool := SFltb.
Definition leb : float32 -> float32 -> bool := SFleb.
(** [a >= b] is [b <= a], also on NaN (both false). *)
Definition geb (a b : float32) : bool := SFleb b a.

Definition zero : float32 := S754_zero false.

(** [float32(n)] for an integer [n], rounding to nearest even. *)
Definition of_Z (n : Z) : float32 := binary_normalize prec emax n 0 false.

Definition smant (s : bool) (m : positive) : Z := if s then Zneg m else Zpos m.

(** The rational a finite float denotes. *)
Definition toQ (x : float32) : option Q :=
  match x with
  | S754_zero _ => Some (inject_Z 0)
  | S754_finite s m e =>
      Some (if 0 <=? e then inject_Z (smant s m * 2 ^ e)
            else Qmake (smant s m) (Z.to_pos (2 ^ (- e))))
  | _ => None
  end.

(** [math.Floor], [math.Ceil] and truncation toward zero, as the integer
    they produce; [None] on NaN and the infinities.  The conversion
    [float64(x)] of a [float32] is exact, so these act on the [float32]. *)
Definition floorZ (x : float32) : option Z :=
  match x with
  | S754_zero _ => Some 0
  | S754_finite s m e =>
      Some (if 0 <=? e then smant s m * 2 ^ e else smant s m / 2 ^ (- e))
  | _ => None
  end.

Definition ceilZ (x : float32) : option Z :=
  match x with
  | S754_zero _ => Some 0
  | S754_finite s m e =>
      Some (if 0 <=? e then smant s m * 2 ^ e else - ((- smant s m) / 2 ^ (- e)))
  | _ => None
  end.

Definition truncZ (x : float32) : option Z :=
  match x with
  | S754_zero _ => Some 0
  | S754_finite s m e =>
      Some (if 0 <=? e then smant s m * 2 ^ e else smant s m ÷ 2 ^ (- e))
  | _ => None
  end.

Section Conversions.
Context {P : FloatToInt}.

(** [int32(v)] where [v] is the float [x] rounded to the integer [r]. *)
Definition int32_of (x : float32) (r : option Z) : Z :=
  match r with
  | Some z => if Int.in_int32b z then z else Int.to_int32 (unrepresentable 32 x)
  | None => Int.to_int32 (unrepresentable 32 x)
  end.

(** [int(v)], [int] being 64 bits wide. *)
Definition int64_of (x : float32) (r : option Z) : Z :=
  match r with
  | Some z => if Int.in_int64b z then z else Int.to_int64 (unrepresentable 64 x)
  | None => Int.to_int64 (unrepresentable 64 x)
  end.

(** [int32(math.Floor(float64(x)))] *)
Definition floor_int32 (x : float32) : Z := int32_of x (floorZ x).
(** [int32(math.Ceil(float64(x)))] *)
Definition ceil_int32 (x : float32) : Z := int32_of x (ceilZ x).
(** [int32(x)] *)
Definition trunc_int32 (x : float32) : Z := int32_of x (truncZ x).
(** [int(x)] *)
Definition trunc_int64 (x : float32) : Z := int64_of x (truncZ x).
End Conversions.

End F32.

Abbreviation float32 := spec_float.

(** The amd64 instance, used to run the examples. *)
Definition amd64 : FloatToInt := fun w _ => - 2 ^ (w - 1).

(** ** Calls that may panic *)

Inductive outcome (A : Type) : Type :=
  | Returned (a : A)
  | Panicked (msg : string).
Arguments Returned {A} a.
Arguments Panicked {A} msg.

(** ** The entry interface of package [hashgrid]

    [GridEntry] is [comparable] with the methods [Min] and [Max].  An
    instance gives the boxes the entries report at the time of a call: an
    entry of pointer type that moves between two calls is a change of
    instance between them. *)
Class GridEntry (T : Type) := {
  Min : T -> float32 * float32;
  Max : T -> float32 * float32
}.

(** ** Counted loops *)

(** [for i := lo; i < hi; i++ { a = body(a, i) }] on [int32]: the counter
    stays below [hi], so the increment never wraps. *)
Definition for_range {A : Type} (lo hi : Z) (body : A -> Z -> A) (a : A) : A :=
  foldl body a (seqZ lo (hi - lo)).

Fixpoint foldl_opt {A B : Type} (f : A -> B -> option A) (a : A) (l : list B) : option A :=
  match l with
  | [] => Some a
  | b :: l' =>
      match f a b with
      | Some a' => foldl_opt f a' l'
      | None => None
      end
  end.

(** [for i := lo; i <= hi; i++ { a = body(a, i) }] on a signed type whose
    largest value is [maxv]: when [hi] is that value the condition never
    fails, the counter wraps and the loop does not terminate ([None]). *)
Definition for_range_incl {A : Type} (maxv lo hi : Z) (body : A -> Z -> option A)
    (a : A) : option A :=
  if hi =? maxv then None else foldl_opt body a (seqZ lo (hi - lo + 1)).

(** [g.cells[key]]: a missing key reads as the nil slice. *)
Definition bucket {T : Type} (cs : gmap Z (list T)) (key : Z) : list T :=
  default [] (cs !! key).

(** Index of the first element equal to [entry]. *)
Fixpoint index_of {T : Type} `{EqDecision T} (entry : T) (l : list T) : option nat :=
  match l with
  | [] => None
  | e :: l' => if decide (e = entry) then Some 0%nat else S <$> index_of entry l'
  end.

(** ** Package [hash] ([src/hash/grid.go]) *)

Module Hash.

Definition offset : Z := 2 ^ 31.

Definition EncodeGridKey (x y : Z) : Z :=
  let upper := Int.to_uint64 (Int.to_uint32 (Int.to_int64 (x + offset))) in
  let lower := Int.to_uint64 (Int.to_uint32 (Int.to_int64 (y + offset))) in
  Z.lor (Int.to_uint64 (Z.shiftl upper 32)) lower.

Definition DecodeGridKey (key : Z) : Z * Z :=
  let upper := Int.to_int32 (Int.to_uint32 (Z.shiftr key 32)) in
  let lower := Int.to_int32 (Int.to_uint32 (Z.land key 0xFFFFFFFF)) in
  let x := Int.to_int32 (Int.to_int64 (upper - offset)) in
  let y := Int.to_int32 (Int.to_int64 (lower - offset)) in
  (x, y).

(** [type GridItemPadding uint8] with its two named values. *)
Definition GridItemPadding : Type := Z.
Definition NoGridPadding : GridItemPadding := 0.
Definition GridCellPadding : GridItemPadding := 1.

(** [func(minX, minY, maxX, maxY float32) bool]; [None] is Go's [nil]. *)
Definition GridInsertionFunc : Type :=
  float32 -> float32 -> float32 -> float32 -> bool.

Section Grid.
Context {T : Type} `{Countable T}.
(** [inhabitant] stands for the zero value of [T]. *)
Context `{Inhabited T}.
Context {P : FloatToInt}.

Record Grid : Type := mkGrid {
  gen : Z;
  cellWidth : float32;
  cellHeight : float32;
  cells : gmap Z (list T);
  items : gmap T Z;
  itemCells : gmap T (list Z);
  qBuf : list T
}.

Definition NewGrid (cellWidth cellHeight : float32) : outcome Grid :=
  Returned
    {| gen := 0;
       cellWidth := cellWidth;
       cellHeight := cellHeight;
       cells := ∅;
       items := ∅;
       itemCells := ∅;
       qBuf := [] |}.

Definition cellRange (g : Grid) (minX minY maxX maxY : float32) : Z * Z * Z * Z :=
  let minCellX := F32.floor_int32 (F32.div minX (cellWidth g)) in
  let minCellY := F32.floor_int32 (F32.div minY (cellHeight g)) in
  let maxCellX := F32.ceil_int32 (F32.div maxX (cellWidth g)) in
  let maxCellY := F32.ceil_int32 (F32.div maxY (cellHeight g)) in
  (minCellX, minCellY, maxCellX, maxCellY).

Definition Contains (g : Grid) (item : T) : bool :=
  bool_decide (is_Some (items g !! item)).

(** The body of the inner loop of [insert], on the pair of [g.cells] and
    the local [cellKeys]. *)
Definition insert_cell (g : Grid) (item : T) (fn : option GridInsertionFunc)
    (cy : Z) (st : gmap Z (list T) * list Z) (cx : Z) : gmap Z (list T) * list Z :=
  let doInsert :=
    match fn with
    | Some f =>
        let cellMinX := F32.mul (F32.of_Z cx) (cellWidth g) in
        let cellMinY := F32.mul (F32.of_Z cy) (cellHeight g) in
        let cellMaxX := F32.add cellMinX (cellWidth g) in
        let cellMaxY := F32.add cellMinY (cellHeight g) in
        f cellMinX cellMinY cellMaxX cellMaxY
    | None => true
    end in
  if doInsert then
    let key := EncodeGridKey cx cy in
    (<[key := bucket st.1 key ++ [item]]> st.1, st.2 ++ [key])
  else st.

Definition insert (g : Grid) (item : T) (minX minY maxX maxY : float32)
    (padding : GridItemPadding) (fn : option GridInsertionFunc) : bool * Grid :=
  if Contains g item then (false, g)
  else
    let '(minCellX, minCellY, maxCellX, maxCellY) := cellRange g minX minY maxX maxY in
    let '(minCellX, minCellY, maxCellX, maxCellY) :=
      if padding =? GridCellPadding
      then (Int.sub32 minCellX 1, Int.sub32 minCellY 1,
            Int.add32 maxCellX 1, Int.add32 maxCellY 1)
      else (minCellX, minCellY, maxCellX, maxCellY) in
    let '(cs, cellKeys) :=
      for_range minCellY maxCellY
        (fun st cy => for_range minCellX maxCellX (insert_cell g item fn cy) st)
        (cells g, []) in
    (true,
     {| gen := gen g;
        cellWidth := cellWidth g;
        cellHeight := cellHeight g;
        cells := cs;
        items := <[item := 0]> (items g);
        itemCells := <[item := cellKeys]> (itemCells g);
        qBuf := qBuf g |}).

(** [Cells] ranges over a Go map: the order of the keys is unspecified. *)
Definition Cells (g : Grid) : list Z := (map_to_list (cells g)).*1.

Definition CellSize (g : Grid) : float32 * float32 := (cellWidth g, cellHeight g).

Definition Clear (g : Grid) : Grid :=
  {| gen := 0;
     cellWidth := cellWidth g;
     cellHeight := cellHeight g;
     cells := ∅;
     items := ∅;
     itemCells := ∅;
     qBuf := replicate (length (qBuf g)) inhabitant |}.

Definition Resize (g : Grid) (cellWidth' cellHeight' : float32) : Grid :=
  if F32.eqb (cellWidth g) cellWidth' && F32.eqb (cellHeight g) cellHeight' then g
  else
    let g' := Clear g in
    {| gen := gen g';
       cellWidth := cellWidth';
       cellHeight := cellHeight';
       cells := cells g';
       items := items g';
       itemCells := itemCells g';
       qBuf := qBuf g' |}.

Definition Insert (g : Grid) (item : T) (minX minY maxX maxY : float32)
    (padding : GridItemPadding) : bool * Grid :=
  insert g item minX minY maxX maxY padding None.

Definition InsertFunc (g : Grid) (item : T) (minX minY maxX maxY : float32)
    (padding : GridItemPadding) (fn : option GridInsertionFunc) : bool * Grid :=
  insert g item minX minY maxX maxY padding fn.

(** The in-place compaction of [Remove]: [n] iterations remain, [i] is
    the index read, [j] the index written; the slice is read through
    its backing array, so earlier writes are visible. *)
Fixpoint compact_loop (item : T) (n i j : nat) (buf : list T) : list T * nat :=
  match n with
  | O => (buf, j)
  | S n' =>
      match buf !! i with
      | Some it =>
          if decide (it = item) then compact_loop item n' (S i) j buf
          else compact_loop item n' (S i) (S j) (<[j := it]> buf)
      | None => (buf, j)
      end
  end.

Definition compact (item : T) (its : list T) : list T * nat :=
  compact_loop item (length its) 0%nat 0%nat its.

Definition remove_from_cell (item : T) (cs : gmap Z (list T)) (key : Z) : gmap Z (list T) :=
  let '(buf, j) := compact item (bucket cs key) in
  if (j =? 0)%nat then delete key cs else <[key := take j buf]> cs.

Definition Remove (g : Grid) (item : T) : Grid :=
  if negb (Contains g item) then g
  else
    let cellKeys := default [] (itemCells g !! item) in
    {| gen := gen g;
       cellWidth := cellWidth g;
       cellHeight := cellHeight g;
       cells := foldl (remove_from_cell item) (cells g) cellKeys;
       items := delete item (items g);
       itemCells := delete item (itemCells g);
       qBuf := qBuf g |}.

(** One candidate of [Query]: [st] is the pair of [g.items] and
    [g.qBuf], [gen'] the generation of this call. *)
Definition visit (gen' : Z) (st : gmap T Z * list T) (item : T) : gmap T Z * list T :=
  if decide (default 0 (st.1 !! item) = gen') then st
  else (<[item := gen']> st.1, st.2 ++ [item]).

Definition query_cell (g : Grid) (gen' : Z) (cy : Z)
    (st : gmap T Z * list T) (cx : Z) : gmap T Z * list T :=
  match cells g !! EncodeGridKey cx cy with
  | Some its => foldl (visit gen') st its
  | None => st
  end.

Definition Query (g : Grid) (minX minY maxX maxY : float32) : list T * Grid :=
  let gen' := Int.to_uint64 (gen g + 1) in
  let '(minCellX, minCellY, maxCellX, maxCellY) := cellRange g minX minY maxX maxY in
  let '(its, buf) :=
    for_range minCellY maxCellY
      (fun st cy => for_range minCellX maxCellX (query_cell g gen' cy) st)
      (items g, []) in
  (buf,
   {| gen := gen';
      cellWidth := cellWidth g;
      cellHeight := cellHeight g;
      cells := cells g;
      items := its;
      itemCells := itemCells g;
      qBuf := buf |}).

Definition QueryCells (g : Grid) (minX minY maxX maxY : float32) : list Z :=
  let '(minCellX, minCellY, maxCellX, maxCellY) := cellRange g minX minY maxX maxY in
  for_range minCellY maxCellY
    (fun acc cy =>
       for_range minCellX maxCellX
         (fun acc cx =>
            let key := EncodeGridKey cx cy in
            if bool_decide (is_Some (cells g !! key)) then acc ++ [key] else acc)
         acc)
    [].

End Grid.

Arguments Grid T {_ _}.

End Hash.

(** ** The first [hash.Grid] ([src/unnamed/part_002])

    The struct, [NewGrid], [cellRange], [Clear], [Resize], [Contains] and
    [Remove] are those of [src/hash/grid.go]; [Insert] has no padding and no
    predicate, and [Query] skips an absent cell with [continue]. *)

Module HashV1.

Section Grid.
Context {T : Type} `{Countable T}.
Context `{Inhabited T}.
Context {P : FloatToInt}.

Definition insert_cell (item : T) (cy : Z)
    (st : gmap Z (list T) * list Z) (cx : Z) : gmap Z (list T) * list Z :=
  let key := Hash.EncodeGridKey cx cy in
  (<[key := bucket st.1 key ++ [item]]> st.1, st.2 ++ [key]).

Definition Insert (g : Hash.Grid T) (item : T) (minX minY maxX maxY : float32)
    : bool * Hash.Grid T :=
  if Hash.Contains g item then (false, g)
  else
    let '(minCellX, minCellY, maxCellX, maxCellY) := Hash.cellRange g minX minY maxX maxY in
    let '(cs, cellKeys) :=
      for_range minCellY maxCellY
        (fun st cy => for_range minCellX maxCellX (insert_cell item cy) st)
        (Hash.cells g, []) in
    (true,
     {| Hash.gen := Hash.gen g;
        Hash.cellWidth := Hash.cellWidth g;
        Hash.cellHeight := Hash.cellHeight g;
        Hash.cells := cs;
        Hash.items := <[item := 0]> (Hash.items g);
        Hash.itemCells := <[item := cellKeys]> (Hash.itemCells g);
        Hash.qBuf := Hash.qBuf g |}).

Definition query_cell (g : Hash.Grid T) (gen' : Z) (cy : Z)
    (st : gmap T Z * list T) (cx : Z) : gmap T Z * list T :=
  let key := Hash.EncodeGridKey cx cy in
  match Hash.cells g !! key with
  | None => st
  | Some its => foldl (Hash.visit gen') st its
  end.

Definition Query (g : Hash.Grid T) (minX minY maxX maxY : float32) : list T * Hash.Grid T :=
  let gen' := Int.to_uint64 (Hash.gen g + 1) in
  let '(minCellX, minCellY, maxCellX, maxCellY) := Hash.cellRange g minX minY maxX maxY in
  let '(its, buf) :=
    for_range minCellY maxCellY
      (fun st cy => for_range minCellX maxCellX (query_cell g gen' cy) st)
      (Hash.items g, []) in
  (buf,
   {| Hash.gen := gen';
      Hash.cellWidth := Hash.cellWidth g;
      Hash.cellHeight := Hash.cellHeight g;
      Hash.cells := Hash.cells g;
      Hash.items := its;
      Hash.itemCells := Hash.itemCells g;
      Hash.qBuf := buf |}).

End Grid.

End HashV1.

(** ** Package [hashgrid] ([src/hashgrid/grid.go]) *)

Module HashGrid.

Definition offset : Z := 2 ^ 31.

Definition EncodeGridKey (x y : Z) : Z :=
  let ux := Int.to_uint32 (Int.to_int64 (x + offset)) in
  let uy := Int.to_uint32 (Int.to_int64 (y + offset)) in
  Z.lor (Int.to_uint64 (Z.shiftl (Int.to_uint64 ux) 32)) (Int.to_uint64 uy).

Definition DecodeGridKey (key : Z) : Z * Z :=
  let x := Int.to_int32 (Int.to_int64 (Int.to_uint32 (Z.shiftr key 32) - offset)) in
  let y := Int.to_int32 (Int.to_int64 (Int.to_uint32 key - offset)) in
  (x, y).

(** [type GridPadding uint8]; the constants are [0], [1 << (iota - 1)]
    for [iota] from 1 to 4, and their union. *)
Definition GridPadding : Type := Z.
Definition NoPadding : GridPadding := 0.
Definition LeftPadding : GridPadding := 1.
Definition RightPadding : GridPadding := 2.
Definition TopPadding : GridPadding := 4.
Definition BottomPadding : GridPadding := 8.
Definition AllPadding : GridPadding :=
  Z.lor (Z.lor (Z.lor LeftPadding RightPadding) TopPadding) BottomPadding.

Section Grid.
Context {T : Type} `{Countable T}.
Context {P : FloatToInt}.

Record Grid : Type := mkGrid {
  left : Z;
  right : Z;
  top : Z;
  bottom : Z;
  cellSize : float32;
  cells : gmap Z (list T)
}.

Definition NewWithPadding (cellSize : float32) (padding : GridPadding) : outcome Grid :=
  if F32.leb cellSize F32.zero then Panicked "cellSize must be positive"
  else
    Returned
      {| left := Z.land padding LeftPadding;
         right := Z.shiftr (Z.land padding RightPadding) 1;
         top := Z.shiftr (Z.land padding TopPadding) 2;
         bottom := Z.shiftr (Z.land padding BottomPadding) 3;
         cellSize := cellSize;
         cells := ∅ |}.

Definition New (cellSize : float32) : outcome Grid :=
  NewWithPadding cellSize NoPadding.

Definition CellSize (g : Grid) : float32 := cellSize g.

(** [Keys] ranges over a Go map: the order is unspecified. *)
Definition Keys (g : Grid) : list Z := (map_to_list (cells g)).*1.

Definition Clear (g : Grid) : Grid :=
  {| left := left g; right := right g; top := top g; bottom := bottom g;
     cellSize := cellSize g;
     cells := ∅ |}.

Section Entries.
Context {E : GridEntry T}.

Definition GetKeys (g : Grid) (entry : T) : option (list Z) :=
  let '(minX, minY) := Min entry in
  let '(maxX, maxY) := Max entry in
  let startX := Int.sub32 (F32.trunc_int32 (F32.div minX (cellSize g))) (left g) in
  let startY := Int.sub32 (F32.trunc_int32 (F32.div minY (cellSize g))) (top g) in
  let endX := Int.add32 (Int.sub32 (F32.trunc_int32 (F32.div maxX (cellSize g))) 1) (right g) in
  let endY := Int.add32 (Int.sub32 (F32.trunc_int32 (F32.div maxY (cellSize g))) 1) (bottom g) in
  for_range_incl Int.max_int32 startX endX
    (fun keys x =>
       for_range_incl Int.max_int32 startY endY
         (fun keys y => Some (keys ++ [EncodeGridKey x y]))
         keys)
    [].

Definition insert_key (entry : T) (cs : gmap Z (list T)) (key : Z) : gmap Z (list T) :=
  let entries := bucket cs key in
  let duplicate := bool_decide (entry ∈ entries) in
  if negb duplicate then <[key := entries ++ [entry]]> cs else cs.

Definition Insert (g : Grid) (entry : T) : option Grid :=
  keys ← GetKeys g entry;
  Some {| left := left g; right := right g; top := top g; bottom := bottom g;
          cellSize := cellSize g;
          cells := foldl (insert_key entry) (cells g) keys |}.

Definition remove_key (entry : T) (cs : gmap Z (list T)) (key : Z) : gmap Z (list T) :=
  let entries := bucket cs key in
  match index_of entry entries with
  | Some j =>
      let rest := take j entries ++ drop (S j) entries in
      if (length rest =? 0)%nat then delete key cs else <[key := rest]> cs
  | None => cs
  end.

Definition Remove (g : Grid) (entry : T) : option Grid :=
  keys ← GetKeys g entry;
  Some {| left := left g; right := right g; top := top g; bottom := bottom g;
          cellSize := cellSize g;
          cells := foldl (remove_key entry) (cells g) keys |}.

(** One candidate of [Query]: [st] is the pair of [seen] and
    [results]. *)
Definition visit (minX minY maxX maxY : float32)
    (st : gset T * list T) (entry : T) : gset T * list T :=
  if bool_decide (entry ∈ st.1) then st
  else
    let '(eMinX, eMinY) := Min entry in
    let '(eMaxX, eMaxY) := Max entry in
    if F32.geb eMaxX minX && F32.leb eMinX maxX && F32.geb eMaxY minY && F32.leb eMinY maxY
    then ({[entry]} ∪ st.1, st.2 ++ [entry])
    else st.

Definition Query (g : Grid) (minX minY maxX maxY : float32) : option (list T) :=
  let startX := F32.trunc_int32 (F32.div minX (cellSize g)) in
  let startY := F32.trunc_int32 (F32.div minY (cellSize g)) in
  let endX := F32.trunc_int32 (F32.div maxX (cellSize g)) in
  let endY := F32.trunc_int32 (F32.div maxY (cellSize g)) in
  snd <$>
  for_range_incl Int.max_int32 startX endX
    (fun st x =>
       for_range_incl Int.max_int32 startY endY
         (fun st y =>
            Some (foldl (visit minX minY maxX maxY) st
                    (bucket (cells g) (EncodeGridKey x y))))
         st)
    (∅, []).

End Entries.

End Grid.

Arguments Grid : clear implicits.

End HashGrid.

(** ** Package [hashgrid] with a reverse index ([src/unnamed/part_000]) *)

Module HashGridRev.

Definition offset : Z := 2 ^ 31.

Definition EncodeGridKey (x y : Z) : Z :=
  let ux := Int.to_uint32 (Int.to_int64 (x + offset)) in
  let uy := Int.to_uint32 (Int.to_int64 (y + offset)) in
  Z.lor (Int.to_uint64 (Z.shiftl (Int.to_uint64 ux) 32)) (Int.to_uint64 uy).

Definition DecodeGridKey (key : Z) : Z * Z :=
  let x := Int.to_int32 (Int.to_int64 (Int.to_uint32 (Z.shiftr key 32) - offset)) in
  let y := Int.to_int32 (Int.to_int64 (Int.to_uint32 key - offset)) in
  (x, y).

(** [func(minX, minY, maxX, maxY float32) bool]; [None] is [nil]. *)
Definition CellCheckFunc : Type :=
  float32 -> float32 -> float32 -> float32 -> bool.

Section Grid.
Context {T : Type} `{Countable T}.
Context {P : FloatToInt}.

Record Grid : Type := mkGrid {
  cellSize : float32;
  cells : gmap Z (list T);
  cellKeys : gmap T (list Z);
  queryResults : list T;
  queryKeys : list Z;
  getKeys : list Z
}.

Definition New (cellSize : float32) : outcome Grid :=
  if F32.leb cellSize F32.zero then Panicked "cellSize must be positive"
  else
    Returned
      {| cellSize := cellSize;
         cells := ∅;
         cellKeys := ∅;
         queryResults := [];
         queryKeys := [];
         getKeys := [] |}.

Definition CellSize (g : Grid) : float32 := cellSize g.

Definition computeCellRange (minX minY maxX maxY cellSize : float32) : Z * Z * Z * Z :=
  let startX := F32.floor_int32 (F32.div minX cellSize) in
  let startY := F32.floor_int32 (F32.div minY cellSize) in
  let endX := F32.ceil_int32 (F32.div maxX cellSize) in
  let endY := F32.ceil_int32 (F32.div maxY cellSize) in
  (startX, startY, endX, endY).

Definition KeysUnsafe (g : Grid) (minX minY maxX maxY : float32) : list Z * Grid :=
  let '(sX, sY, eX, eY) := computeCellRange minX minY maxX maxY (cellSize g) in
  let keys :=
    for_range sX eX
      (fun acc x =>
         for_range sY eY
           (fun acc y =>
              let key := EncodeGridKey x y in
              if bool_decide (is_Some (cells g !! key)) then acc ++ [key] else acc)
           acc)
      [] in
  (keys,
   {| cellSize := cellSize g; cells := cells g; cellKeys := cellKeys g;
      queryResults := queryResults g;
      queryKeys := keys;
      getKeys := getKeys g |}).

Definition Keys (g : Grid) (minX minY maxX maxY : float32) : list Z * Grid :=
  KeysUnsafe g minX minY maxX maxY.

Definition Clear (g : Grid) : Grid :=
  {| cellSize := cellSize g;
     cells := ∅;
     cellKeys := ∅;
     queryResults := [];
     queryKeys := [];
     getKeys := [] |}.

Definition remove_key (entry : T) (cs : gmap Z (list T)) (key : Z) : gmap Z (list T) :=
  let entities := bucket cs key in
  match index_of entry entities with
  | Some j =>
      let rest := take j entities ++ drop (S j) entities in
      if (length rest =? 0)%nat then delete key cs else <[key := rest]> cs
  | None => cs
  end.

Definition Remove (g : Grid) (entry : T) : Grid :=
  match cellKeys g !! entry with
  | Some keys =>
      {| cellSize := cellSize g;
         cells := foldl (remove_key entry) (cells g) keys;
         cellKeys := delete entry (cellKeys g);
         queryResults := queryResults g;
         queryKeys := queryKeys g;
         getKeys := getKeys g |}
  | None => g
  end.

Definition query_cell (g : Grid) (x : Z) (results : list T) (y : Z) : list T :=
  let key := EncodeGridKey x y in
  match cells g !! key with
  | Some entries =>
      foldl (fun res e => if bool_decide (e ∈ res) then res else res ++ [e])
        results entries
  | None => results
  end.

Definition QueryUnsafe (g : Grid) (minX minY maxX maxY : float32) : list T * Grid :=
  let '(sX, sY, eX, eY) := computeCellRange minX minY maxX maxY (cellSize g) in
  let results := for_range sX eX (fun res x => for_range sY eY (query_cell g x) res) [] in
  (results,
   {| cellSize := cellSize g; cells := cells g; cellKeys := cellKeys g;
      queryResults := results;
      queryKeys := queryKeys g;
      getKeys := getKeys g |}).

Definition Query (g : Grid) (minX minY maxX maxY : float32) : list T * Grid :=
  QueryUnsafe g minX minY maxX maxY.

Section Entries.
Context {E : GridEntry T}.

Definition getKeysInternal (g : Grid) (entry : T) (check : option CellCheckFunc)
    : list Z * Grid :=
  let '(minX, minY) := Min entry in
  let '(maxX, maxY) := Max entry in
  let '(sX, sY, eX, eY) := computeCellRange minX minY maxX maxY (cellSize g) in
  let keys :=
    for_range sX eX
      (fun acc x =>
         for_range sY eY
           (fun acc y =>
              let skip :=
                match check with
                | Some f =>
                    negb (f (F32.mul (F32.of_Z x) (cellSize g))
                            (F32.mul (F32.of_Z y) (cellSize g))
                            (F32.mul (F32.of_Z (Int.add32 x 1)) (cellSize g))
                            (F32.mul (F32.of_Z (Int.add32 y 1)) (cellSize g)))
                | None => false
                end in
              if skip then acc else acc ++ [EncodeGridKey x y])
           acc)
      [] in
  (keys,
   {| cellSize := cellSize g; cells := cells g; cellKeys := cellKeys g;
      queryResults := queryResults g;
      queryKeys := queryKeys g;
      getKeys := keys |}).

Definition GetKeys (g : Grid) (entry : T) (check : option CellCheckFunc)
    : list Z * Grid :=
  getKeysInternal g entry check.

Definition InsertStrictCheck (g : Grid) (entry : T) (check : option CellCheckFunc)
    : bool * Grid :=
  if bool_decide (is_Some (cellKeys g !! entry)) then (false, g)
  else
    let '(keys, g1) := GetKeys g entry check in
    (true,
     {| cellSize := cellSize g1;
        cells := foldl (fun cs key => <[key := bucket cs key ++ [entry]]> cs) (cells g1) keys;
        cellKeys := <[entry := keys]> (cellKeys g1);
        queryResults := queryResults g1;
        queryKeys := queryKeys g1;
        getKeys := getKeys g1 |}).

Definition Insert (g : Grid) (entry : T) : bool * Grid :=
  InsertStrictCheck g entry None.

End Entries.

End Grid.

Arguments Grid T {_ _}.

End HashGridRev.

(** ** The first [hashgrid] ([src/unnamed/part_001]) *)

Module HashGridV1.

(** [NewGridKey(x, y int)], [int] being 64 bits wide. *)
Definition NewGridKey (x y : Z) : Z :=
  Z.lor (Int.to_uint64 (Z.shiftl (Int.to_uint64 (Int.to_uint32 x)) 32))
        (Int.to_uint64 (Int.to_uint32 y)).

Section Grid.
Context {T : Type} `{Countable T}.
Context {P : FloatToInt}.

Record Grid : Type := mkGrid {
  cellSize : float32;
  cells : gmap Z (list T)
}.

Definition New (cellSize : float32) : outcome Grid :=
  if F32.leb cellSize F32.zero then Panicked "cellSize must be positive"
  else Returned {| cellSize := cellSize; cells := ∅ |}.

Definition Clear (g : Grid) : Grid :=
  {| cellSize := cellSize g; cells := ∅ |}.

Section Entries.
Context {E : GridEntry T}.

Definition GetKeys (g : Grid) (entry : T) : option (list Z) :=
  let '(minX, minY) := Min entry in
  let '(maxX, maxY) := Max entry in
  let startX := F32.trunc_int64 (F32.div minX (cellSize g)) in
  let startY := F32.trunc_int64 (F32.div minY (cellSize g)) in
  let endX := F32.trunc_int64 (F32.div maxX (cellSize g)) in
  let endY := F32.trunc_int64 (F32.div maxY (cellSize g)) in
  for_range_incl Int.max_int64 startX endX
    (fun keys x =>
       for_range_incl Int.max_int64 startY endY
         (fun keys y => Some (keys ++ [NewGridKey x y]))
         keys)
    [].

Definition insert_key (entry : T) (cs : gmap Z (list T)) (key : Z) : gmap Z (list T) :=
  let cs1 := match cs !! key with None => <[key := []]> cs | Some _ => cs end in
  if bool_decide (entry ∈ bucket cs1 key) then cs1
  else <[key := bucket cs1 key ++ [entry]]> cs1.

Definition Insert (g : Grid) (entry : T) : option Grid :=
  keys ← GetKeys g entry;
  Some {| cellSize := cellSize g; cells := foldl (insert_key entry) (cells g) keys |}.

Definition remove_key (entry : T) (cs : gmap Z (list T)) (key : Z) : gmap Z (list T) :=
  let cs1 :=
    match index_of entry (bucket cs key) with
    | Some j => <[key := take j (bucket cs key) ++ drop (S j) (bucket cs key)]> cs
    | None => cs
    end in
  if (length (bucket cs1 key) =? 0)%nat then delete key cs1 else cs1.

Definition Remove (g : Grid) (entry : T) : option Grid :=
  keys ← GetKeys g entry;
  Some {| cellSize := cellSize g; cells := foldl (remove_key entry) (cells g) keys |}.

Definition visit (minX minY maxX maxY : float32)
    (st : gset T * list T) (entry : T) : gset T * list T :=
  if bool_decide (entry ∈ st.1) then st
  else
    let '(eMinX, eMinY) := Min entry in
    let '(eMaxX, eMaxY) := Max entry in
    if F32.geb eMaxX minX && F32.leb eMinX maxX && F32.geb eMaxY minY && F32.leb eMinY maxY
    then ({[entry]} ∪ st.1, st.2 ++ [entry])
    else st.

Definition Query (g : Grid) (minX minY maxX maxY : float32) : option (list T) :=
  let startX := F32.trunc_int64 (F32.div minX (cellSize g)) in
  let startY := F32.trunc_int64 (F32.div minY (cellSize g)) in
  let endX := F32.trunc_int64 (F32.div maxX (cellSize g)) in
  let endY := F32.trunc_int64 (F32.div maxY (cellSize g)) in
  snd <$>
  for_range_incl Int.max_int64 startX endX
    (fun st x =>
       for_range_incl Int.max_int64 startY endY
         (fun st y =>
            Some (foldl (visit minX minY maxX maxY) st
                    (bucket (cells g) (NewGridKey x y))))
         st)
    (∅, []).

End Entries.

End Grid.

Arguments Grid : clear implicits.

End HashGridV1.

(** ** Package [linq] ([src/linq/linq.go]) *)

Module Linq.

Section Linq.
Context {T : Type}.

(** The loop of [Batch]: [i] and [size] are of type [int], so [i + size]
    wraps at 64 bits; [items[i:end]] panics unless [0 <= i <= end]
    ([end] is at most [len(items)]).  [fuel] bounds the number of
    iterations; [None] is a run that needs more. *)
Fixpoint batch_loop (fuel : nat) (items : list T) (size i : Z) (batches : list (list T))
    : option (outcome (list (list T))) :=
  if i <? Z.of_nat (length items) then
    match fuel with
    | O => None
    | S fuel' =>
        let end_ := Z.min (Int.to_int64 (i + size)) (Z.of_nat (length items)) in
        if (0 <=? i) && (i <=? end_) then
          batch_loop fuel' items size (Int.to_int64 (i + size))
            (batches ++ [take (Z.to_nat (end_ - i)) (drop (Z.to_nat i) items)])
        else Some (Panicked "slice bounds out of range")
    end
  else Some (Returned batches).

(** [nil] and the empty slice of batches are both the empty list. *)
Definition Batch (fuel : nat) (items : list T) (size : Z)
    : option (outcome (list (list T))) :=
  if size <=? 0 then Some (Returned [])
  else batch_loop fuel items size 0 [].

Context `{Countable T}.

(** One iteration of [Distinct] on the pair of [seen] and [result]. *)
Definition distinct_step (st : gset T * list T) (item : T) : gset T * list T :=
  if bool_decide (item ∈ st.1) then st
  else ({[item]} ∪ st.1, st.2 ++ [item]).

Definition Distinct (items : list T) : list T :=
  (foldl distinct_step (∅, []) items).2.

End Linq.

End Linq.

(** ** Package [pool] ([src/pool/pool.go], the type [Pool]) *)

Module Pool.

Section Pool.
(** [St] is the state the constructor function [New] may read and
    change; [None] is a [nil] function. *)
Context {T St : Type}.

Record Pool : Type := mkPool {
  items : list T;
  New : option (St -> T * St)
}.

Definition Get (p : Pool) (s : St) : outcome (T * Pool * St) :=
  let n := length (items p) in
  if (n =? 0)%nat then
    match New p with
    | Some new => let '(item, s') := new s in Returned (item, p, s')
    | None => Panicked "invalid memory address or nil pointer dereference"
    end
  else
    match items p !! (n - 1)%nat with
    | Some item => Returned (item, {| items := take (n - 1) (items p); New := New p |}, s)
    | None => Panicked "index out of range"
    end.

Definition Put (p : Pool) (item : T) : Pool :=
  {| items := items p ++ [item]; New := New p |}.

Definition Len (p : Pool) : Z := Z.of_nat (length (items p)).

End Pool.

Arguments Pool : clear implicits.

End Pool.

(** ** The sets of [src/hash/set.go] *)

(** [hash.Set]: a map with empty values, used through a pointer. *)
Module HashSet.

Section HashSet.
Context {T : Type} `{Countable T}.

(** The capacity hint of [make] is not observable; a negative hint is
    ignored for maps. *)
Definition NewSet (size : list Z) : gset T := ∅.

Definition Contains (s : gset T) (item : T) : bool := bool_decide (item ∈ s).

Definition Add (s : gset T) (item : T) : bool * gset T :=
  if Contains s item then (false, s) else (true, {[item]} ∪ s).

Definition Remove (s : gset T) (item : T) : gset T := s ∖ {[item]}.

Definition Size (s : gset T) : Z := Z.of_nat (size s).

(** [ToSlice] ranges over a Go map: the order is unspecified. *)
Definition ToSlice (s : gset T) : list T := elements s.

End HashSet.

End HashSet.

(** [hashset.Set]: the same map, used by value. *)
Module HashSetV2.

Section HashSetV2.
Context {T : Type} `{Countable T}.

Definition New : gset T := ∅.

Definition Contains (s : gset T) (item : T) : bool := bool_decide (item ∈ s).

Definition Add (s : gset T) (item : T) : gset T :=
  if Contains s item then s else {[item]} ∪ s.

Definition Remove (s : gset T) (item : T) : gset T := s ∖ {[item]}.

End HashSetV2.

End HashSetV2.

(** ** The grid of one cell size ([src/pool/pool.go], package [hash])

    An earlier [hash.Grid]: one [cellSize], cell coordinates by [int32]
    truncation, and loops that include the last cell. *)

Module HashV0.

Section Grid.
Context {T : Type} `{Countable T}.
Context {P : FloatToInt}.

Record Grid : Type := mkGrid {
  gen : Z;
  cellSize : float32;
  cells : gmap Z (list T);
  items : gmap T Z;
  itemCells : gmap T (list Z);
  qBuf : list T
}.

Definition NewGrid (cellSize : float32) : outcome Grid :=
  Returned
    {| gen := 0;
       cellSize := cellSize;
       cells := ∅;
       items := ∅;
       itemCells := ∅;
       qBuf := [] |}.

Definition cellKey (g : Grid) (x y : Z) : Z :=
  let offset := 2 ^ 31 in
  let upper := Int.to_uint64 (Int.to_uint32 (Int.to_int64 (x + offset))) in
  let lower := Int.to_uint64 (Int.to_uint32 (Int.to_int64 (y + offset))) in
  Z.lor (Int.to_uint64 (Z.shiftl upper 32)) lower.

Definition cellRange (g : Grid) (minX minY maxX maxY : float32) : Z * Z * Z * Z :=
  let minCellX := F32.trunc_int32 (F32.div minX (cellSize g)) in
  let minCellY := F32.trunc_int32 (F32.div minY (cellSize g)) in
  let maxCellX := F32.trunc_int32 (F32.div maxX (cellSize g)) in
  let maxCellY := F32.trunc_int32 (F32.div maxY (cellSize g)) in
  (minCellX, minCellY, maxCellX, maxCellY).

Definition Contains (g : Grid) (item : T) : bool :=
  bool_decide (is_Some (items g !! item)).

(** The body of the inner loop of [Insert], on the pair of [g.cells] and
    the local [cellKeys]. *)
Definition insert_cell (g : Grid) (item : T) (cy : Z)
    (st : gmap Z (list T) * list Z) (cx : Z) : gmap Z (list T) * list Z :=
  let key := cellKey g cx cy in
  (<[key := bucket st.1 key ++ [item]]> st.1, st.2 ++ [key]).

(** [None]: the loops do not come to an end. *)
Definition Insert (g : Grid) (item : T) (minX minY maxX maxY : float32)
    : option (bool * Grid) :=
  if Contains g item then Some (false, g)
  else
    let '(minCellX, minCellY, maxCellX, maxCellY) := cellRange g minX minY maxX maxY in
    '(cs, cellKeys) ←
      for_range_incl Int.max_int32 minCellY maxCellY
        (fun st cy =>
           for_range_incl Int.max_int32 minCellX maxCellX
             (fun st cx => Some (insert_cell g item cy st cx)) st)
        (cells g, []);
    Some (true,
          {| gen := gen g;
             cellSize := cellSize g;
             cells := cs;
             items := <[item := 0]> (items g);
             itemCells := <[item := cellKeys]> (itemCells g);
             qBuf := qBuf g |}).

(** The compaction loop is the one of [src/hash/grid.go]. *)
Definition Remove (g : Grid) (item : T) : Grid :=
  if negb (Contains g item) then g
  else
    let cellKeys := default [] (itemCells g !! item) in
    {| gen := gen g;
       cellSize := cellSize g;
       cells := foldl (Hash.remove_from_cell item) (cells g) cellKeys;
       items := delete item (items g);
       itemCells := delete item (itemCells g);
       qBuf := qBuf g |}.

Definition query_cell (g : Grid) (gen' : Z) (cy : Z)
    (st : gmap T Z * list T) (cx : Z) : gmap T Z * list T :=
  let key := cellKey g cx cy in
  match cells g !! key with
  | None => st
  | Some its => foldl (Hash.visit gen') st its
  end.

Definition Query (g : Grid) (minX minY maxX maxY : float32) : option (list T * Grid) :=
  let gen' := Int.to_uint64 (gen g + 1) in
  let '(minCellX, minCellY, maxCellX, maxCellY) := cellRange g minX minY maxX maxY in
  '(its, buf) ←
    for_range_incl Int.max_int32 minCellY maxCellY
      (fun st cy =>
         for_range_incl Int.max_int32 minCellX maxCellX
           (fun st cx => Some (query_cell g gen' cy st cx)) st)
      (items g, []);
  Some (buf,
        {| gen := gen';
           cellSize := cellSize g;
           cells := cells g;
           items := its;
           itemCells := itemCells g;
           qBuf := buf |}).

End Grid.

Arguments Grid T {_ _}.

End HashV0.

(** * Vocabulary of the statements *)

(** ** Keys and cells *)

(** The biased coordinate [uint32(int64(x) + offset)]. *)
Definition biased (x : Z) : Z := Int.to_uint32 (Int.to_int64 (x + 2 ^ 31)).

(** Packing two 32-bit halves into 64 bits, as both codecs do. *)
Definition pack (u l : Z) : Z :=
  Z.lor (Int.to_uint64 (Z.shiftl (Int.to_uint64 u) 32)) (Int.to_uint64 l).

(** The key of the cell [(cx, cy)]. *)
Definition encode_cell (c : Z * Z) : Z := Hash.EncodeGridKey c.1 c.2.

(** The cells of a half-open range in the order of [src/hash/grid.go]: the
    row [cy] is the outer loop, the column [cx] the inner one. *)
Definition row_major (minCellX minCellY maxCellX maxCellY : Z) : list (Z * Z) :=
  cy ← seqZ minCellY (maxCellY - minCellY);
  cx ← seqZ minCellX (maxCellX - minCellX);
  [(cx, cy)].

(** The order of [src/unnamed/part_000]: [x] outside, [y] inside. *)
Definition column_major (sX sY eX eY : Z) : list (Z * Z) :=
  x ← seqZ sX (eX - sX);
  y ← seqZ sY (eY - sY);
  [(x, y)].

(** ** The bucket store and the reverse index *)

Section IndexVocabulary.
Context {T : Type} `{Countable T}.
Implicit Types (cs : gmap Z (list T)) (rev : gmap T (list Z)) (e : T) (k : Z).

(** How often [e] occurs in the bucket of key [k]. *)
Definition occurrences cs k e : nat :=
  length (filter (fun x => x = e) (bucket cs k)).

(** A bucket with every occurrence of [e] taken out. *)
Definition without e (b : list T) : list T := filter (fun x => x ≠ e) b.

(** [e] appended to the bucket of every key of [keys]. *)
Definition add_to_cells e cs (keys : list Z) : gmap Z (list T) :=
  foldl (fun cs k => <[k := bucket cs k ++ [e]]> cs) cs keys.

(** [e] taken out of the bucket of [k]; the bucket goes when it empties. *)
Definition drop_from_cell e cs k : gmap Z (list T) :=
  match without e (bucket cs k) with
  | [] => delete k cs
  | b => <[k := b]> cs
  end.

Definition drop_from_cells e cs (keys : list Z) : gmap Z (list T) :=
  foldl (drop_from_cell e) cs keys.

(** The invariants that tie the bucket store to the reverse index. *)
Record index_inv cs rev : Prop := {
  inv_keys_nodup : forall e K, rev !! e = Some K -> NoDup K;
  inv_once : forall e K k, rev !! e = Some K -> k ∈ K -> occurrences cs k e = 1%nat;
  inv_nonempty : forall k b, cs !! k = Some b -> b ≠ [];
  inv_indexed : forall k e, e ∈ bucket cs k -> exists K, rev !! e = Some K /\ k ∈ K
}.

(** The removal of [src/hashgrid/grid.go] and [src/unnamed/part_000]:
    the first occurrence goes, and the bucket with it when it empties. *)
Definition remove_first e cs k : gmap Z (list T) :=
  match index_of e (bucket cs k) with
  | Some j =>
      let rest := take j (bucket cs k) ++ drop (S j) (bucket cs k) in
      if (length rest =? 0)%nat then delete k cs else <[k := rest]> cs
  | None => cs
  end.

End IndexVocabulary.

(** ** Runs of [src/hash/grid.go] *)

(** A per-cell predicate that rejects every cell. *)
Definition reject_all : Hash.GridInsertionFunc := fun _ _ _ _ => false.

Section HashVocabulary.
Context {T : Type} `{Countable T} `{Inhabited T} {P : FloatToInt}.
Implicit Types (g : Hash.Grid T) (item e : T).

(** Operations of the public interface that change the grid. *)
Inductive hash_op : Type :=
  | OpInsert (item : T) (minX minY maxX maxY : float32) (padding : Hash.GridItemPadding)
  | OpInsertFunc (item : T) (minX minY maxX maxY : float32)
      (padding : Hash.GridItemPadding) (fn : option Hash.GridInsertionFunc)
  | OpRemove (item : T)
  | OpQuery (minX minY maxX maxY : float32)
  | OpClear
  | OpResize (cellWidth cellHeight : float32).

(** The grid after one operation. *)
Definition hash_step g (o : hash_op) : Hash.Grid T :=
  match o with
  | OpInsert item minX minY maxX maxY padding =>
      (Hash.Insert g item minX minY maxX maxY padding).2
  | OpInsertFunc item minX minY maxX maxY padding fn =>
      (Hash.InsertFunc g item minX minY maxX maxY padding fn).2
  | OpRemove item => Hash.Remove g item
  | OpQuery minX minY maxX maxY => (Hash.Query g minX minY maxX maxY).2
  | OpClear => Hash.Clear g
  | OpResize cellWidth cellHeight => Hash.Resize g cellWidth cellHeight
  end.

(** The grid after a sequence of operations. *)
Definition hash_run g (ops : list hash_op) : Hash.Grid T := foldl hash_step g ops.

(** The index invariants, and the presence map [items] has the domain of
    the reverse index [itemCells]. *)
Record hash_inv g : Prop := {
  hash_index : index_inv (Hash.cells g) (Hash.itemCells g);
  hash_items : forall e, is_Some (Hash.items g !! e) <-> is_Some (Hash.itemCells g !! e)
}.

(** The grid invariants in the words of the specification: an indexed
    entry is in each of its buckets exactly once, no bucket is empty, and
    the reverse index and the buckets agree on which entries exist. *)
Definition spec_invariants (g : Hash.Grid T) : Prop :=
  (forall e K k, Hash.itemCells g !! e = Some K -> k ∈ K ->
                 occurrences (Hash.cells g) k e = 1%nat) /\
  (forall k b, Hash.cells g !! k = Some b -> b ≠ []) /\
  (forall e, is_Some (Hash.itemCells g !! e) <-> exists k, e ∈ bucket (Hash.cells g) k).

(** What the code keeps: the first two as they are; of the third, every
    entry of a bucket is indexed, and an indexed entry is in some bucket
    exactly when its key list is not empty. *)
Definition grid_invariants (g : Hash.Grid T) : Prop :=
  (forall e K k, Hash.itemCells g !! e = Some K -> k ∈ K ->
                 occurrences (Hash.cells g) k e = 1%nat) /\
  (forall k b, Hash.cells g !! k = Some b -> b ≠ []) /\
  (forall e, Hash.Contains g e = true <-> is_Some (Hash.itemCells g !! e)) /\
  (forall e k, e ∈ bucket (Hash.cells g) k -> is_Some (Hash.itemCells g !! e)) /\
  (forall e K, Hash.itemCells g !! e = Some K ->
               ((exists k, e ∈ bucket (Hash.cells g) k) <-> K ≠ [])).

(** Whether the per-cell predicate lets the cell [(cx, cy)] in. *)
Definition accepts g (fn : option Hash.GridInsertionFunc) (c : Z * Z) : bool :=
  match fn with
  | Some f =>
      let cellMinX := F32.mul (F32.of_Z c.1) (Hash.cellWidth g) in
      let cellMinY := F32.mul (F32.of_Z c.2) (Hash.cellHeight g) in
      f cellMinX cellMinY (F32.add cellMinX (Hash.cellWidth g))
        (F32.add cellMinY (Hash.cellHeight g))
  | None => true
  end.

(** The range [insert] iterates over, padding applied. *)
Definition insert_range g (minX minY maxX maxY : float32)
    (padding : Hash.GridItemPadding) : Z * Z * Z * Z :=
  let '(minCellX, minCellY, maxCellX, maxCellY) := Hash.cellRange g minX minY maxX maxY in
  if padding =? Hash.GridCellPadding
  then (Int.sub32 minCellX 1, Int.sub32 minCellY 1, Int.add32 maxCellX 1, Int.add32 maxCellY 1)
  else (minCellX, minCellY, maxCellX, maxCellY).

(** The keys [insert] records for an item. *)
Definition insert_keys g (minX minY maxX maxY : float32)
    (padding : Hash.GridItemPadding) (fn : option Hash.GridInsertionFunc) : list Z :=
  let '(x0, y0, x1, y1) := insert_range g minX minY maxX maxY padding in
  encode_cell <$> filter (fun c => accepts g fn c = true) (row_major x0 y0 x1 y1).

(** The state after the loops of [Query]. *)
Definition query_state g (minX minY maxX maxY : float32) : gmap T Z * list T :=
  let '(x0, y0, x1, y1) := Hash.cellRange g minX minY maxX maxY in
  foldl (fun st c => Hash.query_cell g (Int.to_uint64 (Hash.gen g + 1)) c.2 st c.1)
    (Hash.items g, []) (row_major x0 y0 x1 y1).

(** No stored stamp equals the generation the next query will use. *)
Definition stamps_fresh (g : Hash.Grid T) : Prop :=
  forall e s, Hash.items g !! e = Some s -> s ≠ Int.to_uint64 (Hash.gen g + 1).

(** The generation counter is at most [n] and bounds every stamp. *)
Definition stamps_bounded (n : Z) (g : Hash.Grid T) : Prop :=
  0 <= Hash.gen g <= n /\
  forall e s, Hash.items g !! e = Some s -> 0 <= s <= Hash.gen g.

(** The state of the query loop once the entries [seen] have been met:
    the buffer has no duplicate, holds exactly those entries, and the
    stamps tell who is in the buffer. *)
Definition query_progress (g : Hash.Grid T) (seen : T -> Prop)
    (st : gmap T Z * list T) : Prop :=
  NoDup st.2 /\
  (forall e, e ∈ st.2 <-> seen e) /\
  (forall e, st.1 !! e
             = if decide (e ∈ st.2) then Some (Int.to_uint64 (Hash.gen g + 1))
               else Hash.items g !! e).

End HashVocabulary.

(** ** Runs of [src/unnamed/part_000] *)

Section RevVocabulary.
Context {T : Type} `{Countable T} {P : FloatToInt}.
Implicit Types (g : HashGridRev.Grid T) (entry e : T).

(** Operations of the public interface that change the grid; the ones
    that read an entry's box carry the boxes of that moment. *)
Inductive rev_op : Type :=
  | RevInsert (E : GridEntry T) (entry : T)
  | RevInsertStrictCheck (E : GridEntry T) (entry : T)
      (check : option HashGridRev.CellCheckFunc)
  | RevRemove (entry : T)
  | RevQuery (minX minY maxX maxY : float32)
  | RevQueryUnsafe (minX minY maxX maxY : float32)
  | RevKeys (minX minY maxX maxY : float32)
  | RevKeysUnsafe (minX minY maxX maxY : float32)
  | RevGetKeys (E : GridEntry T) (entry : T) (check : option HashGridRev.CellCheckFunc)
  | RevClear.

(** The grid after one operation. *)
Definition rev_step g (o : rev_op) : HashGridRev.Grid T :=
  match o with
  | RevInsert E entry => (HashGridRev.Insert (E := E) g entry).2
  | RevInsertStrictCheck E entry check =>
      (HashGridRev.InsertStrictCheck (E := E) g entry check).2
  | RevRemove entry => HashGridRev.Remove g entry
  | RevQuery minX minY maxX maxY => (HashGridRev.Query g minX minY maxX maxY).2
  | RevQueryUnsafe minX minY maxX maxY => (HashGridRev.QueryUnsafe g minX minY maxX maxY).2
  | RevKeys minX minY maxX maxY => (HashGridRev.Keys g minX minY maxX maxY).2
  | RevKeysUnsafe minX minY maxX maxY => (HashGridRev.KeysUnsafe g minX minY maxX maxY).2
  | RevGetKeys E entry check => (HashGridRev.GetKeys (E := E) g entry check).2
  | RevClear => HashGridRev.Clear g
  end.

(** The grid after a sequence of operations. *)
Definition rev_run g (ops : list rev_op) : HashGridRev.Grid T := foldl rev_step g ops.

(** The index invariants on [cells] and [cellKeys]. *)
Definition rev_inv g : Prop := index_inv (HashGridRev.cells g) (HashGridRev.cellKeys g).

(** Whether [check] lets the cell [(x, y)] in. *)
Definition rev_accepts g (check : option HashGridRev.CellCheckFunc) (c : Z * Z) : bool :=
  match check with
  | Some f =>
      f (F32.mul (F32.of_Z c.1) (HashGridRev.cellSize g))
        (F32.mul (F32.of_Z c.2) (HashGridRev.cellSize g))
        (F32.mul (F32.of_Z (Int.add32 c.1 1)) (HashGridRev.cellSize g))
        (F32.mul (F32.of_Z (Int.add32 c.2 1)) (HashGridRev.cellSize g))
  | None => true
  end.

(** The body of the inner loop of [getKeysInternal]. *)
Definition get_key g (check : option HashGridRev.CellCheckFunc)
    (x : Z) (acc : list Z) (y : Z) : list Z :=
  if match check with
     | Some f =>
         negb (f (F32.mul (F32.of_Z x) (HashGridRev.cellSize g))
                 (F32.mul (F32.of_Z y) (HashGridRev.cellSize g))
                 (F32.mul (F32.of_Z (Int.add32 x 1)) (HashGridRev.cellSize g))
                 (F32.mul (F32.of_Z (Int.add32 y 1)) (HashGridRev.cellSize g)))
     | None => false
     end
  then acc else acc ++ [HashGridRev.EncodeGridKey x y].

End RevVocabulary.

(** ** Floor and ceiling of a float *)

(** [n] is the floor, respectively the ceiling, of the rational the finite
    float [q] denotes. *)
Definition is_floor (q : float32) (n : Z) : Prop :=
  exists r : Q, F32.toQ q = Some r /\ Qle (inject_Z n) r /\ Qlt r (inject_Z (n + 1)).

Definition is_ceil (q : float32) (n : Z) : Prop :=
  exists r : Q, F32.toQ q = Some r /\ Qlt (inject_Z (n - 1)) r /\ Qle r (inject_Z n).

(** The float denotes exactly the integer [n]. *)
Definition is_integer (q : float32) (n : Z) : Prop :=
  exists r : Q, F32.toQ q = Some r /\ Qeq r (inject_Z n).

(** The rounded quotient is finite and fits [int32]. *)
Definition fits_int32 (r : option Z) : Prop :=
  exists n, r = Some n /\ Int.in_int32 n.

(** ** Concrete grids and entries *)

(** [float32(n)]; exact for the small integers used below. *)
Definition f32 (n : Z) : float32 := F32.of_Z n.

(** The entry [A] of the examples. *)
Definition entry_A : nat := 1%nat.

(** Boxes at one moment: every entry reports the same box. *)
Definition boxes (minX minY maxX maxY : Z) : GridEntry nat :=
  {| Min := fun _ => (f32 minX, f32 minY); Max := fun _ => (f32 maxX, f32 maxY) |}.

(** [hash.NewGrid(64, 64)] *)
Definition hash_grid_64 : Hash.Grid nat :=
  {| Hash.gen := 0; Hash.cellWidth := f32 64; Hash.cellHeight := f32 64;
     Hash.cells := ∅; Hash.items := ∅; Hash.itemCells := ∅; Hash.qBuf := [] |}.

(** [hashgrid.New(64)] of [src/hashgrid/grid.go] *)
Definition hashgrid_64 : HashGrid.Grid nat :=
  {| HashGrid.left := 0; HashGrid.right := 0; HashGrid.top := 0; HashGrid.bottom := 0;
     HashGrid.cellSize := f32 64; HashGrid.cells := ∅ |}.

(** [hashgrid.New(64)] of [src/unnamed/part_000] *)
Definition hashgrid_rev_64 : HashGridRev.Grid nat :=
  {| HashGridRev.cellSize := f32 64; HashGridRev.cells := ∅; HashGridRev.cellKeys := ∅;
     HashGridRev.queryResults := []; HashGridRev.queryKeys := []; HashGridRev.getKeys := [] |}.

(** [hashgrid.New(64)] of [src/unnamed/part_001] *)
Definition hashgrid_v1_64 : HashGridV1.Grid nat :=
  {| HashGridV1.cellSize := f32 64; HashGridV1.cells := ∅ |}.

(** The grid after inserting [A] with the box [[0,0,32,32]]. *)
Definition hash_grid_A : Hash.Grid nat :=
  (Hash.Insert (P := amd64) hash_grid_64 entry_A (f32 0) (f32 0) (f32 32) (f32 32)
     Hash.NoGridPadding).2.

(** The grid after inserting [A] under a predicate that rejects every cell. *)
Definition ops_rejected : list (hash_op (T := nat)) :=
  [OpInsertFunc entry_A (f32 0) (f32 0) (f32 32) (f32 32) Hash.NoGridPadding (Some reject_all)].

(** Inserting [A] with the box [[0,0,32,32]]. *)
Definition ops_A : list (hash_op (T := nat)) :=
  [OpInsert entry_A (f32 0) (f32 0) (f32 32) (f32 32) Hash.NoGridPadding].

Definition rev_ops_A : list (rev_op (T := nat)) :=
  [RevInsert (boxes 0 0 32 32) entry_A].

(** The grid of [src/hashgrid/grid.go] with an entry inserted under the
    given boxes, if the insertion returns. *)
Definition hashgrid_with (E : GridEntry nat) (entry : nat) : HashGrid.Grid nat :=
  default hashgrid_64 (HashGrid.Insert (P := amd64) (E := E) hashgrid_64 entry).

(** ** First occurrences *)

(** [x] appended unless it is there already. *)
Definition keep_first {A : Type} `{EqDecision A} (acc : list A) (x : A) : list A :=
  if decide (x ∈ acc) then acc else acc ++ [x].

(** The first occurrence of every element, in the order of the list. *)
Definition first_occurrences {A : Type} `{EqDecision A} (l : list A) : list A :=
  foldl keep_first [] l.

(** The bucket contents met when the cells [L] are visited in order,
    [key] being the key of a cell. *)
Definition candidates {T : Type} (key : Z * Z -> Z) (cs : gmap Z (list T))
    (L : list (Z * Z)) : list T :=
  c ← L; bucket cs (key c).

(** A grid of [src/hash/grid.go] whose generation counter is at its
    largest value, with [A] stored in cell [(0, 0)]. *)
Definition hash_grid_last_gen : Hash.Grid nat :=
  {| Hash.gen := 2 ^ 64 - 1; Hash.cellWidth := f32 64; Hash.cellHeight := f32 64;
     Hash.cells := {[ Hash.EncodeGridKey 0 0 := [entry_A] ]};
     Hash.items := {[ entry_A := 0 ]};
     Hash.itemCells := {[ entry_A := [Hash.EncodeGridKey 0 0] ]};
     Hash.qBuf := [] |}.

(** A second entry. *)
Definition entry_B : nat := 2%nat.

(** ** Closed cell ranges and runs of [src/hashgrid/grid.go] *)

(** The cells of the closed range [[sX, eX] x [sY, eY]], [x] outside. *)
Definition closed_cells (sX sY eX eY : Z) : list (Z * Z) :=
  column_major sX sY (eX + 1) (eY + 1).

(** Whether two nested loops [for x := sX; x <= eX; x++] and
    [for y := sY; y <= eY; y++] on a signed type of largest value [maxv]
    come to an end: the outer bound is not [maxv], and the inner loop is
    never entered when its bound is. *)
Definition loops_return (maxv sX sY eX eY : Z) : bool :=
  negb (eX =? maxv) && negb ((eY =? maxv) && (sX <=? eX)).

(** The key of a cell in [src/unnamed/part_001]. *)
Definition v1_key (c : Z * Z) : Z := HashGridV1.NewGridKey c.1 c.2.

Section HashGridVocabulary.
Context {T : Type} `{Countable T} {P : FloatToInt}.

(** The bounds of the loops of [GetKeys]. *)
Definition entry_range (E : GridEntry T) (g : HashGrid.Grid T) (entry : T) : Z * Z * Z * Z :=
  (Int.sub32 (F32.trunc_int32 (F32.div (Min entry).1 (HashGrid.cellSize g))) (HashGrid.left g),
   Int.sub32 (F32.trunc_int32 (F32.div (Min entry).2 (HashGrid.cellSize g))) (HashGrid.top g),
   Int.add32 (Int.sub32 (F32.trunc_int32 (F32.div (Max entry).1 (HashGrid.cellSize g))) 1)
     (HashGrid.right g),
   Int.add32 (Int.sub32 (F32.trunc_int32 (F32.div (Max entry).2 (HashGrid.cellSize g))) 1)
     (HashGrid.bottom g)).

(** The bounds of the loops of [Query]. *)
Definition query_range (cellSize minX minY maxX maxY : float32) : Z * Z * Z * Z :=
  (F32.trunc_int32 (F32.div minX cellSize), F32.trunc_int32 (F32.div minY cellSize),
   F32.trunc_int32 (F32.div maxX cellSize), F32.trunc_int32 (F32.div maxY cellSize)).

(** The bounds of the loops of [GetKeys] and [Query] in
    [src/unnamed/part_001]. *)
Definition v1_range (cellSize minX minY maxX maxY : float32) : Z * Z * Z * Z :=
  (F32.trunc_int64 (F32.div minX cellSize), F32.trunc_int64 (F32.div minY cellSize),
   F32.trunc_int64 (F32.div maxX cellSize), F32.trunc_int64 (F32.div maxY cellSize)).

(** The test [Query] makes on a candidate: the boxes overlap, edges
    included. *)
Definition overlaps (E : GridEntry T) (minX minY maxX maxY : float32) (entry : T) : bool :=
  F32.geb (Max entry).1 minX && F32.leb (Min entry).1 maxX &&
  F32.geb (Max entry).2 minY && F32.leb (Min entry).2 maxY.

(** Every stored bucket is non-empty and holds no entry twice. *)
Definition buckets_ok (cs : gmap Z (list T)) : Prop :=
  forall k b, cs !! k = Some b -> b ≠ [] /\ NoDup b.

(** Operations that change a grid of [src/hashgrid/grid.go], with the
    boxes the entries report at that moment. *)
Inductive grid_op : Type :=
  | GridInsert (E : GridEntry T) (entry : T)
  | GridRemove (E : GridEntry T) (entry : T)
  | GridClear.

Definition grid_step (g : HashGrid.Grid T) (o : grid_op) : option (HashGrid.Grid T) :=
  match o with
  | GridInsert E entry => HashGrid.Insert (E := E) g entry
  | GridRemove E entry => HashGrid.Remove (E := E) g entry
  | GridClear => Some (HashGrid.Clear g)
  end.

(** The grid after a sequence of operations, if all of them return. *)
Definition grid_run (g : HashGrid.Grid T) (ops : list grid_op) : option (HashGrid.Grid T) :=
  foldl_opt grid_step g ops.

(** The same for [src/unnamed/part_001]. *)
Definition v1_step (g : HashGridV1.Grid T) (o : grid_op) : option (HashGridV1.Grid T) :=
  match o with
  | GridInsert E entry => HashGridV1.Insert (E := E) g entry
  | GridRemove E entry => HashGridV1.Remove (E := E) g entry
  | GridClear => Some (HashGridV1.Clear g)
  end.

Definition v1_run (g : HashGridV1.Grid T) (ops : list grid_op) : option (HashGridV1.Grid T) :=
  foldl_opt v1_step g ops.

End HashGridVocabulary.

(** One insertion of [A] with the box [[0,0,100,100]] into a grid of
    [src/hashgrid/grid.go]. *)
Definition grid_ops_A : list (grid_op (T := nat)) :=
  [GridInsert (boxes 0 0 100 100) entry_A].

(** The grid of [src/unnamed/part_001] after [A] has been inserted with
    the box [[0,0,100,100]]. *)
Definition hashgrid_v1_A : HashGridV1.Grid nat :=
  default hashgrid_v1_64 (v1_run (P := amd64) hashgrid_v1_64 grid_ops_A).

(** ** Sequences of calls on pools and sets *)

(** [n] calls of [Get] in a row, with the items they return in order. *)
Fixpoint get_n {T St : Type} (n : nat) (p : Pool.Pool T St) (s : St)
    : outcome (list T * Pool.Pool T St * St) :=
  match n with
  | O => Returned ([], p, s)
  | S n' =>
      match Pool.Get p s with
      | Returned (item, p', s') =>
          match get_n n' p' s' with
          | Returned (got, p'', s'') => Returned (item :: got, p'', s'')
          | Panicked msg => Panicked msg
          end
      | Panicked msg => Panicked msg
      end
  end.

(** [Add] called on every item of a list in turn: the items for which it
    returned [true], in order, and the set afterwards. *)
Definition add_all {T : Type} `{Countable T} (s : gset T) (items : list T)
    : list T * gset T :=
  foldl (fun st item =>
           let '(added, s') := HashSet.Add st.2 item in
           (if added then st.1 ++ [item] else st.1, s'))
    ([], s) items.

(** A constructor function that counts the pool misses. *)
Definition counting_new : nat -> nat * nat := fun s => (s, S s).

(** ** The grid of one cell size *)

(** The key of the cell of row [c.1] and column [c.2]: the loops of
    [src/pool/pool.go] have the row outside. *)
Definition row_key (c : Z * Z) : Z := Hash.EncodeGridKey c.2 c.1.

(** [hash.NewGrid(64)] of [src/pool/pool.go] *)
Definition hash_v0_64 : HashV0.Grid nat :=
  {| HashV0.gen := 0; HashV0.cellSize := f32 64;
     HashV0.cells := ∅; HashV0.items := ∅; HashV0.itemCells := ∅; HashV0.qBuf := [] |}.

(** * Properties *)

(** ** Machine integers and the key codec *)

Lemma in_int32b_spec z : Int.in_int32b z = true <-> Int.in_int32 z.
Proof.
  unfold Int.in_int32b, Int.in_int32.
  rewrite andb_true_iff, !Z.leb_le. tauto.
Qed.

Lemma to_int32_in_range z : Int.in_int32 (Int.to_int32 z).
Proof.
  unfold Int.in_int32, Int.to_int32, Int.min_int32, Int.max_int32.
  pose proof (Z.mod_pos_bound (z + 2 ^ 31) (2 ^ 32)). lia.
Qed.

Lemma to_int32_id z : Int.in_int32 z -> Int.to_int32 z = z.
Proof.
  unfold Int.in_int32, Int.to_int32, Int.min_int32, Int.max_int32. intros Hz.
  rewrite Z.mod_small; lia.
Qed.

Lemma biased_eq x : Int.in_int32 x -> biased x = x + 2 ^ 31.
Proof.
  unfold biased, Int.in_int32, Int.to_uint32, Int.to_int64, Int.min_int32, Int.max_int32.
  intros Hx. rewrite (Z.mod_small (x + 2 ^ 31 + 2 ^ 63)) by lia.
  rewrite Z.mod_small; lia.
Qed.

Section Pack.
Variables u l : Z.
Hypothesis Hu : 0 <= u < 2 ^ 32.
Hypothesis Hl : 0 <= l < 2 ^ 32.

Lemma pack_high_part : Int.to_uint64 (Z.shiftl (Int.to_uint64 u) 32) = u * 2 ^ 32.
Proof using Hu.
  unfold Int.to_uint64. rewrite (Z.mod_small u) by lia.
  rewrite Z.shiftl_mul_pow2 by lia. rewrite Z.mod_small; lia.
Qed.

Lemma pack_shiftr : Z.shiftr (pack u l) 32 = u.
Proof using Hu Hl.
  unfold pack. rewrite pack_high_part.
  unfold Int.to_uint64. rewrite (Z.mod_small l) by lia.
  rewrite Z.shiftr_lor, !Z.shiftr_div_pow2 by lia.
  rewrite Z.div_mul by lia. rewrite (Z.div_small l) by lia.
  apply Z.lor_0_r.
Qed.

Lemma pack_low : pack u l mod 2 ^ 32 = l.
Proof using Hu Hl.
  unfold pack. rewrite pack_high_part.
  unfold Int.to_uint64. rewrite (Z.mod_small l (2 ^ 64)) by lia.
  rewrite <- !Z.land_ones by lia.
  rewrite Z.land_lor_distr_l, !Z.land_ones by lia.
  rewrite Z.mod_mul by lia. rewrite Z.mod_small by lia. reflexivity.
Qed.

Lemma pack_land : Z.land (pack u l) 0xFFFFFFFF = l.
Proof using Hu Hl.
  change 0xFFFFFFFF with (Z.ones 32). rewrite Z.land_ones by lia. apply pack_low.
Qed.
End Pack.

Lemma biased_range x : 0 <= biased x < 2 ^ 32.
Proof. unfold biased, Int.to_uint32. apply Z.mod_pos_bound. lia. Qed.

Lemma Hash_Encode_pack x y : Hash.EncodeGridKey x y = pack (biased x) (biased y).
Proof. reflexivity. Qed.

Lemma HashGrid_Encode_pack x y : HashGrid.EncodeGridKey x y = pack (biased x) (biased y).
Proof. reflexivity. Qed.

Lemma HashGridRev_Encode_eq x y : HashGridRev.EncodeGridKey x y = HashGrid.EncodeGridKey x y.
Proof. reflexivity. Qed.

Lemma to_uint32_biased x : Int.to_uint32 (biased x) = biased x.
Proof. unfold biased, Int.to_uint32. apply Z.mod_mod. lia. Qed.

Lemma unbias_hash x :
  Int.in_int32 x ->
  Int.to_int32 (Int.to_int64 (Int.to_int32 (biased x) - 2 ^ 31)) = x.
Proof.
  intros Hx. rewrite biased_eq by assumption. revert Hx.
  unfold Int.in_int32, Int.to_int32, Int.to_int64, Int.min_int32, Int.max_int32.
  intros Hx. Z.div_mod_to_equations. lia.
Qed.

Lemma unbias_hashgrid x :
  Int.in_int32 x ->
  Int.to_int32 (Int.to_int64 (biased x - 2 ^ 31)) = x.
Proof.
  intros Hx. rewrite biased_eq by assumption. revert Hx.
  unfold Int.in_int32, Int.to_int32, Int.to_int64, Int.min_int32, Int.max_int32.
  intros Hx. Z.div_mod_to_equations. lia.
Qed.

Lemma Hash_Decode_Encode cx cy :
  Int.in_int32 cx -> Int.in_int32 cy ->
  Hash.DecodeGridKey (Hash.EncodeGridKey cx cy) = (cx, cy).
Proof.
  intros Hx Hy. rewrite Hash_Encode_pack. unfold Hash.DecodeGridKey, Hash.offset.
  rewrite pack_shiftr, pack_land by apply biased_range.
  rewrite !to_uint32_biased, !unbias_hash by assumption. reflexivity.
Qed.

Lemma HashGrid_Decode_Encode cx cy :
  Int.in_int32 cx -> Int.in_int32 cy ->
  HashGrid.DecodeGridKey (HashGrid.EncodeGridKey cx cy) = (cx, cy).
Proof.
  intros Hx Hy. rewrite HashGrid_Encode_pack. unfold HashGrid.DecodeGridKey, HashGrid.offset.
  rewrite pack_shiftr by apply biased_range.
  unfold Int.to_uint32 at 2. rewrite pack_low by apply biased_range.
  rewrite to_uint32_biased, !unbias_hashgrid by assumption. reflexivity.
Qed.

(** The codec is injective on representable coordinates: distinct cells
    get distinct keys. *)
Lemma Hash_Encode_inj x1 y1 x2 y2 :
  Int.in_int32 x1 -> Int.in_int32 y1 -> Int.in_int32 x2 -> Int.in_int32 y2 ->
  Hash.EncodeGridKey x1 y1 = Hash.EncodeGridKey x2 y2 -> x1 = x2 /\ y1 = y2.
Proof.
  intros H1 H2 H3 H4 Heq.
  pose proof (Hash_Decode_Encode x1 y1 H1 H2) as D1.
  pose proof (Hash_Decode_Encode x2 y2 H3 H4) as D2.
  rewrite Heq in D1. rewrite D1 in D2. inversion D2. auto.
Qed.

(** C5: on every pair of cell coordinates in [[-2^31, 2^31 - 1]] the 64-bit
    key codec round-trips exactly, [DecodeGridKey (EncodeGridKey cx cy) =
    (cx, cy)], in [src/hash/grid.go] and in [src/hashgrid/grid.go]. *)
Theorem codec_round_trip (cx cy : Z) :
  Int.in_int32 cx -> Int.in_int32 cy ->
  Hash.DecodeGridKey (Hash.EncodeGridKey cx cy) = (cx, cy) /\
  HashGrid.DecodeGridKey (HashGrid.EncodeGridKey cx cy) = (cx, cy).
Proof.
  intros Hx Hy. split.
  - apply Hash_Decode_Encode; assumption.
  - apply HashGrid_Decode_Encode; assumption.
Qed.

Lemma codec_round_trip_witness :
  Hash.DecodeGridKey (Hash.EncodeGridKey (- 2 ^ 31) (2 ^ 31 - 1)) = (- 2 ^ 31, 2 ^ 31 - 1) /\
  HashGrid.DecodeGridKey (HashGrid.EncodeGridKey (- 2 ^ 31) (2 ^ 31 - 1)) = (- 2 ^ 31, 2 ^ 31 - 1).
Proof.
  apply (codec_round_trip (- 2 ^ 31) (2 ^ 31 - 1));
    unfold Int.in_int32, Int.min_int32, Int.max_int32; lia.
Defined.

(** ** Loops over cells *)

Lemma foldl_bind {A B C : Type} (f : A -> C -> A) (g : B -> list C) (l : list B) (a : A) :
  foldl f a (l ≫= g) = foldl (fun a x => foldl f a (g x)) a l.
Proof.
  revert a. induction l as [| x l IH]; intros a; [reflexivity |].
  rewrite bind_cons, foldl_app. simpl. apply IH.
Qed.

Lemma foldl_ext_in {A B : Type} (f g : A -> B -> A) (l : list B) (a : A) :
  (forall a x, x ∈ l -> f a x = g a x) -> foldl f a l = foldl g a l.
Proof.
  revert a. induction l as [| x l IH]; intros a Hfg; [reflexivity |].
  simpl. rewrite Hfg by left. apply IH. intros a' y Hy. apply Hfg. by right.
Qed.

Lemma for_range_rows {A : Type} (body : Z -> A -> Z -> A) (x0 y0 x1 y1 : Z) (a : A) :
  for_range y0 y1 (fun st cy => for_range x0 x1 (body cy) st) a
  = foldl (fun st c => body c.2 st c.1) a (row_major x0 y0 x1 y1).
Proof.
  unfold for_range, row_major. rewrite foldl_bind.
  apply foldl_ext_in. intros st cy _.
  rewrite foldl_bind. apply foldl_ext_in. intros st' cx _. reflexivity.
Qed.

Lemma for_range_columns {A : Type} (body : Z -> A -> Z -> A) (x0 y0 x1 y1 : Z) (a : A) :
  for_range x0 x1 (fun st x => for_range y0 y1 (body x) st) a
  = foldl (fun st c => body c.1 st c.2) a (column_major x0 y0 x1 y1).
Proof.
  unfold for_range, column_major. rewrite foldl_bind.
  apply foldl_ext_in. intros st x _.
  rewrite foldl_bind. apply foldl_ext_in. intros st' y _. reflexivity.
Qed.

Lemma elem_of_row_major x0 y0 x1 y1 cx cy :
  (cx, cy) ∈ row_major x0 y0 x1 y1 <-> x0 <= cx < x1 /\ y0 <= cy < y1.
Proof.
  unfold row_major. rewrite list_elem_of_bind. split.
  - intros (y & Hin & Hy). apply list_elem_of_bind in Hin as (x & Hin & Hx).
    apply list_elem_of_singleton in Hin. inversion Hin; subst.
    apply elem_of_seqZ in Hx, Hy. lia.
  - intros [Hx Hy]. exists cy. split; [| apply elem_of_seqZ; lia].
    apply list_elem_of_bind. exists cx. split; [by apply list_elem_of_singleton |].
    apply elem_of_seqZ; lia.
Qed.

Lemma elem_of_column_major x0 y0 x1 y1 cx cy :
  (cx, cy) ∈ column_major x0 y0 x1 y1 <-> x0 <= cx < x1 /\ y0 <= cy < y1.
Proof.
  unfold column_major. rewrite list_elem_of_bind. split.
  - intros (x & Hin & Hx). apply list_elem_of_bind in Hin as (y & Hin & Hy).
    apply list_elem_of_singleton in Hin. inversion Hin; subst.
    apply elem_of_seqZ in Hx, Hy. lia.
  - intros [Hx Hy]. exists cx. split; [| apply elem_of_seqZ; lia].
    apply list_elem_of_bind. exists cy. split; [by apply list_elem_of_singleton |].
    apply elem_of_seqZ; lia.
Qed.

Lemma NoDup_bind_pairs {A B C : Type} (l : list A) (g : A -> list B) (mk : A -> B -> C) :
  NoDup l -> (forall a, NoDup (g a)) ->
  (forall a b a' b', mk a b = mk a' b' -> a = a' /\ b = b') ->
  NoDup (a ← l; b ← g a; [mk a b]).
Proof.
  intros Hl Hg Hinj. induction Hl as [| a l Hnotin Hl IH]; [constructor |].
  rewrite bind_cons. apply NoDup_app. split; [| split; [| exact IH]].
  - clear IH Hnotin. specialize (Hg a).
    induction Hg as [| b k Hb Hk IHk]; [constructor |].
    rewrite bind_cons. simpl. constructor; [| exact IHk].
    intros Hin. apply list_elem_of_bind in Hin as (b' & Hin & Hb').
    apply list_elem_of_singleton in Hin. apply Hinj in Hin as [_ ->]. contradiction.
  - intros c Hc Hc'.
    apply list_elem_of_bind in Hc as (b & Hc & _). apply list_elem_of_singleton in Hc.
    apply list_elem_of_bind in Hc' as (a' & Hc' & Ha').
    apply list_elem_of_bind in Hc' as (b' & Hc' & _). apply list_elem_of_singleton in Hc'.
    subst c. apply Hinj in Hc' as [-> _]. contradiction.
Qed.

Lemma NoDup_row_major x0 y0 x1 y1 : NoDup (row_major x0 y0 x1 y1).
Proof.
  unfold row_major.
  apply (NoDup_bind_pairs _ (fun _ => seqZ x0 (x1 - x0)) (fun cy cx => (cx, cy))).
  - apply NoDup_seqZ.
  - intros _. apply NoDup_seqZ.
  - intros a b a' b' Heq. inversion Heq. auto.
Qed.

Lemma NoDup_column_major x0 y0 x1 y1 : NoDup (column_major x0 y0 x1 y1).
Proof.
  unfold column_major.
  apply (NoDup_bind_pairs _ (fun _ => seqZ y0 (y1 - y0)) (fun x y => (x, y))).
  - apply NoDup_seqZ.
  - intros _. apply NoDup_seqZ.
  - intros a b a' b' Heq. inversion Heq. auto.
Qed.

Lemma foldl_opt_preserves {A B : Type} (Q : A -> Prop) (f : A -> B -> option A)
    (l : list B) (a a' : A) :
  (forall a x a', x ∈ l -> Q a -> f a x = Some a' -> Q a') ->
  Q a -> foldl_opt f a l = Some a' -> Q a'.
Proof.
  revert a. induction l as [| x l IH]; intros a Hf Ha; simpl.
  - by intros [= <-].
  - destruct (f a x) as [a1 |] eqn:Hfa; [| discriminate].
    apply IH.
    + intros a2 y a3 Hy. apply Hf. by right.
    + apply (Hf a x a1); [left | exact Ha | exact Hfa].
Qed.

Lemma for_range_incl_preserves {A : Type} (Q : A -> Prop) (maxv lo hi : Z)
    (body : A -> Z -> option A) (a a' : A) :
  (forall a i a', lo <= i <= hi -> Q a -> body a i = Some a' -> Q a') ->
  Q a -> for_range_incl maxv lo hi body a = Some a' -> Q a'.
Proof.
  intros Hbody Ha. unfold for_range_incl. destruct (hi =? maxv); [discriminate |].
  apply foldl_opt_preserves; [| exact Ha].
  intros a1 i a2 Hi. apply Hbody. apply elem_of_seqZ in Hi. lia.
Qed.

(** ** The bucket store and the reverse index *)

Section Index.
Context {T : Type} `{Countable T}.
Implicit Types (cs : gmap Z (list T)) (rev : gmap T (list Z)) (e : T) (k : Z).

Lemma bucket_insert cs k k' b :
  bucket (<[k := b]> cs) k' = if decide (k = k') then b else bucket cs k'.
Proof.
  unfold bucket. case_decide; subst.
  - by rewrite lookup_insert_eq.
  - by rewrite lookup_insert_ne.
Qed.

Lemma bucket_delete cs k k' :
  bucket (delete k cs) k' = if decide (k = k') then [] else bucket cs k'.
Proof.
  unfold bucket. case_decide; subst.
  - by rewrite lookup_delete_eq.
  - by rewrite lookup_delete_ne.
Qed.

Lemma bucket_lookup cs k b : cs !! k = Some b -> bucket cs k = b.
Proof. unfold bucket. by intros ->. Qed.

Lemma bucket_elem_lookup cs k e : e ∈ bucket cs k -> exists b, cs !! k = Some b /\ e ∈ b.
Proof.
  unfold bucket. destruct (cs !! k) as [b |]; simpl; [eauto |].
  intros Hin. by apply not_elem_of_nil in Hin.
Qed.

Lemma without_idemp e b : without e (without e b) = without e b.
Proof.
  unfold without. induction b as [| x b IH]; [reflexivity |].
  rewrite (filter_cons _ x b). case_decide.
  - rewrite filter_cons. case_decide; [by f_equal | done].
  - exact IH.
Qed.

Lemma elem_of_without e x b : x ∈ without e b <-> x ≠ e /\ x ∈ b.
Proof. unfold without. apply (list_elem_of_filter (fun y => y ≠ e)). Qed.

Lemma without_not_in e b : e ∉ b -> without e b = b.
Proof.
  unfold without. induction b as [| x b IH]; intros Hnin; [reflexivity |].
  apply not_elem_of_cons in Hnin as [Hne Hnin].
  rewrite filter_cons. case_decide; [| congruence]. f_equal. by apply IH.
Qed.

Lemma count_zero e (b : list T) :
  length (filter (fun x => x = e) b) = 0%nat <-> e ∉ b.
Proof.
  split.
  - intros Hlen Hin. apply nil_length_inv in Hlen.
    assert (e ∈ filter (fun x => x = e) b) as Hf
      by (by apply (list_elem_of_filter (fun y => y = e))).
    rewrite Hlen in Hf. by apply not_elem_of_nil in Hf.
  - intros Hnin. induction b as [| x b IH]; [reflexivity |].
    apply not_elem_of_cons in Hnin as [Hne Hnin].
    rewrite filter_cons. case_decide; [congruence |]. by apply IH.
Qed.

Lemma occurrences_zero cs k e : occurrences cs k e = 0%nat <-> e ∉ bucket cs k.
Proof. apply count_zero. Qed.

Lemma count_without e e' b :
  e' ≠ e ->
  length (filter (fun x => x = e') (without e b)) = length (filter (fun x => x = e') b).
Proof.
  intros Hne. unfold without. induction b as [| x b IH]; [reflexivity |].
  rewrite !(filter_cons _ x b).
  destruct (decide (x ≠ e)) as [Hx | Hx].
  - rewrite filter_cons. case_decide; simpl; by rewrite IH.
  - apply dec_stable in Hx. subst x. case_decide; [congruence | exact IH].
Qed.

Lemma count_snoc e e' b :
  length (filter (fun x => x = e') (b ++ [e]))
  = (length (filter (fun x => x = e') b) + (if decide (e = e') then 1 else 0))%nat.
Proof.
  rewrite filter_app, length_app. f_equal.
  rewrite filter_cons, filter_nil. by case_decide.
Qed.

(** *** Adding an entry under a list of keys *)

Lemma bucket_add_to_cells e cs keys k :
  NoDup keys ->
  bucket (add_to_cells e cs keys) k
  = if decide (k ∈ keys) then bucket cs k ++ [e] else bucket cs k.
Proof.
  unfold add_to_cells. intros Hnd. revert cs.
  induction Hnd as [| k0 keys Hnotin Hnd IH]; intros cs; cbn [foldl].
  - case_decide as Hin; [by apply not_elem_of_nil in Hin | reflexivity].
  - rewrite IH, !bucket_insert.
    destruct (decide (k0 = k)) as [-> | Hne].
    + rewrite decide_False by assumption. rewrite decide_True by left. reflexivity.
    + destruct (decide (k ∈ keys)) as [Hin | Hnin].
      * rewrite decide_True by (by right). reflexivity.
      * rewrite decide_False; [reflexivity |].
        intros Hc. apply elem_of_cons in Hc as [-> | Hc]; contradiction.
Qed.

Lemma add_to_cells_nonempty e cs keys :
  (forall k b, cs !! k = Some b -> b ≠ []) ->
  forall k b, add_to_cells e cs keys !! k = Some b -> b ≠ [].
Proof.
  unfold add_to_cells. revert cs. induction keys as [| k0 keys IH]; intros cs Hcs; [exact Hcs |].
  simpl. apply IH. intros k b. destruct (decide (k0 = k)) as [-> | Hne].
  - rewrite lookup_insert_eq. intros [= <-]. by destruct (bucket cs k).
  - rewrite lookup_insert_ne by assumption. apply Hcs.
Qed.

(** *** Taking an entry out of the buckets of a list of keys *)

Lemma bucket_drop_from_cell e cs k k' :
  bucket (drop_from_cell e cs k) k'
  = if decide (k = k') then without e (bucket cs k) else bucket cs k'.
Proof.
  unfold drop_from_cell. destruct (without e (bucket cs k)) as [| x b] eqn:Hw.
  - rewrite bucket_delete. by case_decide.
  - rewrite bucket_insert. by case_decide.
Qed.

Lemma bucket_drop_from_cells e cs keys k :
  bucket (drop_from_cells e cs keys) k
  = if decide (k ∈ keys) then without e (bucket cs k) else bucket cs k.
Proof.
  unfold drop_from_cells. revert cs. induction keys as [| k0 keys IH]; intros cs; cbn [foldl].
  - case_decide as Hin; [by apply not_elem_of_nil in Hin | reflexivity].
  - rewrite IH, !bucket_drop_from_cell.
    destruct (decide (k0 = k)) as [-> | Hne].
    + rewrite (decide_True (P := k ∈ k :: keys)) by left.
      case_decide; [apply without_idemp | reflexivity].
    + destruct (decide (k ∈ keys)) as [Hin | Hnin].
      * rewrite decide_True by (by right). reflexivity.
      * rewrite decide_False; [reflexivity |].
        intros Hc. apply elem_of_cons in Hc as [-> | Hc]; contradiction.
Qed.

Lemma drop_from_cell_nonempty e cs k0 :
  (forall k b, cs !! k = Some b -> b ≠ []) ->
  forall k b, drop_from_cell e cs k0 !! k = Some b -> b ≠ [].
Proof.
  intros Hcs k b. unfold drop_from_cell.
  destruct (without e (bucket cs k0)) as [| x b0] eqn:Hw.
  - destruct (decide (k0 = k)) as [-> | Hne].
    + by rewrite lookup_delete_eq.
    + rewrite lookup_delete_ne by assumption. apply Hcs.
  - destruct (decide (k0 = k)) as [-> | Hne].
    + rewrite lookup_insert_eq. by intros [= <-].
    + rewrite lookup_insert_ne by assumption. apply Hcs.
Qed.

Lemma drop_from_cells_nonempty e cs keys :
  (forall k b, cs !! k = Some b -> b ≠ []) ->
  forall k b, drop_from_cells e cs keys !! k = Some b -> b ≠ [].
Proof.
  unfold drop_from_cells. revert cs. induction keys as [| k0 keys IH]; intros cs Hcs; [exact Hcs |].
  simpl. apply IH. by apply drop_from_cell_nonempty.
Qed.

Lemma drop_from_cell_lookup_ne e cs k k' :
  k ≠ k' -> drop_from_cell e cs k !! k' = cs !! k'.
Proof.
  intros Hne. unfold drop_from_cell. destruct (without e (bucket cs k)).
  - by rewrite lookup_delete_ne.
  - by rewrite lookup_insert_ne.
Qed.

Lemma drop_from_cells_lookup_notin e cs keys k :
  k ∉ keys -> drop_from_cells e cs keys !! k = cs !! k.
Proof.
  unfold drop_from_cells. revert cs. induction keys as [| k0 keys IH]; intros cs Hnin; [reflexivity |].
  apply not_elem_of_cons in Hnin as [Hne Hnin]. simpl.
  rewrite IH by assumption. apply drop_from_cell_lookup_ne. congruence.
Qed.

(** With no empty bucket stored, a lookup is determined by [bucket]. *)
Lemma lookup_of_bucket cs k :
  (forall k b, cs !! k = Some b -> b ≠ []) ->
  cs !! k = match bucket cs k with [] => None | b => Some b end.
Proof.
  intros Hcs. unfold bucket. destruct (cs !! k) as [b |] eqn:Hk; simpl; [| reflexivity].
  specialize (Hcs k b Hk). by destruct b.
Qed.

Lemma drop_from_cells_lookup_in e cs keys k :
  (forall k b, cs !! k = Some b -> b ≠ []) ->
  k ∈ keys ->
  drop_from_cells e cs keys !! k
  = match without e (bucket cs k) with [] => None | b => Some b end.
Proof.
  intros Hcs Hin.
  rewrite (lookup_of_bucket (drop_from_cells e cs keys) k)
    by (by apply drop_from_cells_nonempty).
  rewrite bucket_drop_from_cells. by rewrite decide_True.
Qed.

(** *** The invariants are kept *)

Lemma index_inv_empty : index_inv (T := T) ∅ ∅.
Proof.
  split.
  - intros e K HK. by rewrite lookup_empty in HK.
  - intros e K k HK. by rewrite lookup_empty in HK.
  - intros k b Hb. by rewrite lookup_empty in Hb.
  - intros k e Hin. unfold bucket in Hin. rewrite lookup_empty in Hin.
    by apply not_elem_of_nil in Hin.
Qed.

Lemma index_inv_fresh cs rev e k :
  index_inv cs rev -> rev !! e = None -> e ∉ bucket cs k.
Proof.
  intros Hinv Hfresh Hin.
  destruct (inv_indexed _ _ Hinv k e Hin) as (K & HK & _). congruence.
Qed.

Lemma index_inv_member cs rev e K k :
  index_inv cs rev -> rev !! e = Some K -> (e ∈ bucket cs k <-> k ∈ K).
Proof.
  intros Hinv HK. split.
  - intros Hin. destruct (inv_indexed _ _ Hinv k e Hin) as (K' & HK' & Hk). congruence.
  - intros Hk. pose proof (inv_once _ _ Hinv e K k HK Hk) as Hocc.
    destruct (decide (e ∈ bucket cs k)) as [Hin | Hnin]; [exact Hin |].
    apply occurrences_zero in Hnin. lia.
Qed.

Lemma index_inv_add cs rev e keys :
  index_inv cs rev -> rev !! e = None -> NoDup keys ->
  index_inv (add_to_cells e cs keys) (<[e := keys]> rev).
Proof.
  intros Hinv Hfresh Hnd. split.
  - intros e' K. destruct (decide (e = e')) as [<- | Hne].
    + rewrite lookup_insert_eq. by intros [= <-].
    + rewrite lookup_insert_ne by assumption. apply (inv_keys_nodup _ _ Hinv).
  - intros e' K k. unfold occurrences. rewrite bucket_add_to_cells by assumption.
    destruct (decide (e = e')) as [<- | Hne].
    + rewrite lookup_insert_eq. intros [= <-] Hk. rewrite decide_True by assumption.
      rewrite count_snoc, decide_True by reflexivity.
      pose proof (index_inv_fresh cs rev e k Hinv Hfresh) as Hnin.
      apply occurrences_zero in Hnin. unfold occurrences in Hnin. lia.
    + rewrite lookup_insert_ne by assumption. intros HK Hk.
      pose proof (inv_once _ _ Hinv e' K k HK Hk) as Hocc. unfold occurrences in Hocc.
      case_decide; [| exact Hocc].
      rewrite count_snoc, decide_False by assumption. lia.
  - apply add_to_cells_nonempty. apply (inv_nonempty _ _ Hinv).
  - intros k e'. rewrite bucket_add_to_cells by assumption.
    intros Hin.
    assert (e' ∈ bucket cs k \/ (e' = e /\ k ∈ keys)) as [Hold | [-> Hk]].
    { case_decide; [| by left].
      apply elem_of_app in Hin as [Hin | Hin]; [by left |].
      apply list_elem_of_singleton in Hin. by right. }
    + destruct (inv_indexed _ _ Hinv k e' Hold) as (K & HK & Hk).
      exists K. split; [| exact Hk].
      rewrite lookup_insert_ne; [exact HK |]. intros <-. congruence.
    + exists keys. split; [apply lookup_insert_eq | exact Hk].
Qed.

Lemma index_inv_drop cs rev e K :
  index_inv cs rev -> rev !! e = Some K ->
  index_inv (drop_from_cells e cs K) (delete e rev).
Proof.
  intros Hinv HK. split.
  - intros e' K'. destruct (decide (e = e')) as [<- | Hne].
    + by rewrite lookup_delete_eq.
    + rewrite lookup_delete_ne by assumption. apply (inv_keys_nodup _ _ Hinv).
  - intros e' K' k. destruct (decide (e = e')) as [<- | Hne].
    + by rewrite lookup_delete_eq.
    + rewrite lookup_delete_ne by assumption. intros HK' Hk.
      pose proof (inv_once _ _ Hinv e' K' k HK' Hk) as Hocc.
      unfold occurrences in *. rewrite bucket_drop_from_cells.
      case_decide; [| exact Hocc]. rewrite count_without by congruence. exact Hocc.
  - apply drop_from_cells_nonempty. apply (inv_nonempty _ _ Hinv).
  - intros k e'. rewrite bucket_drop_from_cells. intros Hin.
    assert (e' ∈ bucket cs k /\ e' ≠ e) as [Hold Hne].
    { case_decide as Hk.
      - apply elem_of_without in Hin. tauto.
      - split; [exact Hin |]. intros ->.
        apply (index_inv_member cs rev e K k Hinv HK) in Hin. contradiction. }
    destruct (inv_indexed _ _ Hinv k e' Hold) as (K' & HK' & Hk').
    exists K'. split; [| exact Hk']. by rewrite lookup_delete_ne.
Qed.

(** After the removal the entry is in no bucket at all. *)
Lemma drop_from_cells_gone cs rev e K k :
  index_inv cs rev -> rev !! e = Some K -> e ∉ bucket (drop_from_cells e cs K) k.
Proof.
  intros Hinv HK. rewrite bucket_drop_from_cells. case_decide as Hk.
  - intros Hin. apply elem_of_without in Hin. tauto.
  - intros Hin. apply (index_inv_member cs rev e K k Hinv HK) in Hin. contradiction.
Qed.

(** *** Removing the first occurrence *)

Lemma index_of_None (e : T) (b : list T) : index_of e b = None <-> e ∉ b.
Proof.
  induction b as [| x b IH]; simpl.
  - split; [intros _; apply not_elem_of_nil | reflexivity].
  - case_decide as Hx.
    + subst x. split; [discriminate |]. intros Hnin. exfalso. apply Hnin. left.
    + rewrite not_elem_of_cons. destruct (index_of e b); simpl.
      * split; [discriminate |]. intros [_ Hnin]. apply IH in Hnin. discriminate.
      * split; [| reflexivity]. intros _. split; [congruence | by apply IH].
Qed.

Lemma index_of_Some_once (e : T) (b : list T) j :
  index_of e b = Some j ->
  length (filter (fun x => x = e) b) = 1%nat ->
  take j b ++ drop (S j) b = without e b.
Proof.
  revert j. induction b as [| x b IH]; intros j; simpl; [discriminate |].
  unfold without. rewrite !(filter_cons _ x b).
  destruct (decide (x = e)) as [-> | Hx].
  - intros [= <-]. simpl. intros Hlen.
    rewrite decide_False by (intros Hc; by apply Hc).
    assert (e ∉ b) as Hnin by (apply count_zero; lia).
    rewrite drop_0. symmetry. by apply without_not_in.
  - destruct (index_of e b) as [j' |] eqn:Hidx; simpl; [| discriminate].
    intros [= <-] Hlen. rewrite decide_True by assumption. simpl.
    f_equal. by apply IH.
Qed.

Lemma remove_first_drop e cs k :
  (forall k b, cs !! k = Some b -> b ≠ []) ->
  (occurrences cs k e <= 1)%nat ->
  remove_first e cs k = drop_from_cell e cs k.
Proof.
  intros Hne Hocc. unfold remove_first, drop_from_cell.
  destruct (index_of e (bucket cs k)) as [j |] eqn:Hidx.
  - assert (occurrences cs k e = 1%nat) as Hone.
    { destruct (occurrences cs k e) as [| n] eqn:Hz; [| lia].
      apply occurrences_zero in Hz. apply index_of_None in Hz. congruence. }
    rewrite (index_of_Some_once e _ j Hidx Hone).
    destruct (without e (bucket cs k)); reflexivity.
  - apply index_of_None in Hidx. rewrite without_not_in by assumption.
    unfold bucket. destruct (cs !! k) as [b |] eqn:Hk; simpl.
    + pose proof (Hne k b Hk). destruct b; [done |].
      symmetry. by apply insert_id.
    + symmetry. by apply delete_id.
Qed.

End Index.

(** ** [src/hash/grid.go]: the mutations in terms of the index *)

Section HashIndex.
Context {T : Type} `{Countable T} `{Inhabited T} {P : FloatToInt}.
Implicit Types (g : Hash.Grid T) (item e : T).

(** *** The compaction loop *)

Lemma compact_loop_spec item (orig : list T) :
  forall n i j buf,
    length buf = length orig ->
    (i + n)%nat = length orig ->
    (j <= i)%nat ->
    take j buf = without item (take i orig) ->
    drop i buf = drop i orig ->
    forall buf' j',
      Hash.compact_loop item n i j buf = (buf', j') ->
      take j' buf' = without item orig /\ (j' <= length buf')%nat.
Proof.
  induction n as [| n IH]; intros i j buf Hlen Hin Hji Htake Hdrop buf' j'; simpl.
  - intros [= <- <-]. split; [| lia].
    rewrite Htake. f_equal. apply take_ge. lia.
  - assert (exists it, orig !! i = Some it) as [it Hit]
      by (apply lookup_lt_is_Some; lia).
    assert (buf !! i = Some it) as Hbuf.
    { pose proof (f_equal (fun l => l !! 0%nat) Hdrop) as Hd. cbv beta in Hd.
      rewrite !lookup_drop, !Nat.add_0_r in Hd. congruence. }
    rewrite Hbuf.
    assert (take (S i) orig = take i orig ++ [it]) as Hsnoc by (by apply take_S_r).
    assert (drop (S i) buf = drop (S i) orig) as Hdrop'.
    { replace (S i) with (i + 1)%nat by lia. rewrite <- !drop_drop. by rewrite Hdrop. }
    destruct (decide (it = item)) as [-> | Hne].
    + apply IH; try lia; try assumption.
      rewrite Hsnoc. unfold without. rewrite filter_app, filter_cons, filter_nil.
      rewrite decide_False by (intros Hc; by apply Hc).
      rewrite app_nil_r. exact Htake.
    + apply IH; try lia.
      * by rewrite length_insert.
      * rewrite (take_S_r _ _ it).
        -- rewrite take_insert_ge by lia. rewrite Htake, Hsnoc.
           unfold without. rewrite filter_app, filter_cons, filter_nil.
           by rewrite decide_True.
        -- apply list_lookup_insert_eq. lia.
      * rewrite drop_insert_lt by lia. exact Hdrop'.
Qed.

Lemma compact_spec item (b buf : list T) j :
  Hash.compact item b = (buf, j) ->
  take j buf = without item b /\ (j <= length buf)%nat.
Proof.
  unfold Hash.compact. apply (compact_loop_spec item b); try reflexivity; try lia.
Qed.

Lemma remove_from_cell_drop item cs key :
  Hash.remove_from_cell item cs key = drop_from_cell item cs key.
Proof.
  unfold Hash.remove_from_cell, drop_from_cell.
  destruct (Hash.compact item (bucket cs key)) as [buf j] eqn:Hc.
  apply compact_spec in Hc as [Htake Hj]. rewrite <- Htake.
  destruct j as [| j]; simpl; [reflexivity |].
  destruct buf as [| x buf]; simpl in *; [lia | reflexivity].
Qed.

Lemma Remove_cells g item K :
  Hash.Contains g item = true -> Hash.itemCells g !! item = Some K ->
  Hash.cells (Hash.Remove g item) = drop_from_cells item (Hash.cells g) K.
Proof.
  intros Hc HK. unfold Hash.Remove. rewrite Hc, HK. simpl.
  unfold drop_from_cells. apply foldl_ext_in. intros cs k _.
  apply remove_from_cell_drop.
Qed.

(** *** The insertion loop *)

Lemma insert_loop g item fn (L : list (Z * Z)) cs acc :
  foldl (fun st c => Hash.insert_cell g item fn c.2 st c.1) (cs, acc) L
  = (add_to_cells item cs (encode_cell <$> filter (fun c => accepts g fn c = true) L),
     acc ++ (encode_cell <$> filter (fun c => accepts g fn c = true) L)).
Proof.
  revert cs acc. induction L as [| c L IH]; intros cs acc.
  - simpl. by rewrite app_nil_r.
  - cbn [foldl]. rewrite filter_cons.
    assert (Hash.insert_cell g item fn c.2 (cs, acc) c.1
            = if accepts g fn c
              then (<[encode_cell c := bucket cs (encode_cell c) ++ [item]]> cs,
                    acc ++ [encode_cell c])
              else (cs, acc)) as ->.
    { unfold Hash.insert_cell, accepts, encode_cell. destruct fn; reflexivity. }
    destruct (accepts g fn c) eqn:Hacc.
    + rewrite decide_True by reflexivity. rewrite IH, fmap_cons.
      rewrite <- app_assoc. reflexivity.
    + rewrite decide_False by discriminate. apply IH.
Qed.

Lemma insert_unfold g item minX minY maxX maxY padding fn :
  Hash.Contains g item = false ->
  Hash.insert g item minX minY maxX maxY padding fn
  = (true,
     {| Hash.gen := Hash.gen g;
        Hash.cellWidth := Hash.cellWidth g;
        Hash.cellHeight := Hash.cellHeight g;
        Hash.cells :=
          add_to_cells item (Hash.cells g) (insert_keys g minX minY maxX maxY padding fn);
        Hash.items := <[item := 0]> (Hash.items g);
        Hash.itemCells :=
          <[item := insert_keys g minX minY maxX maxY padding fn]> (Hash.itemCells g);
        Hash.qBuf := Hash.qBuf g |}).
Proof.
  intros Hc. unfold Hash.insert, insert_keys, insert_range. rewrite Hc.
  destruct (Hash.cellRange g minX minY maxX maxY) as [[[x0 y0] x1] y1].
  destruct (padding =? Hash.GridCellPadding);
    rewrite for_range_rows, insert_loop; reflexivity.
Qed.

(** *** Cell coordinates stay representable *)

Lemma int32_of_in_range x r : Int.in_int32 (F32.int32_of x r).
Proof.
  unfold F32.int32_of. destruct r as [z |]; [| apply to_int32_in_range].
  destruct (Int.in_int32b z) eqn:Hz; [by apply in_int32b_spec | apply to_int32_in_range].
Qed.

Lemma cellRange_in_range g minX minY maxX maxY x0 y0 x1 y1 :
  Hash.cellRange g minX minY maxX maxY = (x0, y0, x1, y1) ->
  Int.in_int32 x0 /\ Int.in_int32 y0 /\ Int.in_int32 x1 /\ Int.in_int32 y1.
Proof.
  unfold Hash.cellRange. intros [= <- <- <- <-].
  repeat split; apply int32_of_in_range.
Qed.

Lemma insert_range_in_range g minX minY maxX maxY padding x0 y0 x1 y1 :
  insert_range g minX minY maxX maxY padding = (x0, y0, x1, y1) ->
  Int.in_int32 x0 /\ Int.in_int32 y0 /\ Int.in_int32 x1 /\ Int.in_int32 y1.
Proof.
  unfold insert_range.
  destruct (Hash.cellRange g minX minY maxX maxY) as [[[a b] c] d] eqn:Hr.
  apply cellRange_in_range in Hr. destruct (padding =? Hash.GridCellPadding).
  - intros [= <- <- <- <-]. unfold Int.add32, Int.sub32.
    repeat split; apply to_int32_in_range.
  - intros [= <- <- <- <-]. exact Hr.
Qed.

Lemma NoDup_encode_cells (L : list (Z * Z)) :
  NoDup L -> (forall c, c ∈ L -> Int.in_int32 c.1 /\ Int.in_int32 c.2) ->
  NoDup (encode_cell <$> L).
Proof.
  intros Hnd Hrange. apply NoDup_fmap_2_strong; [| exact Hnd].
  intros [a b] [c d] Hab Hcd Heq.
  destruct (Hrange _ Hab) as [Ha Hb]. destruct (Hrange _ Hcd) as [Hc Hd].
  unfold encode_cell in Heq. simpl in *.
  apply Hash_Encode_inj in Heq as [-> ->]; auto.
Qed.

Lemma row_major_in_range x0 y0 x1 y1 c :
  Int.in_int32 x0 -> Int.in_int32 y0 -> Int.in_int32 x1 -> Int.in_int32 y1 ->
  c ∈ row_major x0 y0 x1 y1 -> Int.in_int32 c.1 /\ Int.in_int32 c.2.
Proof.
  unfold Int.in_int32. intros Hx0 Hy0 Hx1 Hy1 Hc. destruct c as [cx cy].
  apply elem_of_row_major in Hc. simpl. lia.
Qed.

Lemma NoDup_insert_keys g minX minY maxX maxY padding fn :
  NoDup (insert_keys g minX minY maxX maxY padding fn).
Proof.
  unfold insert_keys.
  destruct (insert_range g minX minY maxX maxY padding) as [[[x0 y0] x1] y1] eqn:Hr.
  apply insert_range_in_range in Hr as (Hx0 & Hy0 & Hx1 & Hy1).
  apply NoDup_encode_cells.
  - apply NoDup_filter, NoDup_row_major.
  - intros c Hc. apply list_elem_of_filter in Hc as [_ Hc].
    by apply (row_major_in_range x0 y0 x1 y1).
Qed.

(** *** The query loop *)

Lemma foldl_preserves {A B : Type} (Q : A -> Prop) (f : A -> B -> A) (l : list B) (a : A) :
  (forall a x, x ∈ l -> Q a -> Q (f a x)) -> Q a -> Q (foldl f a l).
Proof.
  revert a. induction l as [| x l IH]; intros a Hf Ha; [exact Ha |].
  simpl. apply IH.
  - intros a' y Hy. apply Hf. by right.
  - apply Hf; [left | exact Ha].
Qed.

Lemma Query_unfold g minX minY maxX maxY :
  Hash.Query g minX minY maxX maxY
  = ((query_state g minX minY maxX maxY).2,
     {| Hash.gen := Int.to_uint64 (Hash.gen g + 1);
        Hash.cellWidth := Hash.cellWidth g;
        Hash.cellHeight := Hash.cellHeight g;
        Hash.cells := Hash.cells g;
        Hash.items := (query_state g minX minY maxX maxY).1;
        Hash.itemCells := Hash.itemCells g;
        Hash.qBuf := (query_state g minX minY maxX maxY).2 |}).
Proof.
  unfold Hash.Query, query_state.
  destruct (Hash.cellRange g minX minY maxX maxY) as [[[x0 y0] x1] y1].
  rewrite for_range_rows.
  destruct (foldl _ _ _) as [its buf]. reflexivity.
Qed.

Lemma visit_domain gen' (st : gmap T Z * list T) e item :
  is_Some (st.1 !! item) ->
  (is_Some ((Hash.visit gen' st item).1 !! e) <-> is_Some (st.1 !! e)).
Proof.
  intros Hitem. unfold Hash.visit. case_decide; [reflexivity |]. simpl.
  destruct (decide (item = e)) as [<- | Hne].
  - rewrite lookup_insert_eq. split; [by intros _ | by eauto].
  - by rewrite lookup_insert_ne.
Qed.

Lemma query_state_domain g minX minY maxX maxY :
  hash_inv g ->
  forall e, is_Some ((query_state g minX minY maxX maxY).1 !! e)
            <-> is_Some (Hash.items g !! e).
Proof.
  intros Hinv. unfold query_state.
  destruct (Hash.cellRange g minX minY maxX maxY) as [[[x0 y0] x1] y1].
  apply (foldl_preserves
           (fun st => forall e, is_Some (st.1 !! e) <-> is_Some (Hash.items g !! e)));
    [| reflexivity].
  intros st c _ Hst. unfold Hash.query_cell.
  destruct (Hash.cells g !! Hash.EncodeGridKey c.1 c.2) as [its |] eqn:Hk; [| exact Hst].
  apply (foldl_preserves
           (fun st => forall e, is_Some (st.1 !! e) <-> is_Some (Hash.items g !! e)));
    [| exact Hst].
  intros st' item Hitem Hst' e. rewrite <- Hst'. apply visit_domain.
  apply Hst'. apply (hash_items _ Hinv).
  destruct (inv_indexed _ _ (hash_index _ Hinv) (Hash.EncodeGridKey c.1 c.2) item)
    as (K & HK & _); [| by eauto].
  by rewrite (bucket_lookup _ _ _ Hk).
Qed.

(** *** Every operation keeps the invariants *)

Lemma Contains_spec g item : Hash.Contains g item = true <-> is_Some (Hash.items g !! item).
Proof. unfold Hash.Contains. apply bool_decide_eq_true. Qed.

Lemma Contains_false g item : Hash.Contains g item = false <-> Hash.items g !! item = None.
Proof.
  rewrite <- not_true_iff_false, Contains_spec. rewrite <- eq_None_not_Some. reflexivity.
Qed.

Lemma Contains_itemCells g item :
  hash_inv g -> (Hash.Contains g item = true <-> is_Some (Hash.itemCells g !! item)).
Proof. intros Hinv. rewrite Contains_spec. apply (hash_items _ Hinv). Qed.

Lemma hash_inv_insert g item minX minY maxX maxY padding fn :
  hash_inv g -> hash_inv (Hash.insert g item minX minY maxX maxY padding fn).2.
Proof.
  intros Hinv. destruct (Hash.Contains g item) eqn:Hc.
  - unfold Hash.insert. by rewrite Hc.
  - rewrite insert_unfold by assumption. simpl.
    assert (Hash.itemCells g !! item = None) as Hfresh.
    { apply eq_None_not_Some. rewrite <- (Contains_itemCells g item Hinv). congruence. }
    split; simpl.
    + apply index_inv_add; [apply (hash_index _ Hinv) | exact Hfresh |].
      apply NoDup_insert_keys.
    + intros e. destruct (decide (item = e)) as [<- | Hne].
      * rewrite !lookup_insert_eq. split; eauto.
      * rewrite !lookup_insert_ne by assumption. apply (hash_items _ Hinv).
Qed.

Lemma hash_inv_Remove g item : hash_inv g -> hash_inv (Hash.Remove g item).
Proof.
  intros Hinv. destruct (Hash.Contains g item) eqn:Hc.
  - pose proof Hc as Hc'. apply (Contains_itemCells g item Hinv) in Hc' as [K HK].
    split.
    + rewrite (Remove_cells g item K Hc HK).
      unfold Hash.Remove. rewrite Hc. simpl.
      apply index_inv_drop; [apply (hash_index _ Hinv) | exact HK].
    + unfold Hash.Remove. rewrite Hc. simpl. intros e.
      destruct (decide (item = e)) as [<- | Hne].
      * rewrite !lookup_delete_eq. split; intros [? ?]; discriminate.
      * rewrite !lookup_delete_ne by assumption. apply (hash_items _ Hinv).
  - unfold Hash.Remove. by rewrite Hc.
Qed.

Lemma hash_inv_Query g minX minY maxX maxY :
  hash_inv g -> hash_inv (Hash.Query g minX minY maxX maxY).2.
Proof.
  intros Hinv. rewrite Query_unfold. split; simpl.
  - apply (hash_index _ Hinv).
  - intros e. rewrite (query_state_domain g minX minY maxX maxY Hinv).
    apply (hash_items _ Hinv).
Qed.

Lemma empty_domains (e : T) :
  is_Some ((∅ : gmap T Z) !! e) <-> is_Some ((∅ : gmap T (list Z)) !! e).
Proof. rewrite !lookup_empty. split; intros [? ?]; discriminate. Qed.

Lemma hash_inv_Clear g : hash_inv (Hash.Clear g).
Proof. split; simpl; [apply index_inv_empty | apply empty_domains]. Qed.

Lemma hash_inv_Resize g cw ch : hash_inv g -> hash_inv (Hash.Resize g cw ch).
Proof.
  intros Hinv. unfold Hash.Resize.
  destruct (F32.eqb (Hash.cellWidth g) cw && F32.eqb (Hash.cellHeight g) ch); [exact Hinv |].
  split; simpl; [apply index_inv_empty | apply empty_domains].
Qed.

Lemma hash_inv_NewGrid cw ch g0 : Hash.NewGrid cw ch = Returned g0 -> hash_inv g0.
Proof.
  unfold Hash.NewGrid. intros [= <-].
  split; simpl; [apply index_inv_empty | apply empty_domains].
Qed.

Lemma hash_inv_step g o : hash_inv g -> hash_inv (hash_step g o).
Proof.
  intros Hinv. destruct o; simpl.
  - by apply hash_inv_insert.
  - by apply hash_inv_insert.
  - by apply hash_inv_Remove.
  - by apply hash_inv_Query.
  - apply hash_inv_Clear.
  - by apply hash_inv_Resize.
Qed.

Lemma hash_inv_run g ops : hash_inv g -> hash_inv (hash_run g ops).
Proof.
  unfold hash_run. revert g. induction ops as [| o ops IH]; intros g Hinv; [exact Hinv |].
  simpl. apply IH. by apply hash_inv_step.
Qed.

Lemma hash_reachable_inv cw ch g0 ops :
  Hash.NewGrid cw ch = Returned g0 -> hash_inv (hash_run g0 ops).
Proof. intros Hnew. apply hash_inv_run. by apply (hash_inv_NewGrid cw ch). Qed.

End HashIndex.

(** ** [src/unnamed/part_000]: the mutations in terms of the index *)

Section RevIndex.
Context {T : Type} `{Countable T} {P : FloatToInt}.
Implicit Types (g : HashGridRev.Grid T) (entry e : T).

Lemma get_key_loop g check (L : list (Z * Z)) (acc : list Z) :
  foldl (fun st c => get_key g check c.1 st c.2) acc L
  = acc ++ (encode_cell <$> filter (fun c => rev_accepts g check c = true) L).
Proof.
  revert acc. induction L as [| c L IH]; intros acc.
  - simpl. by rewrite app_nil_r.
  - cbn [foldl]. rewrite filter_cons. unfold get_key at 2, rev_accepts at 1.
    destruct check as [f |]; simpl.
    + destruct (f _ _ _ _); simpl.
      * rewrite IH. rewrite <- app_assoc. reflexivity.
      * apply IH.
    + rewrite IH. rewrite <- app_assoc. reflexivity.
Qed.

Lemma getKeysInternal_keys (E : GridEntry T) g entry check :
  (HashGridRev.getKeysInternal g entry check).1
  = let '(sX, sY, eX, eY) :=
      HashGridRev.computeCellRange (Min entry).1 (Min entry).2 (Max entry).1 (Max entry).2
        (HashGridRev.cellSize g) in
    encode_cell <$> filter (fun c => rev_accepts g check c = true) (column_major sX sY eX eY).
Proof.
  unfold HashGridRev.getKeysInternal.
  destruct (Min entry) as [minX minY]. destruct (Max entry) as [maxX maxY]. simpl.
  destruct (HashGridRev.computeCellRange minX minY maxX maxY (HashGridRev.cellSize g))
    as [[[sX sY] eX] eY]. simpl.
  rewrite (for_range_columns (get_key g check)), get_key_loop. reflexivity.
Qed.

Lemma computeCellRange_in_range minX minY maxX maxY cs x0 y0 x1 y1 :
  HashGridRev.computeCellRange minX minY maxX maxY cs = (x0, y0, x1, y1) ->
  Int.in_int32 x0 /\ Int.in_int32 y0 /\ Int.in_int32 x1 /\ Int.in_int32 y1.
Proof.
  unfold HashGridRev.computeCellRange. intros [= <- <- <- <-].
  repeat split; apply int32_of_in_range.
Qed.

Lemma NoDup_getKeysInternal (E : GridEntry T) g entry check :
  NoDup (HashGridRev.getKeysInternal g entry check).1.
Proof.
  rewrite getKeysInternal_keys.
  destruct (HashGridRev.computeCellRange _ _ _ _ _) as [[[sX sY] eX] eY] eqn:Hr.
  apply computeCellRange_in_range in Hr as (Hx0 & Hy0 & Hx1 & Hy1).
  apply NoDup_encode_cells.
  - apply NoDup_filter, NoDup_column_major.
  - intros [cx cy] Hc. apply list_elem_of_filter in Hc as [_ Hc].
    apply elem_of_column_major in Hc. unfold Int.in_int32 in *. simpl. lia.
Qed.

Lemma getKeysInternal_grid (E : GridEntry T) g entry check :
  HashGridRev.cells (HashGridRev.getKeysInternal g entry check).2 = HashGridRev.cells g /\
  HashGridRev.cellKeys (HashGridRev.getKeysInternal g entry check).2 = HashGridRev.cellKeys g.
Proof.
  unfold HashGridRev.getKeysInternal.
  destruct (Min entry), (Max entry).
  destruct (HashGridRev.computeCellRange _ _ _ _ _) as [[[sX sY] eX] eY]. by simpl.
Qed.

Lemma InsertStrictCheck_unfold (E : GridEntry T) g entry check :
  HashGridRev.cellKeys g !! entry = None ->
  let keys := (HashGridRev.getKeysInternal g entry check).1 in
  let g' := (HashGridRev.InsertStrictCheck g entry check).2 in
  (HashGridRev.InsertStrictCheck g entry check).1 = true /\
  HashGridRev.cells g' = add_to_cells entry (HashGridRev.cells g) keys /\
  HashGridRev.cellKeys g' = <[entry := keys]> (HashGridRev.cellKeys g).
Proof.
  intros Hfresh. unfold HashGridRev.InsertStrictCheck, HashGridRev.GetKeys.
  rewrite bool_decide_eq_false_2 by (rewrite Hfresh; by intros [? ?]).
  pose proof (getKeysInternal_grid E g entry check) as [Hcells Hkeys].
  destruct (HashGridRev.getKeysInternal g entry check) as [keys g1]. simpl in *.
  rewrite Hcells, Hkeys. done.
Qed.

Lemma remove_key_first entry (cs : gmap Z (list T)) key :
  HashGridRev.remove_key entry cs key = remove_first entry cs key.
Proof. reflexivity. Qed.

Lemma remove_first_fold e (cs : gmap Z (list T)) keys :
  (forall k b, cs !! k = Some b -> b ≠ []) ->
  (forall k, k ∈ keys -> (occurrences cs k e <= 1)%nat) ->
  foldl (remove_first e) cs keys = drop_from_cells e cs keys.
Proof.
  unfold drop_from_cells. revert cs.
  induction keys as [| k0 keys IH]; intros cs Hne Hocc; [reflexivity |].
  cbn [foldl]. rewrite remove_first_drop; [| exact Hne | apply Hocc; left].
  apply IH.
  - by apply drop_from_cell_nonempty.
  - intros k Hk. unfold occurrences. rewrite bucket_drop_from_cell.
    case_decide.
    + replace (length _) with 0%nat; [lia |]. symmetry. apply count_zero.
      intros Hin. apply elem_of_without in Hin. tauto.
    + apply Hocc. by right.
Qed.

Lemma rev_Remove_cells g entry K :
  rev_inv g -> HashGridRev.cellKeys g !! entry = Some K ->
  HashGridRev.cells (HashGridRev.Remove g entry)
  = drop_from_cells entry (HashGridRev.cells g) K /\
  HashGridRev.cellKeys (HashGridRev.Remove g entry) = delete entry (HashGridRev.cellKeys g).
Proof.
  intros Hinv HK. unfold HashGridRev.Remove. rewrite HK. simpl. split; [| reflexivity].
  apply remove_first_fold.
  - apply (inv_nonempty _ _ Hinv).
  - intros k Hk. rewrite (inv_once _ _ Hinv entry K k HK Hk). lia.
Qed.

Lemma rev_inv_step g o : rev_inv g -> rev_inv (rev_step g o).
Proof.
  intros Hinv. unfold rev_inv.
  assert (forall E entry check,
             index_inv (HashGridRev.cells (HashGridRev.InsertStrictCheck (E := E) g entry check).2)
               (HashGridRev.cellKeys (HashGridRev.InsertStrictCheck (E := E) g entry check).2))
    as Hins.
  { intros E entry check.
    destruct (HashGridRev.cellKeys g !! entry) as [K |] eqn:HK.
    - unfold HashGridRev.InsertStrictCheck.
      rewrite bool_decide_eq_true_2 by (rewrite HK; eauto). exact Hinv.
    - destruct (InsertStrictCheck_unfold E g entry check HK) as (_ & -> & ->).
      apply index_inv_add; [exact Hinv | exact HK | apply NoDup_getKeysInternal]. }
  destruct o; simpl.
  - apply Hins.
  - apply Hins.
  - destruct (HashGridRev.cellKeys g !! entry) as [K |] eqn:HK.
    + destruct (rev_Remove_cells g entry K Hinv HK) as [-> ->].
      by apply index_inv_drop.
    + unfold HashGridRev.Remove. rewrite HK. exact Hinv.
  - exact Hinv.
  - exact Hinv.
  - exact Hinv.
  - exact Hinv.
  - unfold HashGridRev.GetKeys.
    destruct (getKeysInternal_grid E g entry check) as [-> ->]. exact Hinv.
  - apply index_inv_empty.
Qed.

Lemma rev_inv_run g ops : rev_inv g -> rev_inv (rev_run g ops).
Proof.
  unfold rev_run. revert g. induction ops as [| o ops IH]; intros g Hinv; [exact Hinv |].
  simpl. apply IH. by apply rev_inv_step.
Qed.

Lemma rev_reachable_inv cellSize g0 ops :
  HashGridRev.New cellSize = Returned g0 -> rev_inv (rev_run g0 ops).
Proof.
  intros Hnew. apply rev_inv_run. unfold HashGridRev.New in Hnew.
  destruct (F32.leb cellSize F32.zero); [discriminate |].
  injection Hnew as <-. apply index_inv_empty.
Qed.

End RevIndex.

(** ** Invariants and removal on reachable grids *)

Section Reachable.
Context {T : Type} `{Countable T} `{Inhabited T} {P : FloatToInt}.

Lemma hash_inv_grid_invariants (g : Hash.Grid T) : hash_inv g -> grid_invariants g.
Proof.
  intros Hinv. pose proof (hash_index _ Hinv) as Hidx.
  split; [| split; [| split; [| split]]].
  - apply (inv_once _ _ Hidx).
  - apply (inv_nonempty _ _ Hidx).
  - intros e. apply Contains_itemCells, Hinv.
  - intros e k Hin.
    destruct (inv_indexed _ _ Hidx k e) as (K & HK & _); [assumption | eauto].
  - intros e K HK. split.
    + intros [k Hk] ->. apply (index_inv_member _ _ e [] k Hidx) in Hk; [| assumption].
      by apply not_elem_of_nil in Hk.
    + intros Hne. destruct K as [| k K]; [done |]. exists k.
      apply (index_inv_member _ _ e (k :: K) k Hidx); [assumption | left].
Qed.

Lemma insert_keys_reject_all (g : Hash.Grid T) minX minY maxX maxY padding :
  insert_keys g minX minY maxX maxY padding (Some reject_all) = [].
Proof.
  unfold insert_keys.
  destruct (insert_range g minX minY maxX maxY padding) as [[[x0 y0] x1] y1].
  induction (row_major x0 y0 x1 y1) as [| c L IH]; [reflexivity |].
  rewrite filter_cons. rewrite decide_False by (simpl; discriminate). exact IH.
Qed.

(** C2 (as amended): after every sequence of public operations on a new
    grid, every indexed entry occurs exactly once in the bucket of each of
    its keys, no bucket is empty, every entry of a bucket is indexed, and
    an indexed entry is in some bucket exactly when its key list is not
    empty; inserting an absent entry under a predicate that rejects every
    cell records it with the empty key list and touches no bucket. *)
Theorem hash_invariants_after_every_operation
    (cw ch : float32) (g0 : Hash.Grid T) (ops : list hash_op) :
  Hash.NewGrid cw ch = Returned g0 ->
  let g := hash_run g0 ops in
  grid_invariants g /\
  (forall item minX minY maxX maxY padding,
      Hash.Contains g item = false ->
      let g' := (Hash.InsertFunc g item minX minY maxX maxY padding (Some reject_all)).2 in
      Hash.itemCells g' !! item = Some [] /\
      Hash.Contains g' item = true /\
      Hash.cells g' = Hash.cells g /\
      grid_invariants g').
Proof.
  intros Hnew g.
  assert (hash_inv g) as Hinv by (by apply (hash_reachable_inv cw ch)).
  split; [by apply hash_inv_grid_invariants |].
  intros item minX minY maxX maxY padding Hc g'.
  assert (hash_inv g') as Hinv' by (by apply hash_inv_insert).
  subst g'. unfold Hash.InsertFunc in *. rewrite insert_unfold in * by assumption.
  rewrite insert_keys_reject_all in *. simpl.
  split; [| split; [| split]].
  - apply lookup_insert_eq.
  - apply Contains_spec. simpl. rewrite lookup_insert_eq. eauto.
  - reflexivity.
  - by apply hash_inv_grid_invariants.
Qed.

Lemma Cells_spec (g : Hash.Grid T) k : k ∈ Hash.Cells g <-> is_Some (Hash.cells g !! k).
Proof.
  unfold Hash.Cells. rewrite list_elem_of_fmap. split.
  - intros ([k' b] & -> & Hin). apply elem_of_map_to_list in Hin. simpl. eauto.
  - intros [b Hb]. exists (k, b). split; [reflexivity | by apply elem_of_map_to_list].
Qed.

Lemma only_entry_without (e : T) (b : list T) :
  (forall x, x ∈ b -> x = e) -> without e b = [].
Proof.
  intros Hall. destruct (without e b) as [| x l] eqn:Hw; [reflexivity |].
  assert (x ∈ without e b) as Hx by (rewrite Hw; left).
  apply elem_of_without in Hx as [Hne Hx]. apply Hall in Hx. contradiction.
Qed.

(** What [Remove] does to the buckets of an indexed item. *)
Lemma hash_Remove_buckets (g : Hash.Grid T) e K :
  hash_inv g -> Hash.itemCells g !! e = Some K ->
  Hash.cells (Hash.Remove g e) = drop_from_cells e (Hash.cells g) K.
Proof.
  intros Hinv HK. apply Remove_cells; [| exact HK].
  apply (Contains_itemCells g e Hinv). eauto.
Qed.

(** C3: on every grid reached from a new one, removing a present entry
    leaves [Contains] false for it, leaves it in no bucket, and deletes
    every bucket that held nothing but that entry from the occupied keys;
    in [src/hash/grid.go] and in [src/unnamed/part_000]. *)
Theorem remove_is_complete :
  (forall (cw ch : float32) (g0 : Hash.Grid T) (ops : list hash_op) (e : T),
      Hash.NewGrid cw ch = Returned g0 ->
      let g := hash_run g0 ops in
      Hash.Contains g e = true ->
      Hash.Contains (Hash.Remove g e) e = false /\
      (forall k, e ∉ bucket (Hash.cells (Hash.Remove g e)) k) /\
      (forall k b, Hash.cells g !! k = Some b -> (forall x, x ∈ b -> x = e) ->
                   k ∉ Hash.Cells (Hash.Remove g e))) /\
  (forall (cellSize : float32) (g0 : HashGridRev.Grid T) (ops : list rev_op) (e : T),
      HashGridRev.New cellSize = Returned g0 ->
      let g := rev_run g0 ops in
      is_Some (HashGridRev.cellKeys g !! e) ->
      HashGridRev.cellKeys (HashGridRev.Remove g e) !! e = None /\
      (forall k, e ∉ bucket (HashGridRev.cells (HashGridRev.Remove g e)) k) /\
      (forall k b, HashGridRev.cells g !! k = Some b -> (forall x, x ∈ b -> x = e) ->
                   HashGridRev.cells (HashGridRev.Remove g e) !! k = None)).
Proof.
  split.
  - intros cw ch g0 ops e Hnew g Hc.
    assert (hash_inv g) as Hinv by (by apply (hash_reachable_inv cw ch)).
    pose proof Hc as HK. apply (Contains_itemCells g e Hinv) in HK as [K HK].
    pose proof (hash_index _ Hinv) as Hidx.
    rewrite (hash_Remove_buckets g e K Hinv HK). repeat split.
    + apply Contains_false. unfold Hash.Remove. rewrite Hc. simpl. apply lookup_delete_eq.
    + intros k. by apply (drop_from_cells_gone _ (Hash.itemCells g)).
    + intros k b Hb Hall. rewrite Cells_spec.
      assert (k ∈ K) as Hk.
      { pose proof (inv_nonempty _ _ Hidx k b Hb) as Hne.
        destruct b as [| x b]; [done |].
        apply (index_inv_member _ _ e K k Hidx HK).
        rewrite (bucket_lookup _ _ _ Hb). rewrite <- (Hall x) by left. left. }
      assert (drop_from_cells e (Hash.cells g) K !! k = None) as Hgone.
      { rewrite drop_from_cells_lookup_in; [| apply (inv_nonempty _ _ Hidx) | exact Hk].
        rewrite (bucket_lookup _ _ _ Hb), only_entry_without by assumption. reflexivity. }
      remember (Hash.Remove g e) as g' eqn:Hg'.
      assert (Hash.cells g' = drop_from_cells e (Hash.cells g) K) as ->
        by (subst g'; by apply hash_Remove_buckets).
      rewrite Hgone. by intros [? ?].
  - intros cellSize g0 ops e Hnew g [K HK].
    assert (rev_inv g) as Hinv by (by apply (rev_reachable_inv cellSize)).
    destruct (rev_Remove_cells g e K Hinv HK) as [-> ->]. repeat split.
    + apply lookup_delete_eq.
    + intros k. by apply (drop_from_cells_gone _ (HashGridRev.cellKeys g)).
    + intros k b Hb Hall.
      assert (k ∈ K) as Hk.
      { pose proof (inv_nonempty _ _ Hinv k b Hb) as Hne.
        destruct b as [| x b]; [done |].
        apply (index_inv_member _ _ e K k Hinv HK).
        rewrite (bucket_lookup _ _ _ Hb). rewrite <- (Hall x) by left. left. }
      rewrite drop_from_cells_lookup_in; [| apply (inv_nonempty _ _ Hinv) | exact Hk].
      rewrite (bucket_lookup _ _ _ Hb), only_entry_without by assumption. reflexivity.
Qed.

End Reachable.

(** ** Removal follows the recorded keys *)

Section RecordedKeys.
Context {T : Type} `{Countable T} `{Inhabited T} {P : FloatToInt}.

Lemma recorded_keys_stable (g : Hash.Grid T) (o : hash_op) (e : T) (K : list Z) :
  hash_inv g -> Hash.itemCells g !! e = Some K ->
  Hash.itemCells (hash_step g o) !! e = Some K \/ Hash.itemCells (hash_step g o) !! e = None.
Proof.
  intros Hinv HK.
  assert (forall item minX minY maxX maxY padding fn,
             Hash.itemCells (Hash.insert g item minX minY maxX maxY padding fn).2 !! e = Some K)
    as Hins.
  { intros item minX minY maxX maxY padding fn.
    destruct (Hash.Contains g item) eqn:Hc.
    - unfold Hash.insert. by rewrite Hc.
    - rewrite insert_unfold by assumption. simpl.
      rewrite lookup_insert_ne; [exact HK |]. intros ->.
      assert (Hash.Contains g e = true) by (apply (Contains_itemCells g e Hinv); eauto).
      congruence. }
  destruct o; simpl.
  - left. apply Hins.
  - left. apply Hins.
  - unfold Hash.Remove. destruct (Hash.Contains g item); simpl; [| by left].
    destruct (decide (item = e)) as [-> | Hne].
    + right. apply lookup_delete_eq.
    + left. by rewrite lookup_delete_ne.
  - left. by rewrite Query_unfold.
  - right. apply lookup_empty.
  - unfold Hash.Resize.
    destruct (F32.eqb (Hash.cellWidth g) cellWidth && F32.eqb (Hash.cellHeight g) cellHeight);
      [by left | right; apply lookup_empty].
Qed.

Lemma foldl_lookup_frame (f : gmap Z (list T) -> Z -> gmap Z (list T))
    (keys : list Z) (cs : gmap Z (list T)) (k : Z) :
  (forall cs key, k ≠ key -> f cs key !! k = cs !! k) ->
  k ∉ keys -> foldl f cs keys !! k = cs !! k.
Proof.
  intros Hf. revert cs. induction keys as [| key keys IH]; intros cs Hnin; [reflexivity |].
  apply not_elem_of_cons in Hnin as [Hne Hnin]. cbn [foldl].
  rewrite IH by assumption. by apply Hf.
Qed.

Lemma hashgrid_remove_key_frame (entry : T) (cs : gmap Z (list T)) (key k : Z) :
  k ≠ key -> HashGrid.remove_key entry cs key !! k = cs !! k.
Proof.
  intros Hne. unfold HashGrid.remove_key.
  destruct (index_of entry (bucket cs key)); [| reflexivity].
  destruct (length _ =? 0)%nat.
  - by rewrite lookup_delete_ne.
  - by rewrite lookup_insert_ne.
Qed.

Lemma hashgrid_v1_remove_key_frame (entry : T) (cs : gmap Z (list T)) (key k : Z) :
  k ≠ key -> HashGridV1.remove_key entry cs key !! k = cs !! k.
Proof.
  intros Hne. unfold HashGridV1.remove_key.
  destruct (length _ =? 0)%nat; [rewrite lookup_delete_ne by congruence |];
    (destruct (index_of entry (bucket cs key)); [by rewrite lookup_insert_ne | reflexivity]).
Qed.

(** C7 (as amended): in the variants that keep a reverse index,
    [src/hash/grid.go] and [src/unnamed/part_000], [Remove] takes the
    entry out of the buckets of exactly the keys recorded for it, which are
    exactly the buckets that hold it, and leaves every other bucket as it
    was; no box is consulted, so the removal is complete wherever the entry
    has moved since.  The key list recorded at insertion stays as it is
    until the entry is removed or the grid is cleared.  [Remove] of
    [src/hashgrid/grid.go] and of [src/unnamed/part_001] touches the
    buckets of the keys of the box the entry reports at that moment, and no
    other. *)
Theorem remove_follows_recorded_keys :
  (forall (cw ch : float32) (g0 : Hash.Grid T) (ops : list hash_op) (e : T) (K : list Z),
      Hash.NewGrid cw ch = Returned g0 ->
      let g := hash_run g0 ops in
      Hash.itemCells g !! e = Some K ->
      let g' := Hash.Remove g e in
      (forall k, e ∈ bucket (Hash.cells g) k <-> k ∈ K) /\
      (forall k, k ∈ K -> bucket (Hash.cells g') k = without e (bucket (Hash.cells g) k)) /\
      (forall k, k ∉ K -> Hash.cells g' !! k = Hash.cells g !! k) /\
      (forall k, e ∉ bucket (Hash.cells g') k) /\
      (forall o, Hash.itemCells (hash_step g o) !! e = Some K \/
                 Hash.itemCells (hash_step g o) !! e = None)) /\
  (forall (cellSize : float32) (g0 : HashGridRev.Grid T) (ops : list rev_op) (e : T) (K : list Z),
      HashGridRev.New cellSize = Returned g0 ->
      let g := rev_run g0 ops in
      HashGridRev.cellKeys g !! e = Some K ->
      let g' := HashGridRev.Remove g e in
      (forall k, e ∈ bucket (HashGridRev.cells g) k <-> k ∈ K) /\
      (forall k, k ∈ K ->
                 bucket (HashGridRev.cells g') k = without e (bucket (HashGridRev.cells g) k)) /\
      (forall k, k ∉ K -> HashGridRev.cells g' !! k = HashGridRev.cells g !! k) /\
      (forall k, e ∉ bucket (HashGridRev.cells g') k)) /\
  (forall (E : GridEntry T) (g g' : HashGrid.Grid T) (entry : T) (keys : list Z),
      HashGrid.GetKeys g entry = Some keys ->
      HashGrid.Remove g entry = Some g' ->
      forall k, k ∉ keys -> HashGrid.cells g' !! k = HashGrid.cells g !! k) /\
  (forall (E : GridEntry T) (g g' : HashGridV1.Grid T) (entry : T) (keys : list Z),
      HashGridV1.GetKeys g entry = Some keys ->
      HashGridV1.Remove g entry = Some g' ->
      forall k, k ∉ keys -> HashGridV1.cells g' !! k = HashGridV1.cells g !! k).
Proof.
  split; [| split; [| split]].
  - intros cw ch g0 ops e K Hnew g HK g'.
    assert (hash_inv g) as Hinv by (by apply (hash_reachable_inv cw ch)).
    pose proof (hash_index _ Hinv) as Hidx.
    assert (Hash.cells g' = drop_from_cells e (Hash.cells g) K) as Hcells
      by (by apply hash_Remove_buckets).
    rewrite Hcells. split; [| split; [| split; [| split]]].
    + intros k. by apply (index_inv_member _ (Hash.itemCells g)).
    + intros k Hk. rewrite bucket_drop_from_cells. by rewrite decide_True.
    + intros k Hk. by apply drop_from_cells_lookup_notin.
    + intros k. by apply (drop_from_cells_gone _ (Hash.itemCells g)).
    + intros o. by apply recorded_keys_stable.
  - intros cellSize g0 ops e K Hnew g HK g'.
    assert (rev_inv g) as Hinv by (by apply (rev_reachable_inv cellSize)).
    destruct (rev_Remove_cells g e K Hinv HK) as [Hcells _]. fold g' in Hcells.
    rewrite Hcells. split; [| split; [| split]].
    + intros k. by apply (index_inv_member _ (HashGridRev.cellKeys g)).
    + intros k Hk. rewrite bucket_drop_from_cells. by rewrite decide_True.
    + intros k Hk. by apply drop_from_cells_lookup_notin.
    + intros k. by apply (drop_from_cells_gone _ (HashGridRev.cellKeys g)).
  - intros E g g' entry keys Hkeys. unfold HashGrid.Remove. rewrite Hkeys. simpl.
    intros [= <-] k Hk. simpl. apply foldl_lookup_frame; [| exact Hk].
    intros cs key Hne. by apply hashgrid_remove_key_frame.
  - intros E g g' entry keys Hkeys. unfold HashGridV1.Remove. rewrite Hkeys. simpl.
    intros [= <-] k Hk. simpl. apply foldl_lookup_frame; [| exact Hk].
    intros cs key Hne. by apply hashgrid_v1_remove_key_frame.
Qed.

End RecordedKeys.

(** ** Inserting what is already there *)

Section InsertTwice.
Context {T : Type} `{Countable T} `{Inhabited T} {P : FloatToInt}.

Lemma Contains_after_insert (g : Hash.Grid T) item minX minY maxX maxY padding fn :
  Hash.Contains (Hash.insert g item minX minY maxX maxY padding fn).2 item = true.
Proof.
  destruct (Hash.Contains g item) eqn:Hc.
  - unfold Hash.insert. by rewrite Hc.
  - rewrite insert_unfold by assumption. apply Contains_spec. simpl.
    rewrite lookup_insert_eq. eauto.
Qed.

Lemma insert_key_member (entry : T) (cs : gmap Z (list T)) (key k : Z) :
  (entry ∈ bucket cs k -> entry ∈ bucket (HashGrid.insert_key entry cs key) k) /\
  entry ∈ bucket (HashGrid.insert_key entry cs key) key.
Proof.
  unfold HashGrid.insert_key.
  destruct (bool_decide (entry ∈ bucket cs key)) eqn:Hd; simpl.
  - apply bool_decide_eq_true in Hd. by split.
  - split.
    + intros Hin. rewrite bucket_insert.
      destruct (decide (key = k)) as [-> | Hne]; [apply elem_of_app; by left | exact Hin].
    + rewrite bucket_insert, decide_True by reflexivity.
      apply elem_of_app. right. left.
Qed.

Lemma insert_keys_all_present (entry : T) (keys : list Z) (cs : gmap Z (list T)) :
  (forall k, k ∈ keys -> entry ∈ bucket cs k) ->
  foldl (HashGrid.insert_key entry) cs keys = cs.
Proof.
  induction keys as [| k keys IH]; intros Hall; [reflexivity |].
  cbn [foldl].
  assert (HashGrid.insert_key entry cs k = cs) as ->.
  { unfold HashGrid.insert_key. rewrite bool_decide_eq_true_2; [reflexivity |].
    apply Hall. left. }
  apply IH. intros k' Hk'. apply Hall. by right.
Qed.

Lemma insert_keys_present_after (entry : T) (keys : list Z) (cs : gmap Z (list T)) :
  forall k, (k ∈ keys \/ entry ∈ bucket cs k) ->
            entry ∈ bucket (foldl (HashGrid.insert_key entry) cs keys) k.
Proof.
  revert cs. induction keys as [| k0 keys IH]; intros cs k Hk.
  - destruct Hk as [Hk | Hk]; [by apply not_elem_of_nil in Hk | exact Hk].
  - cbn [foldl]. apply IH.
    destruct (insert_key_member entry cs k0 k) as [Hkeep Hnew].
    destruct Hk as [Hk | Hk]; [| right; by apply Hkeep].
    apply elem_of_cons in Hk as [-> | Hk]; [by right | by left].
Qed.

(** C4 (as amended): in the variants that keep a reverse index,
    [src/hash/grid.go] and [src/unnamed/part_000], inserting an identity
    that is present returns [false] and leaves the grid as it is, whatever
    box, padding or predicate comes with it, so a second insert leaves the
    state of the first.  [Insert] of [src/hashgrid/grid.go] returns
    nothing and only skips the buckets that hold the entry already: with
    the same boxes a second insert changes nothing. *)
Theorem insert_present_is_noop :
  (forall (g : Hash.Grid T) item minX minY maxX maxY padding fn,
      Hash.Contains g item = true ->
      Hash.insert g item minX minY maxX maxY padding fn = (false, g)) /\
  (forall (g : Hash.Grid T) item minX minY maxX maxY padding fn
          minX' minY' maxX' maxY' padding' fn',
      let g1 := (Hash.insert g item minX minY maxX maxY padding fn).2 in
      Hash.insert g1 item minX' minY' maxX' maxY' padding' fn' = (false, g1)) /\
  (forall (E : GridEntry T) (g : HashGridRev.Grid T) entry check,
      is_Some (HashGridRev.cellKeys g !! entry) ->
      HashGridRev.InsertStrictCheck g entry check = (false, g)) /\
  (forall (E E' : GridEntry T) (g : HashGridRev.Grid T) entry check check',
      let g1 := (HashGridRev.InsertStrictCheck (E := E) g entry check).2 in
      HashGridRev.InsertStrictCheck (E := E') g1 entry check' = (false, g1)) /\
  (forall (E : GridEntry T) (g g1 : HashGrid.Grid T) entry,
      HashGrid.Insert g entry = Some g1 -> HashGrid.Insert g1 entry = Some g1).
Proof.
  split; [| split; [| split; [| split]]].
  - intros g item minX minY maxX maxY padding fn Hc. unfold Hash.insert. by rewrite Hc.
  - intros g item minX minY maxX maxY padding fn minX' minY' maxX' maxY' padding' fn' g1.
    unfold Hash.insert at 1. subst g1. by rewrite Contains_after_insert.
  - intros E g entry check Hin. unfold HashGridRev.InsertStrictCheck.
    by rewrite bool_decide_eq_true_2.
  - intros E E' g entry check check' g1.
    assert (is_Some (HashGridRev.cellKeys g1 !! entry)) as Hin.
    { subst g1. destruct (HashGridRev.cellKeys g !! entry) as [K |] eqn:HK.
      - unfold HashGridRev.InsertStrictCheck.
        rewrite bool_decide_eq_true_2 by (rewrite HK; eauto). simpl. rewrite HK. eauto.
      - destruct (InsertStrictCheck_unfold E g entry check HK) as (_ & _ & ->).
        rewrite lookup_insert_eq. eauto. }
    unfold HashGridRev.InsertStrictCheck at 1. by rewrite bool_decide_eq_true_2.
  - intros E g g1 entry. unfold HashGrid.Insert.
    destruct (HashGrid.GetKeys g entry) as [keys |] eqn:Hkeys; simpl; [| discriminate].
    intros [= <-].
    assert (HashGrid.GetKeys
              {| HashGrid.left := HashGrid.left g; HashGrid.right := HashGrid.right g;
                 HashGrid.top := HashGrid.top g; HashGrid.bottom := HashGrid.bottom g;
                 HashGrid.cellSize := HashGrid.cellSize g;
                 HashGrid.cells := foldl (HashGrid.insert_key entry) (HashGrid.cells g) keys |}
              entry = Some keys) as -> by exact Hkeys.
    simpl. do 2 f_equal. apply insert_keys_all_present.
    intros k Hk. apply insert_keys_present_after. by left.
Qed.

End InsertTwice.

(** ** [Resize], the frame of [Query], and construction *)

Section Lifecycle.
Context {T : Type} `{Countable T} `{Inhabited T} {P : FloatToInt}.

(** C9: [Resize] to the cell size the grid has ([==] on both
    components) returns the grid unchanged; [Resize] to another size
    adopts it and leaves the bucket store, the presence map and the reverse
    index empty, so that [Contains] is false for every entry. *)
Theorem Resize_keeps_or_clears (g : Hash.Grid T) (cw ch : float32) :
  (F32.eqb (Hash.cellWidth g) cw && F32.eqb (Hash.cellHeight g) ch = true ->
   Hash.Resize g cw ch = g) /\
  (F32.eqb (Hash.cellWidth g) cw && F32.eqb (Hash.cellHeight g) ch = false ->
   let g' := Hash.Resize g cw ch in
   Hash.cellWidth g' = cw /\ Hash.cellHeight g' = ch /\
   Hash.cells g' = ∅ /\ Hash.items g' = ∅ /\ Hash.itemCells g' = ∅ /\
   Hash.Cells g' = [] /\
   (forall e, Hash.Contains g' e = false) /\
   (forall e k, e ∉ bucket (Hash.cells g') k)).
Proof.
  unfold Hash.Resize. split; intros ->; [reflexivity |]. simpl.
  repeat split.
  intros e k. unfold bucket. rewrite lookup_empty. apply not_elem_of_nil.
Qed.

Lemma visit_touches gen' (its0 : gmap T Z) (st : gmap T Z * list T) item :
  (forall e, st.1 !! e ≠ its0 !! e -> e ∈ st.2 /\ st.1 !! e = Some gen') ->
  forall e, (Hash.visit gen' st item).1 !! e ≠ its0 !! e ->
            e ∈ (Hash.visit gen' st item).2 /\ (Hash.visit gen' st item).1 !! e = Some gen'.
Proof.
  intros Hst e. unfold Hash.visit. case_decide; [apply Hst |]. simpl.
  destruct (decide (item = e)) as [<- | Hne].
  - rewrite lookup_insert_eq. intros _. split; [| reflexivity].
    apply elem_of_app. right. left.
  - rewrite lookup_insert_ne by assumption. intros Hdiff.
    destruct (Hst e Hdiff) as [Hin Hs]. split; [| exact Hs].
    apply elem_of_app. by left.
Qed.

Lemma query_state_touches (g : Hash.Grid T) minX minY maxX maxY :
  forall e, (query_state g minX minY maxX maxY).1 !! e ≠ Hash.items g !! e ->
            e ∈ (query_state g minX minY maxX maxY).2 /\
            (query_state g minX minY maxX maxY).1 !! e = Some (Int.to_uint64 (Hash.gen g + 1)).
Proof.
  unfold query_state.
  destruct (Hash.cellRange g minX minY maxX maxY) as [[[x0 y0] x1] y1].
  apply (foldl_preserves
           (fun st => forall e, st.1 !! e ≠ Hash.items g !! e ->
                                e ∈ st.2 /\ st.1 !! e = Some (Int.to_uint64 (Hash.gen g + 1)))).
  - intros st c _ Hst. unfold Hash.query_cell.
    destruct (Hash.cells g !! Hash.EncodeGridKey c.1 c.2) as [its |]; [| exact Hst].
    apply (foldl_preserves
             (fun st => forall e, st.1 !! e ≠ Hash.items g !! e ->
                                  e ∈ st.2 /\ st.1 !! e = Some (Int.to_uint64 (Hash.gen g + 1))));
      [| exact Hst].
    intros st' item _ Hst'. by apply visit_touches.
  - simpl. intros e Hne. congruence.
Qed.

Lemma HashV1_Query_eq (g : Hash.Grid T) minX minY maxX maxY :
  HashV1.Query g minX minY maxX maxY = Hash.Query g minX minY maxX maxY.
Proof. reflexivity. Qed.

(** C10: [Query] of the generation-stamp variant ([src/hash/grid.go] and
    [src/unnamed/part_002]) leaves the bucket store, the recorded key
    lists and the cell size as they were; it advances the generation by
    one, returns its result buffer, and restamps only entries it
    returns, with the new generation. *)
Theorem Query_frame (g : Hash.Grid T) (minX minY maxX maxY : float32) :
  let r := (Hash.Query g minX minY maxX maxY).1 in
  let g' := (Hash.Query g minX minY maxX maxY).2 in
  (Hash.cells g' = Hash.cells g /\
   Hash.itemCells g' = Hash.itemCells g /\
   Hash.cellWidth g' = Hash.cellWidth g /\
   Hash.cellHeight g' = Hash.cellHeight g /\
   Hash.gen g' = Int.to_uint64 (Hash.gen g + 1) /\
   Hash.qBuf g' = r /\
   (forall e, Hash.items g' !! e ≠ Hash.items g !! e ->
              e ∈ r /\ Hash.items g' !! e = Some (Hash.gen g'))) /\
  HashV1.Query g minX minY maxX maxY = Hash.Query g minX minY maxX maxY.
Proof.
  intros r g'. subst r g'. split; [| apply HashV1_Query_eq].
  rewrite Query_unfold. simpl. repeat split; try reflexivity.
  - by apply query_state_touches.
  - by apply query_state_touches.
Qed.

(** C8 (as amended): the constructors of package [hashgrid] ([New] and
    [NewWithPadding] of [src/hashgrid/grid.go], [New] of
    [src/unnamed/part_000] and [src/unnamed/part_001]) panic on every
    cell size [<= 0].  [NewGrid] and [Resize] of package [hash] do not look
    at the sign: [NewGrid] returns a grid of the size it is given, and
    [Resize] adopts any size that differs from the current one. *)
Theorem nonpositive_cell_size :
  (forall (cellSize : float32) (padding : HashGrid.GridPadding),
      F32.leb cellSize F32.zero = true ->
      HashGrid.NewWithPadding (T := T) cellSize padding = Panicked "cellSize must be positive" /\
      HashGrid.New (T := T) cellSize = Panicked "cellSize must be positive" /\
      HashGridRev.New (T := T) cellSize = Panicked "cellSize must be positive" /\
      HashGridV1.New (T := T) cellSize = Panicked "cellSize must be positive") /\
  (forall (cw ch : float32),
      exists g : Hash.Grid T,
        Hash.NewGrid cw ch = Returned g /\ Hash.cellWidth g = cw /\ Hash.cellHeight g = ch) /\
  (forall (g : Hash.Grid T) (cw ch : float32),
      F32.eqb (Hash.cellWidth g) cw && F32.eqb (Hash.cellHeight g) ch = false ->
      Hash.cellWidth (Hash.Resize g cw ch) = cw /\ Hash.cellHeight (Hash.Resize g cw ch) = ch).
Proof.
  split; [| split].
  - intros cellSize padding Hle.
    unfold HashGrid.New, HashGrid.NewWithPadding, HashGridRev.New, HashGridV1.New.
    rewrite Hle. auto.
  - intros cw ch. eexists. unfold Hash.NewGrid. split; [reflexivity |]. by simpl.
  - intros g cw ch Hne. unfold Hash.Resize. rewrite Hne. by simpl.
Qed.

End Lifecycle.

(** ** The cell range *)

Lemma floorZ_is_floor q n : F32.floorZ q = Some n -> is_floor q n.
Proof.
  destruct q as [s | s | | s m e]; simpl; try discriminate.
  - intros [= <-]. exists (inject_Z 0). split; [reflexivity |].
    unfold Qle, Qlt. simpl. lia.
  - intros [= <-]. eexists. split; [reflexivity |].
    destruct (0 <=? e) eqn:He.
    + unfold Qle, Qlt. simpl. lia.
    + apply Z.leb_gt in He.
      assert (0 < 2 ^ (- e)) as Hd by (apply Z.pow_pos_nonneg; lia).
      unfold Qle, Qlt. simpl. rewrite Z2Pos.id by assumption.
      pose proof (Z.div_mod (F32.smant s m) (2 ^ (- e)) ltac:(lia)) as Hdm.
      pose proof (Z.mod_pos_bound (F32.smant s m) (2 ^ (- e)) Hd) as Hmod.
      nia.
Qed.

Lemma ceilZ_is_ceil q n : F32.ceilZ q = Some n -> is_ceil q n.
Proof.
  destruct q as [s | s | | s m e]; simpl; try discriminate.
  - intros [= <-]. exists (inject_Z 0). split; [reflexivity |].
    unfold Qle, Qlt. simpl. lia.
  - intros [= <-]. eexists. split; [reflexivity |].
    destruct (0 <=? e) eqn:He.
    + unfold Qle, Qlt. simpl. lia.
    + apply Z.leb_gt in He.
      assert (0 < 2 ^ (- e)) as Hd by (apply Z.pow_pos_nonneg; lia).
      unfold Qle, Qlt. simpl. rewrite Z2Pos.id by assumption.
      pose proof (Z.div_mod (- F32.smant s m) (2 ^ (- e)) ltac:(lia)) as Hdm.
      pose proof (Z.mod_pos_bound (- F32.smant s m) (2 ^ (- e)) Hd) as Hmod.
      nia.
Qed.

Lemma is_ceil_of_integer q m n : is_ceil q m -> is_integer q n -> m = n.
Proof.
  intros (r & Hr & Hlo & Hhi) (r' & Hr' & Heq).
  rewrite Hr in Hr'. injection Hr' as <-.
  rewrite Heq in Hlo, Hhi. unfold Qle, Qlt in *. simpl in *. lia.
Qed.

Section CellRange.
Context {T : Type} `{Countable T} `{Inhabited T} {P : FloatToInt}.

Lemma floor_int32_fits q : fits_int32 (F32.floorZ q) -> is_floor q (F32.floor_int32 q).
Proof.
  intros (n & Hn & Hrange). unfold F32.floor_int32, F32.int32_of. rewrite Hn.
  apply in_int32b_spec in Hrange. rewrite Hrange. by apply floorZ_is_floor.
Qed.

Lemma ceil_int32_fits q : fits_int32 (F32.ceilZ q) -> is_ceil q (F32.ceil_int32 q).
Proof.
  intros (n & Hn & Hrange). unfold F32.ceil_int32, F32.int32_of. rewrite Hn.
  apply in_int32b_spec in Hrange. rewrite Hrange. by apply ceilZ_is_ceil.
Qed.

(** Every entry [Query] returns comes from a bucket of a visited cell. *)
Lemma query_state_sound (g : Hash.Grid T) minX minY maxX maxY x0 y0 x1 y1 :
  Hash.cellRange g minX minY maxX maxY = (x0, y0, x1, y1) ->
  forall e, e ∈ (query_state g minX minY maxX maxY).2 ->
            exists cx cy, x0 <= cx < x1 /\ y0 <= cy < y1 /\
                          e ∈ bucket (Hash.cells g) (Hash.EncodeGridKey cx cy).
Proof.
  intros Hr. unfold query_state. rewrite Hr.
  pose proof (fun c => proj1 (elem_of_row_major x0 y0 x1 y1 c.1 c.2)) as Hin.
  revert Hin. generalize (row_major x0 y0 x1 y1). intros L HL.
  apply (foldl_preserves
           (fun st => forall e, e ∈ st.2 ->
                                exists cx cy, x0 <= cx < x1 /\ y0 <= cy < y1 /\
                                              e ∈ bucket (Hash.cells g) (Hash.EncodeGridKey cx cy))).
  - intros st c Hc Hst. unfold Hash.query_cell.
    destruct (Hash.cells g !! Hash.EncodeGridKey c.1 c.2) as [its |] eqn:Hk; [| exact Hst].
    assert (forall x, x ∈ its ->
                      exists cx cy, x0 <= cx < x1 /\ y0 <= cy < y1 /\
                                    x ∈ bucket (Hash.cells g) (Hash.EncodeGridKey cx cy)) as Hits.
    { intros x Hx. exists c.1, c.2. destruct c as [cx cy]. specialize (HL (cx, cy) Hc).
      simpl in *. rewrite (bucket_lookup _ _ _ Hk). tauto. }
    revert Hits. generalize its. intros l Hl.
    apply (foldl_preserves
             (fun st => forall e, e ∈ st.2 ->
                                  exists cx cy, x0 <= cx < x1 /\ y0 <= cy < y1 /\
                                                e ∈ bucket (Hash.cells g) (Hash.EncodeGridKey cx cy)));
      [| exact Hst].
    intros st' item Hitem Hst' e. unfold Hash.visit. case_decide; [apply Hst' |]. simpl.
    intros He. apply elem_of_app in He as [He | He]; [by apply Hst' |].
    apply list_elem_of_singleton in He. subst e. by apply Hl.
  - simpl. intros e He. by apply not_elem_of_nil in He.
Qed.

(** Every entry [Query] of [src/hashgrid/grid.go] returns comes from a
    bucket of the closed range of the truncated quotients. *)
Lemma hashgrid_query_sound (E : GridEntry T) (g : HashGrid.Grid T)
    (minX minY maxX maxY : float32) (r : list T) (e : T) :
  HashGrid.Query g minX minY maxX maxY = Some r -> e ∈ r ->
  exists x y,
    F32.trunc_int32 (F32.div minX (HashGrid.cellSize g)) <= x
      <= F32.trunc_int32 (F32.div maxX (HashGrid.cellSize g)) /\
    F32.trunc_int32 (F32.div minY (HashGrid.cellSize g)) <= y
      <= F32.trunc_int32 (F32.div maxY (HashGrid.cellSize g)) /\
    e ∈ bucket (HashGrid.cells g) (HashGrid.EncodeGridKey x y).
Proof.
  unfold HashGrid.Query.
  set (sx := F32.trunc_int32 (F32.div minX (HashGrid.cellSize g))).
  set (sy := F32.trunc_int32 (F32.div minY (HashGrid.cellSize g))).
  set (ex := F32.trunc_int32 (F32.div maxX (HashGrid.cellSize g))).
  set (ey := F32.trunc_int32 (F32.div maxY (HashGrid.cellSize g))).
  destruct (for_range_incl _ sx ex _ _) as [st |] eqn:Hloop; simpl; [| discriminate].
  intros [= <-]. revert e.
  pose (Q := fun st : gset T * list T =>
               forall e, e ∈ st.2 ->
                         exists x y, sx <= x <= ex /\ sy <= y <= ey /\
                                     e ∈ bucket (HashGrid.cells g) (HashGrid.EncodeGridKey x y)).
  change (Q st). revert Hloop. apply for_range_incl_preserves.
  - intros st1 x st2 Hx Hst1. apply for_range_incl_preserves; [| exact Hst1].
    intros st3 y st4 Hy Hst3 [= <-].
    assert (forall z, z ∈ bucket (HashGrid.cells g) (HashGrid.EncodeGridKey x y) ->
                      exists x' y', sx <= x' <= ex /\ sy <= y' <= ey /\
                                    z ∈ bucket (HashGrid.cells g) (HashGrid.EncodeGridKey x' y'))
      as Hcell by (intros z Hz; exists x, y; tauto).
    revert Hcell. generalize (bucket (HashGrid.cells g) (HashGrid.EncodeGridKey x y)).
    intros l Hl. apply foldl_preserves; [| exact Hst3].
    intros st5 entry Hentry Hst5 e'. unfold HashGrid.visit.
    destruct (bool_decide (entry ∈ st5.1)); [apply Hst5 |].
    destruct (Min entry) as [eMinX eMinY]. destruct (Max entry) as [eMaxX eMaxY].
    destruct (_ && _); [| apply Hst5]. simpl.
    intros He'. apply elem_of_app in He' as [He' | He']; [by apply Hst5 |].
    apply list_elem_of_singleton in He'. subst e'. by apply Hl.
  - intros e' He'. by apply not_elem_of_nil in He'.
Qed.

(** C6 (as amended): in [src/hash/grid.go] ([cellRange]) and in
    [src/unnamed/part_000] ([computeCellRange]) the range is the floor of
    the quotients of the minimum and the ceiling of the quotients of the
    maximum by the cell size, wherever the [float32] quotient is finite and
    its rounding fits [int32]; insertion records exactly the cells of the
    half-open range, and a query returns entries of those cells only; a
    maximum edge that lies exactly on the boundary of cell [n] gives the
    bound [n], which the half-open range leaves out.  [Query] of
    [src/hashgrid/grid.go] returns entries of the closed range between the
    truncated quotients. *)
Theorem cell_range_floor_ceil_half_open :
  (forall (g : Hash.Grid T) minX minY maxX maxY x0 y0 x1 y1,
      Hash.cellRange g minX minY maxX maxY = (x0, y0, x1, y1) ->
      (fits_int32 (F32.floorZ (F32.div minX (Hash.cellWidth g))) ->
       is_floor (F32.div minX (Hash.cellWidth g)) x0) /\
      (fits_int32 (F32.floorZ (F32.div minY (Hash.cellHeight g))) ->
       is_floor (F32.div minY (Hash.cellHeight g)) y0) /\
      (fits_int32 (F32.ceilZ (F32.div maxX (Hash.cellWidth g))) ->
       is_ceil (F32.div maxX (Hash.cellWidth g)) x1) /\
      (fits_int32 (F32.ceilZ (F32.div maxY (Hash.cellHeight g))) ->
       is_ceil (F32.div maxY (Hash.cellHeight g)) y1) /\
      (forall n, fits_int32 (F32.ceilZ (F32.div maxX (Hash.cellWidth g))) ->
                 is_integer (F32.div maxX (Hash.cellWidth g)) n ->
                 x1 = n /\ forall cx cy, (cx, cy) ∈ row_major x0 y0 x1 y1 -> cx < n) /\
      (forall n, fits_int32 (F32.ceilZ (F32.div maxY (Hash.cellHeight g))) ->
                 is_integer (F32.div maxY (Hash.cellHeight g)) n ->
                 y1 = n /\ forall cx cy, (cx, cy) ∈ row_major x0 y0 x1 y1 -> cy < n) /\
      (forall cx cy, (cx, cy) ∈ row_major x0 y0 x1 y1 <-> x0 <= cx < x1 /\ y0 <= cy < y1) /\
      (forall item, Hash.Contains g item = false ->
                    Hash.itemCells
                      (Hash.Insert g item minX minY maxX maxY Hash.NoGridPadding).2 !! item
                    = Some ((fun c => Hash.EncodeGridKey c.1 c.2) <$> row_major x0 y0 x1 y1)) /\
      (forall e, e ∈ (Hash.Query g minX minY maxX maxY).1 ->
                 exists cx cy, x0 <= cx < x1 /\ y0 <= cy < y1 /\
                               e ∈ bucket (Hash.cells g) (Hash.EncodeGridKey cx cy))) /\
  (forall minX minY maxX maxY cellSize sX sY eX eY,
      HashGridRev.computeCellRange minX minY maxX maxY cellSize = (sX, sY, eX, eY) ->
      (fits_int32 (F32.floorZ (F32.div minX cellSize)) -> is_floor (F32.div minX cellSize) sX) /\
      (fits_int32 (F32.floorZ (F32.div minY cellSize)) -> is_floor (F32.div minY cellSize) sY) /\
      (fits_int32 (F32.ceilZ (F32.div maxX cellSize)) -> is_ceil (F32.div maxX cellSize) eX) /\
      (fits_int32 (F32.ceilZ (F32.div maxY cellSize)) -> is_ceil (F32.div maxY cellSize) eY) /\
      (forall x y, (x, y) ∈ column_major sX sY eX eY <-> sX <= x < eX /\ sY <= y < eY)) /\
  (forall (E : GridEntry T) (g : HashGridRev.Grid T) (entry : T) sX sY eX eY,
      HashGridRev.computeCellRange (Min entry).1 (Min entry).2 (Max entry).1 (Max entry).2
        (HashGridRev.cellSize g) = (sX, sY, eX, eY) ->
      (HashGridRev.GetKeys g entry None).1
      = (fun c => HashGridRev.EncodeGridKey c.1 c.2) <$> column_major sX sY eX eY) /\
  (forall (E : GridEntry T) (g : HashGrid.Grid T) minX minY maxX maxY (r : list T) (e : T),
      HashGrid.Query g minX minY maxX maxY = Some r -> e ∈ r ->
      exists x y,
        F32.trunc_int32 (F32.div minX (HashGrid.cellSize g)) <= x
          <= F32.trunc_int32 (F32.div maxX (HashGrid.cellSize g)) /\
        F32.trunc_int32 (F32.div minY (HashGrid.cellSize g)) <= y
          <= F32.trunc_int32 (F32.div maxY (HashGrid.cellSize g)) /\
        e ∈ bucket (HashGrid.cells g) (HashGrid.EncodeGridKey x y)).
Proof.
  split; [| split; [| split]].
  - intros g minX minY maxX maxY x0 y0 x1 y1 Hr.
    pose proof Hr as Hr'. unfold Hash.cellRange in Hr'. injection Hr' as <- <- <- <-.
    split; [apply floor_int32_fits |].
    split; [apply floor_int32_fits |].
    split; [apply ceil_int32_fits |].
    split; [apply ceil_int32_fits |].
    split; [| split; [| split; [| split]]].
    + intros n Hfit Hint.
      pose proof (is_ceil_of_integer _ _ n (ceil_int32_fits _ Hfit) Hint) as Hx1.
      split; [exact Hx1 |]. intros cx cy Hc. apply elem_of_row_major in Hc. lia.
    + intros n Hfit Hint.
      pose proof (is_ceil_of_integer _ _ n (ceil_int32_fits _ Hfit) Hint) as Hy1.
      split; [exact Hy1 |]. intros cx cy Hc. apply elem_of_row_major in Hc. lia.
    + intros cx cy. apply elem_of_row_major.
    + intros item Hc. unfold Hash.Insert. rewrite insert_unfold by assumption. simpl.
      rewrite lookup_insert_eq. f_equal.
      unfold insert_keys, insert_range. rewrite Hr. simpl.
      f_equal. induction (row_major _ _ _ _) as [| c L IH]; [reflexivity |].
      rewrite filter_cons. simpl. by rewrite IH.
    + intros e. rewrite Query_unfold. simpl. by apply query_state_sound.
  - intros minX minY maxX maxY cellSize sX sY eX eY Hr.
    unfold HashGridRev.computeCellRange in Hr. injection Hr as <- <- <- <-.
    split; [apply floor_int32_fits |].
    split; [apply floor_int32_fits |].
    split; [apply ceil_int32_fits |].
    split; [apply ceil_int32_fits |].
    intros x y. apply elem_of_column_major.
  - intros E g entry sX sY eX eY Hr. unfold HashGridRev.GetKeys.
    rewrite getKeysInternal_keys, Hr.
    assert (forall L : list (Z * Z), filter (fun c => rev_accepts g None c = true) L = L) as ->.
    { intros L. induction L as [| c L IH]; [reflexivity |].
      rewrite filter_cons. rewrite decide_True by reflexivity. by rewrite IH. }
    reflexivity.
  - intros E g minX minY maxX maxY r e. apply hashgrid_query_sound.
Qed.

End CellRange.

(** ** What [Query] of [src/hash/grid.go] returns *)

Section QueryResult.
Context {T : Type} `{Countable T} `{Inhabited T} {P : FloatToInt}.

Lemma foldl_ind_prefix {A B : Type} (Q : list B -> A -> Prop) (f : A -> B -> A)
    (l : list B) (a : A) :
  Q [] a ->
  (forall pre x a, Q pre a -> Q (pre ++ [x]) (f a x)) ->
  Q l (foldl f a l).
Proof.
  intros Hnil Hstep. induction l as [| x l IH] using rev_ind; [exact Hnil |].
  rewrite foldl_snoc. by apply Hstep.
Qed.

Lemma visit_progress (g : Hash.Grid T) (seen : T -> Prop) st item :
  hash_inv g -> stamps_fresh g ->
  (exists k, item ∈ bucket (Hash.cells g) k) ->
  query_progress g seen st ->
  query_progress g (fun e => seen e \/ e = item)
    (Hash.visit (Int.to_uint64 (Hash.gen g + 1)) st item).
Proof.
  intros Hinv Hfresh [k Hk] (Hnd & Hmem & Hstamp).
  assert (exists s, Hash.items g !! item = Some s) as [s Hs].
  { apply (hash_items _ Hinv).
    destruct (inv_indexed _ _ (hash_index _ Hinv) k item Hk) as (K & HK & _). eauto. }
  unfold Hash.visit. rewrite (Hstamp item).
  destruct (decide (item ∈ st.2)) as [Hin | Hnin]; simpl.
  - rewrite decide_True by reflexivity. split; [exact Hnd |]. split; [| exact Hstamp].
    intros e. rewrite Hmem. split; [tauto |]. intros [He | ->]; [exact He | by apply Hmem].
  - rewrite Hs. simpl. rewrite decide_False by (by apply (Hfresh item)).
    unfold query_progress. cbn [fst snd].
    split; [| split].
    + apply NoDup_app. split; [exact Hnd |]. split; [| apply NoDup_singleton].
      intros x Hx Hx'. apply list_elem_of_singleton in Hx'. by subst x.
    + intros e. rewrite elem_of_app, list_elem_of_singleton, Hmem. reflexivity.
    + intros e. destruct (decide (item = e)) as [<- | Hne].
      * rewrite lookup_insert_eq. rewrite decide_True; [reflexivity |].
        apply elem_of_app. right. left.
      * rewrite lookup_insert_ne by assumption. rewrite Hstamp.
        destruct (decide (e ∈ st.2)) as [He | He].
        -- rewrite decide_True; [reflexivity |]. apply elem_of_app. by left.
        -- rewrite decide_False; [reflexivity |].
           rewrite elem_of_app, list_elem_of_singleton. intros [? | ?]; congruence.
Qed.

Lemma query_progress_ext (g : Hash.Grid T) (seen seen' : T -> Prop) st :
  (forall e, seen e <-> seen' e) -> query_progress g seen st -> query_progress g seen' st.
Proof.
  intros Hext (Hnd & Hmem & Hstamp). split; [exact Hnd |]. split; [| exact Hstamp].
  intros e. rewrite Hmem. apply Hext.
Qed.

Lemma query_cell_progress (g : Hash.Grid T) (seen : T -> Prop) st c :
  hash_inv g -> stamps_fresh g ->
  query_progress g seen st ->
  query_progress g (fun e => seen e \/ e ∈ bucket (Hash.cells g) (encode_cell c))
    (Hash.query_cell g (Int.to_uint64 (Hash.gen g + 1)) c.2 st c.1).
Proof.
  intros Hinv Hfresh Hst. unfold Hash.query_cell, encode_cell, bucket.
  destruct (Hash.cells g !! Hash.EncodeGridKey c.1 c.2) as [its |] eqn:Hk; simpl.
  - assert (forall x, x ∈ its -> exists k, x ∈ bucket (Hash.cells g) k) as Hits.
    { intros x Hx. exists (Hash.EncodeGridKey c.1 c.2). by rewrite (bucket_lookup _ _ _ Hk). }
    revert Hits.
    apply (foldl_ind_prefix
             (fun pre st' => (forall x, x ∈ pre -> exists k, x ∈ bucket (Hash.cells g) k) ->
                             query_progress g (fun e => seen e \/ e ∈ pre) st')).
    + intros _. apply (query_progress_ext g seen); [| exact Hst].
      intros e. split; [tauto |]. intros [He | He]; [exact He |].
      by apply not_elem_of_nil in He.
    + intros pre x st' IH Hpre.
      apply (query_progress_ext g (fun e => (seen e \/ e ∈ pre) \/ e = x)).
      * intros e. rewrite elem_of_app, list_elem_of_singleton. tauto.
      * apply visit_progress; try assumption.
        -- apply Hpre. apply elem_of_app. right. left.
        -- apply IH. intros y Hy. apply Hpre. apply elem_of_app. by left.
  - apply (query_progress_ext g seen); [| exact Hst].
    intros e. split; [tauto |]. intros [He | He]; [exact He |].
    by apply not_elem_of_nil in He.
Qed.

Lemma query_state_exact (g : Hash.Grid T) minX minY maxX maxY x0 y0 x1 y1 :
  hash_inv g -> stamps_fresh g ->
  Hash.cellRange g minX minY maxX maxY = (x0, y0, x1, y1) ->
  NoDup (query_state g minX minY maxX maxY).2 /\
  forall e, e ∈ (query_state g minX minY maxX maxY).2
            <-> exists cx cy, x0 <= cx < x1 /\ y0 <= cy < y1 /\
                              e ∈ bucket (Hash.cells g) (Hash.EncodeGridKey cx cy).
Proof.
  intros Hinv Hfresh Hr. unfold query_state. rewrite Hr.
  assert (query_progress g
            (fun e => exists c, c ∈ row_major x0 y0 x1 y1 /\
                                e ∈ bucket (Hash.cells g) (encode_cell c))
            (foldl (fun st c => Hash.query_cell g (Int.to_uint64 (Hash.gen g + 1)) c.2 st c.1)
               (Hash.items g, []) (row_major x0 y0 x1 y1))) as (Hnd & Hmem & _).
  { apply (foldl_ind_prefix
             (fun pre st => query_progress g
                              (fun e => exists c, c ∈ pre /\
                                                  e ∈ bucket (Hash.cells g) (encode_cell c))
                              st)).
    - split; [apply NoDup_nil_2 |]. split.
      + intros e. simpl. split; [intros He; by apply not_elem_of_nil in He |].
        intros (c & Hc & _). by apply not_elem_of_nil in Hc.
      + intros e. cbn [fst snd]. rewrite decide_False; [reflexivity | apply not_elem_of_nil].
    - intros pre c st IH.
      apply (query_progress_ext g
               (fun e => (exists c', c' ∈ pre /\ e ∈ bucket (Hash.cells g) (encode_cell c'))
                         \/ e ∈ bucket (Hash.cells g) (encode_cell c))).
      + intros e. split.
        * intros [(c' & Hc' & He) | He].
          -- exists c'. split; [apply elem_of_app; by left | exact He].
          -- exists c. split; [apply elem_of_app; right; left | exact He].
        * intros (c' & Hc' & He). apply elem_of_app in Hc' as [Hc' | Hc'].
          -- left. eauto.
          -- apply list_elem_of_singleton in Hc'. subst c'. by right.
      + by apply query_cell_progress. }
  split; [exact Hnd |]. intros e. rewrite Hmem. split.
  - intros ([cx cy] & Hc & He). apply elem_of_row_major in Hc. exists cx, cy. tauto.
  - intros (cx & cy & Hx & Hy & He). exists (cx, cy). split; [| exact He].
    apply elem_of_row_major. tauto.
Qed.

Lemma stamps_bounded_fresh (n : Z) (g : Hash.Grid T) :
  stamps_bounded n g -> n + 1 < 2 ^ 64 -> stamps_fresh g.
Proof.
  intros [Hgen Hstamps] Hn e s Hs. specialize (Hstamps e s Hs).
  unfold Int.to_uint64. rewrite Z.mod_small by lia. lia.
Qed.

Lemma stamps_bounded_step (n : Z) (g : Hash.Grid T) (o : hash_op) :
  stamps_bounded n g -> n + 1 < 2 ^ 64 -> stamps_bounded (n + 1) (hash_step g o).
Proof.
  intros [Hgen Hstamps] Hn.
  assert (forall item minX minY maxX maxY padding fn,
             stamps_bounded (n + 1) (Hash.insert g item minX minY maxX maxY padding fn).2)
    as Hins.
  { intros item minX minY maxX maxY padding fn. destruct (Hash.Contains g item) eqn:Hc.
    - unfold Hash.insert. rewrite Hc. simpl. split; [lia | exact Hstamps].
    - rewrite insert_unfold by assumption. simpl. split; simpl; [lia |].
      intros e s. destruct (decide (item = e)) as [<- | Hne].
      + rewrite lookup_insert_eq. intros [= <-]. lia.
      + rewrite lookup_insert_ne by assumption. apply Hstamps. }
  destruct o; simpl.
  - apply Hins.
  - apply Hins.
  - unfold Hash.Remove. destruct (Hash.Contains g item); simpl.
    + split; simpl; [lia |]. intros e s Hs. apply lookup_delete_Some in Hs as [_ Hs].
      exact (Hstamps e s Hs).
    + split; [lia | exact Hstamps].
  - rewrite Query_unfold. simpl.
    assert (Int.to_uint64 (Hash.gen g + 1) = Hash.gen g + 1) as Hgen'
      by (unfold Int.to_uint64; rewrite Z.mod_small; lia).
    split; simpl; [lia |]. intros e s Hs. rewrite Hgen'.
    destruct (decide ((query_state g minX minY maxX maxY).1 !! e = Hash.items g !! e))
      as [Heq | Hne].
    + rewrite Heq in Hs. specialize (Hstamps e s Hs). lia.
    + destruct (query_state_touches g minX minY maxX maxY e Hne) as [_ Hnew].
      rewrite Hnew, Hgen' in Hs. injection Hs as <-. lia.
  - split; simpl; [lia |]. intros e s Hs. by rewrite lookup_empty in Hs.
  - unfold Hash.Resize.
    destruct (F32.eqb (Hash.cellWidth g) cellWidth && F32.eqb (Hash.cellHeight g) cellHeight).
    + split; [lia | exact Hstamps].
    + split; simpl; [lia |]. intros e s Hs. by rewrite lookup_empty in Hs.
Qed.

Lemma stamps_bounded_run (n : Z) (g : Hash.Grid T) (ops : list hash_op) :
  stamps_bounded n g -> n + Z.of_nat (length ops) < 2 ^ 64 ->
  stamps_bounded (n + Z.of_nat (length ops)) (hash_run g ops).
Proof.
  unfold hash_run. revert n g. induction ops as [| o ops IH]; intros n g Hb Hn.
  - simpl. by rewrite Z.add_0_r.
  - cbn [foldl length] in *.
    replace (n + Z.of_nat (S (length ops))) with (n + 1 + Z.of_nat (length ops)) in * by lia.
    apply IH; [| exact Hn]. apply stamps_bounded_step; [exact Hb | lia].
Qed.

(** On a grid reached by fewer than [2^64 - 1] operations, [Query] returns
    no entry twice, and returns exactly the entries that have one of
    their recorded cells in the half-open cell range of the rectangle. *)
Lemma hash_query_exactly_once (cw ch : float32) (g0 : Hash.Grid T) (ops : list hash_op)
    (minX minY maxX maxY : float32) (x0 y0 x1 y1 : Z) :
  Hash.NewGrid cw ch = Returned g0 ->
  Z.of_nat (length ops) < 2 ^ 64 - 1 ->
  let g := hash_run g0 ops in
  Hash.cellRange g minX minY maxX maxY = (x0, y0, x1, y1) ->
  let r := (Hash.Query g minX minY maxX maxY).1 in
  NoDup r /\
  forall e, e ∈ r <-> exists cx cy K, x0 <= cx < x1 /\ y0 <= cy < y1 /\
                                     Hash.itemCells g !! e = Some K /\
                                     Hash.EncodeGridKey cx cy ∈ K.
Proof.
  intros Hnew Hlen g Hr r.
  assert (hash_inv g) as Hinv by (by apply (hash_reachable_inv cw ch)).
  assert (stamps_fresh g) as Hfresh.
  { apply (stamps_bounded_fresh (0 + Z.of_nat (length ops))); [| lia].
    apply stamps_bounded_run; [| lia].
    unfold Hash.NewGrid in Hnew. injection Hnew as <-. split; simpl; [lia |].
    intros e s Hs. by rewrite lookup_empty in Hs. }
  subst r. rewrite Query_unfold. simpl.
  destruct (query_state_exact g minX minY maxX maxY x0 y0 x1 y1 Hinv Hfresh Hr) as [Hnd Hmem].
  split; [exact Hnd |]. intros e. rewrite Hmem. split.
  - intros (cx & cy & Hx & Hy & He).
    destruct (inv_indexed _ _ (hash_index _ Hinv) _ e He) as (K & HK & Hk).
    exists cx, cy, K. tauto.
  - intros (cx & cy & K & Hx & Hy & HK & Hk). exists cx, cy.
    split; [exact Hx |]. split; [exact Hy |].
    by apply (index_inv_member _ _ e K _ (hash_index _ Hinv) HK).
Qed.

End QueryResult.

(** ** Worked examples *)

Lemma hash_NewGrid_64 : Hash.NewGrid (f32 64) (f32 64) = Returned hash_grid_64.
Proof. reflexivity. Qed.

Lemma hashgrid_New_64 : HashGrid.New (f32 64) = Returned hashgrid_64.
Proof. reflexivity. Qed.

Lemma hashgrid_rev_New_64 : HashGridRev.New (f32 64) = Returned hashgrid_rev_64.
Proof. reflexivity. Qed.

(** Example 1 of the specification on [src/hash/grid.go]. *)
Lemma hash_example_1 :
  (Hash.Query (P := amd64) hash_grid_A (f32 0) (f32 0) (f32 50) (f32 50)).1 = [entry_A] /\
  (Hash.Query (P := amd64) hash_grid_A (f32 1000) (f32 1000) (f32 1100) (f32 1100)).1 = [].
Proof. split; vm_compute; reflexivity. Qed.

(** Example 2 of the specification on [src/hash/grid.go]: an entry over a
    block of four by four cells is returned once. *)
Lemma hash_example_2 :
  let g := (Hash.Insert (P := amd64) hash_grid_64 entry_A (f32 0) (f32 0) (f32 200) (f32 200)
              Hash.NoGridPadding).2 in
  length (default [] (Hash.itemCells g !! entry_A)) = 16%nat /\
  (Hash.Query (P := amd64) g (f32 90) (f32 90) (f32 110) (f32 110)).1 = [entry_A] /\
  (Hash.Query (P := amd64) g (f32 0) (f32 0) (f32 200) (f32 200)).1 = [entry_A].
Proof. repeat split; vm_compute; reflexivity. Qed.

(** C1: Example 1 of the specification run on [src/hashgrid/grid.go]:
    with cell size 64, [GetKeys] of the box [[0,0,32,32]] is the empty
    list (its [endX] is [int32(32/64) - 1 = -1]), so [Insert] stores [A] in
    no bucket and [Query([0,0,50,50])] returns the empty result, where the
    specification has [[A]]. *)
Theorem hashgrid_example_1_loses_entry :
  HashGrid.New (f32 64) = Returned hashgrid_64 /\
  HashGrid.GetKeys (P := amd64) (E := boxes 0 0 32 32) hashgrid_64 entry_A = Some [] /\
  HashGrid.Insert (P := amd64) (E := boxes 0 0 32 32) hashgrid_64 entry_A = Some hashgrid_64 /\
  HashGrid.Query (P := amd64) (E := boxes 0 0 32 32) hashgrid_64
    (f32 0) (f32 0) (f32 50) (f32 50) = Some [].
Proof. repeat split; vm_compute; reflexivity. Qed.

(** The same defect away from the origin: of the box [[0,0,100,100]] only
    cell [(0,0)] is claimed, and a query inside the box but in cell
    [(1,1)] misses the entry. *)
Lemma hashgrid_drops_last_cells :
  let g := hashgrid_with (boxes 0 0 100 100) entry_A in
  HashGrid.Keys g = [HashGrid.EncodeGridKey 0 0] /\
  HashGrid.Query (P := amd64) (E := boxes 0 0 100 100) g
    (f32 70) (f32 70) (f32 90) (f32 90) = Some [].
Proof. split; vm_compute; reflexivity. Qed.

(** Example 1 on the two sibling generations of [hashgrid]: both return
    the entry. *)
Lemma hashgrid_siblings_example_1 :
  (HashGridRev.Query (P := amd64)
     (HashGridRev.Insert (P := amd64) (E := boxes 0 0 32 32) hashgrid_rev_64 entry_A).2
     (f32 0) (f32 0) (f32 50) (f32 50)).1 = [entry_A] /\
  (g ← HashGridV1.Insert (P := amd64) (E := boxes 0 0 32 32) hashgrid_v1_64 entry_A;
   HashGridV1.Query (P := amd64) (E := boxes 0 0 32 32) g (f32 0) (f32 0) (f32 50) (f32 50))
  = Some [entry_A].
Proof. split; vm_compute; reflexivity. Qed.

(** *** Where the specification fails as stated *)

(** C2 as stated fails: after an insertion whose predicate rejects every
    cell the entry is in the reverse index and in no bucket, so the third
    invariant of the specification does not hold. *)
Lemma rejected_entry_breaks_agreement :
  ~ (forall ops : list hash_op, spec_invariants (hash_run (P := amd64) hash_grid_64 ops)).
Proof.
  intros Hall. destruct (Hall ops_rejected) as (_ & _ & Hagree).
  destruct (Hagree entry_A) as [Hto _].
  destruct Hto as [k Hk]; [exists []; vm_compute; reflexivity |].
  assert (Hash.cells (hash_run (P := amd64) hash_grid_64 ops_rejected) = ∅) as Hcells
    by (vm_compute; reflexivity).
  rewrite Hcells in Hk. unfold bucket in Hk. rewrite lookup_empty in Hk.
  by apply not_elem_of_nil in Hk.
Qed.

(** C4 as stated fails on [src/hashgrid/grid.go]: a second [Insert] of the
    same identity, whose box has moved meanwhile, adds it to further
    buckets. *)
Lemma hashgrid_second_insert_changes_state :
  ~ (forall (E E' : GridEntry nat) (g g1 g2 : HashGrid.Grid nat) (entry : nat),
        HashGrid.Insert (P := amd64) (E := E) g entry = Some g1 ->
        HashGrid.Insert (P := amd64) (E := E') g1 entry = Some g2 ->
        g2 = g1).
Proof.
  intros Hall.
  pose (g1 := hashgrid_with (boxes 0 0 64 64) entry_A).
  pose (g2 := default hashgrid_64
                (HashGrid.Insert (P := amd64) (E := boxes 128 128 192 192) g1 entry_A)).
  assert (g2 = g1) as Heq.
  { apply (Hall (boxes 0 0 64 64) (boxes 128 128 192 192) hashgrid_64 g1 g2 entry_A);
      vm_compute; reflexivity. }
  apply (f_equal (fun g => bucket (HashGrid.cells g) (HashGrid.EncodeGridKey 2 2))) in Heq.
  vm_compute in Heq. discriminate.
Qed.

(** C6 as stated fails on [Query] of [src/hashgrid/grid.go]: for the
    rectangle [[0,0,64,64]] and cell size 64 the half-open range of floor
    and ceiling is the single cell [(0,0)], but the query returns an entry
    that is stored in cell [(1,1)] only. *)
Lemma hashgrid_query_visits_next_cell :
  ~ (forall (E : GridEntry nat) (g : HashGrid.Grid nat) (minX minY maxX maxY : float32)
            (r : list nat) (e : nat),
        HashGrid.Query (P := amd64) (E := E) g minX minY maxX maxY = Some r ->
        e ∈ r ->
        exists cx cy,
          F32.floor_int32 (P := amd64) (F32.div minX (HashGrid.cellSize g)) <= cx
            < F32.ceil_int32 (P := amd64) (F32.div maxX (HashGrid.cellSize g)) /\
          F32.floor_int32 (P := amd64) (F32.div minY (HashGrid.cellSize g)) <= cy
            < F32.ceil_int32 (P := amd64) (F32.div maxY (HashGrid.cellSize g)) /\
          e ∈ bucket (HashGrid.cells g) (HashGrid.EncodeGridKey cx cy)).
Proof.
  intros Hall.
  pose (g := hashgrid_with (boxes 64 64 128 128) entry_A).
  destruct (Hall (boxes 64 64 128 128) g (f32 0) (f32 0) (f32 64) (f32 64) [entry_A] entry_A)
    as (cx & cy & Hx & Hy & Hin).
  - vm_compute. reflexivity.
  - left.
  - assert (cx = 0) as -> by (vm_compute in Hx; destruct Hx as [Hlo Hhi];
                              destruct cx; [reflexivity | | ]; try (exfalso; by apply Hlo);
                              destruct p; discriminate).
    assert (cy = 0) as -> by (vm_compute in Hy; destruct Hy as [Hlo Hhi];
                              destruct cy; [reflexivity | | ]; try (exfalso; by apply Hlo);
                              destruct p; discriminate).
    vm_compute in Hin. inversion Hin.
Qed.

(** C7 as stated fails on [src/hashgrid/grid.go]: [Remove] recomputes the
    keys from the box the entry has now, and leaves the entry in the bucket
    it was inserted into when the box has moved. *)
Lemma hashgrid_remove_misses_moved_entry :
  ~ (forall (E E' : GridEntry nat) (g g1 g2 : HashGrid.Grid nat) (entry : nat),
        HashGrid.Insert (P := amd64) (E := E) g entry = Some g1 ->
        HashGrid.Remove (P := amd64) (E := E') g1 entry = Some g2 ->
        forall k, entry ∉ bucket (HashGrid.cells g2) k).
Proof.
  intros Hall.
  pose (g1 := hashgrid_with (boxes 0 0 64 64) entry_A).
  pose (g2 := default hashgrid_64
                (HashGrid.Remove (P := amd64) (E := boxes 128 128 192 192) g1 entry_A)).
  apply (Hall (boxes 0 0 64 64) (boxes 128 128 192 192) hashgrid_64 g1 g2 entry_A
           ltac:(vm_compute; reflexivity) ltac:(vm_compute; reflexivity)
           (HashGrid.EncodeGridKey 0 0)).
  vm_compute. left.
Qed.

(** The same on [src/unnamed/part_001]. *)
Lemma hashgrid_v1_remove_misses_moved_entry :
  exists g1 g2 : HashGridV1.Grid nat,
    HashGridV1.Insert (P := amd64) (E := boxes 0 0 64 64) hashgrid_v1_64 entry_A = Some g1 /\
    HashGridV1.Remove (P := amd64) (E := boxes 128 128 192 192) g1 entry_A = Some g2 /\
    entry_A ∈ bucket (HashGridV1.cells g2) (HashGridV1.NewGridKey 0 0).
Proof.
  eexists. eexists. split; [vm_compute; reflexivity |].
  split; [vm_compute; reflexivity |]. vm_compute. left.
Qed.

(** C8 as stated fails on [src/hash/grid.go]: [NewGrid(0, 0)] returns a
    grid. *)
Lemma hash_NewGrid_accepts_zero :
  ~ (forall c : float32,
        F32.leb c F32.zero = true ->
        exists msg, Hash.NewGrid (T := nat) c c = Panicked msg).
Proof.
  intros Hall. destruct (Hall F32.zero) as [msg Hmsg]; [reflexivity |].
  discriminate Hmsg.
Qed.

(** *** The theorems at concrete inputs *)

Lemma in_int32_small z : - 1000 <= z <= 1000 -> Int.in_int32 z.
Proof. unfold Int.in_int32, Int.min_int32, Int.max_int32. lia. Qed.

Lemma hash_invariants_witness :
  Hash.NewGrid (f32 64) (f32 64) = Returned hash_grid_64 /\
  grid_invariants (hash_run (P := amd64) hash_grid_64 ops_rejected).
Proof.
  split; [reflexivity |].
  pose proof (hash_invariants_after_every_operation (P := amd64)
                (f32 64) (f32 64) hash_grid_64 ops_rejected eq_refl) as [Hinv _].
  exact Hinv.
Defined.

Lemma remove_is_complete_witness :
  (Hash.Contains (hash_run (P := amd64) hash_grid_64 ops_A) entry_A = true /\
   Hash.Contains (Hash.Remove (hash_run (P := amd64) hash_grid_64 ops_A) entry_A) entry_A
   = false) /\
  (is_Some (HashGridRev.cellKeys (rev_run (P := amd64) hashgrid_rev_64 rev_ops_A) !! entry_A) /\
   HashGridRev.cellKeys
     (HashGridRev.Remove (rev_run (P := amd64) hashgrid_rev_64 rev_ops_A) entry_A) !! entry_A
   = None).
Proof.
  destruct (remove_is_complete (T := nat) (P := amd64)) as [Hhash Hrev].
  split.
  - assert (Hash.Contains (hash_run (P := amd64) hash_grid_64 ops_A) entry_A = true) as Hc
      by (vm_compute; reflexivity).
    split; [exact Hc |].
    exact (proj1 (Hhash (f32 64) (f32 64) hash_grid_64 ops_A entry_A eq_refl Hc)).
  - assert (is_Some (HashGridRev.cellKeys (rev_run (P := amd64) hashgrid_rev_64 rev_ops_A)
                       !! entry_A)) as Hc
      by (eexists; vm_compute; reflexivity).
    split; [exact Hc |].
    exact (proj1 (Hrev (f32 64) hashgrid_rev_64 rev_ops_A entry_A eq_refl Hc)).
Defined.

Lemma remove_follows_recorded_keys_witness :
  (Hash.itemCells (hash_run (P := amd64) hash_grid_64 ops_A) !! entry_A
   = Some [Hash.EncodeGridKey 0 0] /\
   forall k, entry_A ∉ bucket
               (Hash.cells (Hash.Remove (hash_run (P := amd64) hash_grid_64 ops_A) entry_A)) k) /\
  (HashGridRev.cellKeys (rev_run (P := amd64) hashgrid_rev_64 rev_ops_A) !! entry_A
   = Some [HashGridRev.EncodeGridKey 0 0] /\
   forall k, entry_A ∉ bucket
               (HashGridRev.cells
                  (HashGridRev.Remove (rev_run (P := amd64) hashgrid_rev_64 rev_ops_A) entry_A))
               k) /\
  (let g := hashgrid_with (boxes 0 0 128 128) entry_A in
   let g' := default g (HashGrid.Remove (P := amd64) (E := boxes 0 0 64 64) g entry_A) in
   HashGrid.GetKeys (P := amd64) (E := boxes 0 0 64 64) g entry_A
   = Some [HashGrid.EncodeGridKey 0 0] /\
   HashGrid.Remove (P := amd64) (E := boxes 0 0 64 64) g entry_A = Some g' /\
   (HashGrid.EncodeGridKey 1 1 ∉ [HashGrid.EncodeGridKey 0 0]) /\
   HashGrid.cells g' !! HashGrid.EncodeGridKey 1 1
   = HashGrid.cells g !! HashGrid.EncodeGridKey 1 1).
Proof.
  destruct (remove_follows_recorded_keys (T := nat) (P := amd64))
    as (Hhash & Hrev & Hgrid & _).
  split; [| split].
  - assert (Hash.itemCells (hash_run (P := amd64) hash_grid_64 ops_A) !! entry_A
            = Some [Hash.EncodeGridKey 0 0]) as HK by (vm_compute; reflexivity).
    split; [exact HK |].
    exact (proj1 (proj2 (proj2 (proj2
             (Hhash (f32 64) (f32 64) hash_grid_64 ops_A entry_A _ eq_refl HK))))).
  - assert (HashGridRev.cellKeys (rev_run (P := amd64) hashgrid_rev_64 rev_ops_A) !! entry_A
            = Some [HashGridRev.EncodeGridKey 0 0]) as HK by (vm_compute; reflexivity).
    split; [exact HK |].
    exact (proj2 (proj2 (proj2
             (Hrev (f32 64) hashgrid_rev_64 rev_ops_A entry_A _ eq_refl HK)))).
  - intros g g'.
    assert (HashGrid.GetKeys (P := amd64) (E := boxes 0 0 64 64) g entry_A
            = Some [HashGrid.EncodeGridKey 0 0]) as Hkeys by (vm_compute; reflexivity).
    assert (HashGrid.Remove (P := amd64) (E := boxes 0 0 64 64) g entry_A = Some g') as Hrem
      by (vm_compute; reflexivity).
    assert (HashGrid.EncodeGridKey 1 1 ∉ [HashGrid.EncodeGridKey 0 0]) as Hnin.
    { intros Hin. apply list_elem_of_singleton in Hin. vm_compute in Hin. discriminate. }
    split; [exact Hkeys |]. split; [exact Hrem |]. split; [exact Hnin |].
    exact (Hgrid (boxes 0 0 64 64) g g' entry_A _ Hkeys Hrem _ Hnin).
Defined.

Lemma insert_present_is_noop_witness :
  (Hash.Contains hash_grid_A entry_A = true /\
   Hash.insert (P := amd64) hash_grid_A entry_A (f32 500) (f32 500) (f32 600) (f32 600)
     Hash.GridCellPadding None = (false, hash_grid_A)) /\
  (is_Some (HashGridRev.cellKeys (rev_run (P := amd64) hashgrid_rev_64 rev_ops_A) !! entry_A) /\
   HashGridRev.InsertStrictCheck (P := amd64) (E := boxes 500 500 600 600)
     (rev_run (P := amd64) hashgrid_rev_64 rev_ops_A) entry_A None
   = (false, rev_run (P := amd64) hashgrid_rev_64 rev_ops_A)) /\
  (HashGrid.Insert (P := amd64) (E := boxes 0 0 64 64) hashgrid_64 entry_A
   = Some (hashgrid_with (boxes 0 0 64 64) entry_A) /\
   HashGrid.Insert (P := amd64) (E := boxes 0 0 64 64)
     (hashgrid_with (boxes 0 0 64 64) entry_A) entry_A
   = Some (hashgrid_with (boxes 0 0 64 64) entry_A)).
Proof.
  destruct (insert_present_is_noop (T := nat) (P := amd64))
    as (Hhash & _ & Hrev & _ & Hgrid).
  split; [| split].
  - assert (Hash.Contains hash_grid_A entry_A = true) as Hc by (vm_compute; reflexivity).
    split; [exact Hc |]. by apply Hhash.
  - assert (is_Some (HashGridRev.cellKeys (rev_run (P := amd64) hashgrid_rev_64 rev_ops_A)
                       !! entry_A)) as Hc
      by (eexists; vm_compute; reflexivity).
    split; [exact Hc |]. by apply Hrev.
  - assert (HashGrid.Insert (P := amd64) (E := boxes 0 0 64 64) hashgrid_64 entry_A
            = Some (hashgrid_with (boxes 0 0 64 64) entry_A)) as Hi
      by (vm_compute; reflexivity).
    split; [exact Hi |]. exact (Hgrid _ _ _ _ Hi).
Defined.

Lemma cell_range_witness :
  Hash.cellRange (P := amd64) hash_grid_64 (f32 0) (f32 0) (f32 64) (f32 64) = (0, 0, 1, 1) /\
  fits_int32 (F32.floorZ (F32.div (f32 0) (Hash.cellWidth hash_grid_64))) /\
  fits_int32 (F32.ceilZ (F32.div (f32 64) (Hash.cellWidth hash_grid_64))) /\
  is_integer (F32.div (f32 64) (Hash.cellWidth hash_grid_64)) 1 /\
  is_floor (F32.div (f32 0) (Hash.cellWidth hash_grid_64)) 0 /\
  is_ceil (F32.div (f32 64) (Hash.cellWidth hash_grid_64)) 1 /\
  (forall cx cy, (cx, cy) ∈ row_major 0 0 1 1 -> cx < 1) /\
  HashGridRev.computeCellRange (P := amd64) (f32 0) (f32 0) (f32 64) (f32 64) (f32 64)
  = (0, 0, 1, 1) /\
  is_floor (F32.div (f32 0) (f32 64)) 0 /\
  (HashGridRev.GetKeys (P := amd64) (E := boxes 0 0 64 64) hashgrid_rev_64 entry_A None).1
  = (fun c => HashGridRev.EncodeGridKey c.1 c.2) <$> column_major 0 0 1 1 /\
  HashGrid.Query (P := amd64) (E := boxes 64 64 128 128)
    (hashgrid_with (boxes 64 64 128 128) entry_A) (f32 0) (f32 0) (f32 64) (f32 64)
  = Some [entry_A] /\
  exists x y,
    0 <= x <= 1 /\ 0 <= y <= 1 /\
    entry_A ∈ bucket (HashGrid.cells (hashgrid_with (boxes 64 64 128 128) entry_A))
                (HashGrid.EncodeGridKey x y).
Proof.
  destruct (cell_range_floor_ceil_half_open (T := nat) (P := amd64))
    as (Hhash & Hrev & Hkeys & Hquery).
  assert (Hash.cellRange (P := amd64) hash_grid_64 (f32 0) (f32 0) (f32 64) (f32 64)
          = (0, 0, 1, 1)) as Hr by (vm_compute; reflexivity).
  assert (fits_int32 (F32.floorZ (F32.div (f32 0) (Hash.cellWidth hash_grid_64)))) as Hf
    by (exists 0; split; [vm_compute; reflexivity | apply in_int32_small; lia]).
  assert (fits_int32 (F32.ceilZ (F32.div (f32 64) (Hash.cellWidth hash_grid_64)))) as Hc
    by (exists 1; split; [vm_compute; reflexivity | apply in_int32_small; lia]).
  assert (is_integer (F32.div (f32 64) (Hash.cellWidth hash_grid_64)) 1) as Hi
    by (eexists; split; [vm_compute; reflexivity | vm_compute; reflexivity]).
  assert (HashGridRev.computeCellRange (P := amd64) (f32 0) (f32 0) (f32 64) (f32 64) (f32 64)
          = (0, 0, 1, 1)) as Hr' by (vm_compute; reflexivity).
  assert (HashGrid.Query (P := amd64) (E := boxes 64 64 128 128)
            (hashgrid_with (boxes 64 64 128 128) entry_A) (f32 0) (f32 0) (f32 64) (f32 64)
          = Some [entry_A]) as Hq by (vm_compute; reflexivity).
  destruct (Hhash hash_grid_64 _ _ _ _ _ _ _ _ Hr) as (Hx0 & _ & Hx1 & _ & Hedge & _).
  destruct (Hrev _ _ _ _ _ _ _ _ _ Hr') as (Hsx & _).
  repeat (split; [assumption |]).
  split; [exact (Hx0 Hf) |]. split; [exact (Hx1 Hc) |].
  split; [exact (proj2 (Hedge 1 Hc Hi)) |].
  split; [exact Hr' |]. split; [exact (Hsx Hf) |].
  split; [exact (Hkeys (boxes 0 0 64 64) hashgrid_rev_64 entry_A 0 0 1 1 Hr') |].
  split; [exact Hq |].
  exact (Hquery (boxes 64 64 128 128) _ _ _ _ _ [entry_A] entry_A Hq
           ltac:(apply list_elem_of_singleton; reflexivity)).
Defined.

Lemma Resize_witness :
  (F32.eqb (Hash.cellWidth hash_grid_A) (f32 64) && F32.eqb (Hash.cellHeight hash_grid_A) (f32 64)
   = true /\
   Hash.Resize hash_grid_A (f32 64) (f32 64) = hash_grid_A) /\
  (F32.eqb (Hash.cellWidth hash_grid_A) (f32 32) && F32.eqb (Hash.cellHeight hash_grid_A) (f32 32)
   = false /\
   Hash.Contains (Hash.Resize hash_grid_A (f32 32) (f32 32)) entry_A = false).
Proof.
  split.
  - assert (F32.eqb (Hash.cellWidth hash_grid_A) (f32 64)
            && F32.eqb (Hash.cellHeight hash_grid_A) (f32 64) = true) as Hsame
      by (vm_compute; reflexivity).
    split; [exact Hsame |].
    exact (proj1 (Resize_keeps_or_clears hash_grid_A (f32 64) (f32 64)) Hsame).
  - assert (F32.eqb (Hash.cellWidth hash_grid_A) (f32 32)
            && F32.eqb (Hash.cellHeight hash_grid_A) (f32 32) = false) as Hdiff
      by (vm_compute; reflexivity).
    split; [exact Hdiff |].
    destruct (proj2 (Resize_keeps_or_clears hash_grid_A (f32 32) (f32 32)) Hdiff)
      as (_ & _ & _ & _ & _ & _ & Hc & _).
    apply Hc.
Defined.

Lemma nonpositive_cell_size_witness :
  (F32.leb (f32 0) F32.zero = true /\
   HashGrid.New (T := nat) (f32 0) = Panicked "cellSize must be positive") /\
  (F32.leb (f32 (-1)) F32.zero = true /\
   HashGrid.New (T := nat) (f32 (-1)) = Panicked "cellSize must be positive") /\
  (F32.eqb (Hash.cellWidth hash_grid_A) (f32 0) && F32.eqb (Hash.cellHeight hash_grid_A) (f32 0)
   = false /\
   Hash.cellWidth (Hash.Resize hash_grid_A (f32 0) (f32 0)) = f32 0).
Proof.
  destruct (nonpositive_cell_size (T := nat)) as (Hnew & _ & Hresize).
  split; [| split].
  - split; [reflexivity |]. exact (proj1 (proj2 (Hnew (f32 0) 0 eq_refl))).
  - split; [reflexivity |]. exact (proj1 (proj2 (Hnew (f32 (-1)) 0 eq_refl))).
  - assert (F32.eqb (Hash.cellWidth hash_grid_A) (f32 0)
            && F32.eqb (Hash.cellHeight hash_grid_A) (f32 0) = false) as Hdiff
      by (vm_compute; reflexivity).
    split; [exact Hdiff |]. exact (proj1 (Hresize hash_grid_A (f32 0) (f32 0) Hdiff)).
Defined.

(** * Further properties of the code *)

(** ** The key codecs *)

Lemma pack_add u l : 0 <= u < 2 ^ 32 -> 0 <= l < 2 ^ 32 -> pack u l = u * 2 ^ 32 + l.
Proof.
  intros Hu Hl.
  pose proof (pack_shiftr u l Hu Hl) as Hhi. pose proof (pack_low u l Hu Hl) as Hlo.
  rewrite Z.shiftr_div_pow2 in Hhi by lia.
  rewrite (Z.div_mod (pack u l) (2 ^ 32)) by lia. rewrite Hhi, Hlo. lia.
Qed.

Lemma Encode_value x y :
  Int.in_int32 x -> Int.in_int32 y ->
  Hash.EncodeGridKey x y = (x + 2 ^ 31) * 2 ^ 32 + (y + 2 ^ 31).
Proof.
  intros Hx Hy. rewrite Hash_Encode_pack, pack_add by apply biased_range.
  by rewrite !biased_eq.
Qed.

(** X1: every 64-bit key decodes to a pair of [int32] coordinates that
    encodes back to the key, and the decoders of [src/hash/grid.go] and
    [src/hashgrid/grid.go] agree on every key: with C5 the codec is a
    bijection between cells and keys. *)
Theorem decode_then_encode (key : Z) :
  0 <= key < 2 ^ 64 ->
  Int.in_int32 (Hash.DecodeGridKey key).1 /\
  Int.in_int32 (Hash.DecodeGridKey key).2 /\
  Hash.EncodeGridKey (Hash.DecodeGridKey key).1 (Hash.DecodeGridKey key).2 = key /\
  HashGrid.DecodeGridKey key = Hash.DecodeGridKey key /\
  HashGrid.EncodeGridKey (HashGrid.DecodeGridKey key).1 (HashGrid.DecodeGridKey key).2 = key.
Proof.
  intros Hkey.
  assert (0 <= key / 2 ^ 32 < 2 ^ 32) as Hu.
  { split; [apply Z.div_pos; lia |]. apply Z.div_lt_upper_bound; lia. }
  pose proof (Z.mod_pos_bound key (2 ^ 32) ltac:(lia)) as Hl.
  assert (Hash.DecodeGridKey key = (key / 2 ^ 32 - 2 ^ 31, key mod 2 ^ 32 - 2 ^ 31)) as Hdec.
  { unfold Hash.DecodeGridKey, Hash.offset.
    change 0xFFFFFFFF with (Z.ones 32). rewrite Z.land_ones, Z.shiftr_div_pow2 by lia.
    f_equal.
    - revert Hu. generalize (key / 2 ^ 32). intros u Hu.
      unfold Int.to_int32, Int.to_int64, Int.to_uint32. Z.div_mod_to_equations. lia.
    - revert Hl. generalize (key mod 2 ^ 32). intros l Hl.
      unfold Int.to_int32, Int.to_int64, Int.to_uint32. Z.div_mod_to_equations. lia. }
  assert (HashGrid.DecodeGridKey key = (key / 2 ^ 32 - 2 ^ 31, key mod 2 ^ 32 - 2 ^ 31)) as Hdec'.
  { unfold HashGrid.DecodeGridKey, HashGrid.offset.
    rewrite Z.shiftr_div_pow2 by lia. unfold Int.to_uint32 at 2.
    f_equal.
    - revert Hu. generalize (key / 2 ^ 32). intros u Hu.
      unfold Int.to_int32, Int.to_int64, Int.to_uint32. Z.div_mod_to_equations. lia.
    - revert Hl. generalize (key mod 2 ^ 32). intros l Hl.
      unfold Int.to_int32, Int.to_int64. Z.div_mod_to_equations. lia. }
  assert (Int.in_int32 (key / 2 ^ 32 - 2 ^ 31)) as Hx
    by (unfold Int.in_int32, Int.min_int32, Int.max_int32; lia).
  assert (Int.in_int32 (key mod 2 ^ 32 - 2 ^ 31)) as Hy
    by (unfold Int.in_int32, Int.min_int32, Int.max_int32; lia).
  assert (Hash.EncodeGridKey (key / 2 ^ 32 - 2 ^ 31) (key mod 2 ^ 32 - 2 ^ 31) = key) as Henc.
  { rewrite Encode_value by assumption.
    rewrite (Z.div_mod key (2 ^ 32)) at 3 by lia. lia. }
  rewrite Hdec', Hdec. cbn [fst snd].
  split; [exact Hx |]. split; [exact Hy |]. split; [exact Henc |].
  split; [reflexivity |]. rewrite HashGrid_Encode_pack, <- Hash_Encode_pack. exact Henc.
Qed.

Lemma decode_then_encode_witness :
  0 <= 2 ^ 64 - 1 < 2 ^ 64 /\
  Hash.EncodeGridKey (Hash.DecodeGridKey (2 ^ 64 - 1)).1 (Hash.DecodeGridKey (2 ^ 64 - 1)).2
  = 2 ^ 64 - 1.
Proof.
  assert (0 <= 2 ^ 64 - 1 < 2 ^ 64) as Hkey by lia.
  split; [exact Hkey |].
  exact (proj1 (proj2 (proj2 (decode_then_encode (2 ^ 64 - 1) Hkey)))).
Defined.

(** X2: on representable cells the key is
    [(x + 2^31) * 2^32 + (y + 2^31)], a 64-bit value, and comparing keys
    compares cells by column [x] first and row [y] second; the three
    encoders of [src/hash/grid.go], [src/hashgrid/grid.go] and
    [src/unnamed/part_000] compute the same key. *)
Theorem encode_orders_cells (x1 y1 x2 y2 : Z) :
  Int.in_int32 x1 -> Int.in_int32 y1 -> Int.in_int32 x2 -> Int.in_int32 y2 ->
  Hash.EncodeGridKey x1 y1 = (x1 + 2 ^ 31) * 2 ^ 32 + (y1 + 2 ^ 31) /\
  0 <= Hash.EncodeGridKey x1 y1 < 2 ^ 64 /\
  (Hash.EncodeGridKey x1 y1 < Hash.EncodeGridKey x2 y2 <-> x1 < x2 \/ (x1 = x2 /\ y1 < y2)) /\
  (Hash.EncodeGridKey x1 y1 = Hash.EncodeGridKey x2 y2 <-> x1 = x2 /\ y1 = y2) /\
  HashGrid.EncodeGridKey x1 y1 = Hash.EncodeGridKey x1 y1 /\
  HashGridRev.EncodeGridKey x1 y1 = Hash.EncodeGridKey x1 y1.
Proof.
  intros Hx1 Hy1 Hx2 Hy2.
  change (HashGrid.EncodeGridKey x1 y1) with (Hash.EncodeGridKey x1 y1).
  change (HashGridRev.EncodeGridKey x1 y1) with (Hash.EncodeGridKey x1 y1).
  rewrite !Encode_value by assumption.
  unfold Int.in_int32, Int.min_int32, Int.max_int32 in *.
  split; [reflexivity |]. split; [lia |]. split; [| split; [| split]].
  - split; [intros Hlt | intros [Hlt | [-> Hlt]]]; nia.
  - split; [intros Heq | intros [-> ->]]; [| reflexivity]. 
    assert (x1 = x2) by nia. subst. split; [reflexivity | lia].
  - reflexivity.
  - reflexivity.
Qed.

Lemma encode_orders_cells_witness :
  Int.in_int32 (- 1) /\ Int.in_int32 5 /\ Int.in_int32 0 /\ Int.in_int32 (- 7) /\
  (Hash.EncodeGridKey (- 1) 5 < Hash.EncodeGridKey 0 (- 7) <-> - 1 < 0 \/ (- 1 = 0 /\ 5 < - 7)).
Proof.
  assert (Int.in_int32 (- 1)) as H1 by (apply in_int32_small; lia).
  assert (Int.in_int32 5) as H2 by (apply in_int32_small; lia).
  assert (Int.in_int32 0) as H3 by (apply in_int32_small; lia).
  assert (Int.in_int32 (- 7)) as H4 by (apply in_int32_small; lia).
  repeat (split; [assumption |]).
  exact (proj1 (proj2 (proj2 (encode_orders_cells (- 1) 5 0 (- 7) H1 H2 H3 H4)))).
Defined.

(** X3: the key of [src/unnamed/part_001] keeps the low 32 bits of each
    coordinate, without bias: it is injective on [int32] coordinates, but
    cells whose coordinates differ by a multiple of [2^32] share a key, and
    a negative column sorts after every non-negative one. *)
Theorem NewGridKey_low_bits (x y : Z) :
  HashGridV1.NewGridKey x y = (x mod 2 ^ 32) * 2 ^ 32 + y mod 2 ^ 32 /\
  (forall a b, HashGridV1.NewGridKey (x + a * 2 ^ 32) (y + b * 2 ^ 32)
               = HashGridV1.NewGridKey x y) /\
  (forall x' y', Int.in_int32 x -> Int.in_int32 y -> Int.in_int32 x' -> Int.in_int32 y' ->
                 HashGridV1.NewGridKey x y = HashGridV1.NewGridKey x' y' ->
                 x = x' /\ y = y') /\
  (forall x' y', Int.in_int32 x -> Int.in_int32 x' -> x < 0 -> 0 <= x' ->
                 HashGridV1.NewGridKey x' y' < HashGridV1.NewGridKey x y).
Proof.
  assert (forall x y, HashGridV1.NewGridKey x y = (x mod 2 ^ 32) * 2 ^ 32 + y mod 2 ^ 32) as Hval.
  { intros a b. unfold HashGridV1.NewGridKey. fold (pack (Int.to_uint32 a) (Int.to_uint32 b)).
    apply pack_add; unfold Int.to_uint32; apply Z.mod_pos_bound; lia. }
  split; [apply Hval |]. split; [| split].
  - intros a b. rewrite !Hval. by rewrite !Z.mod_add by lia.
  - intros x' y' Hx Hy Hx' Hy'. rewrite !Hval.
    unfold Int.in_int32, Int.min_int32, Int.max_int32 in *. intros Heq.
    pose proof (Z.mod_pos_bound y (2 ^ 32) ltac:(lia)).
    pose proof (Z.mod_pos_bound y' (2 ^ 32) ltac:(lia)).
    pose proof (Z.mod_pos_bound x (2 ^ 32) ltac:(lia)).
    pose proof (Z.mod_pos_bound x' (2 ^ 32) ltac:(lia)).
    assert (x mod 2 ^ 32 = x' mod 2 ^ 32) as Hxm by nia.
    assert (y mod 2 ^ 32 = y' mod 2 ^ 32) as Hym by nia.
    clear Heq. split; Z.div_mod_to_equations; lia.
  - intros x' y' Hx Hx' Hneg Hpos. rewrite !Hval.
    unfold Int.in_int32, Int.min_int32, Int.max_int32 in *.
    pose proof (Z.mod_pos_bound y (2 ^ 32) ltac:(lia)).
    pose proof (Z.mod_pos_bound y' (2 ^ 32) ltac:(lia)).
    assert (x mod 2 ^ 32 = x + 2 ^ 32) as -> by (Z.div_mod_to_equations; lia).
    assert (x' mod 2 ^ 32 = x') as -> by (Z.div_mod_to_equations; lia).
    nia.
Qed.

Lemma NewGridKey_low_bits_witness :
  Int.in_int32 (- 1) /\ Int.in_int32 0 /\ - 1 < 0 /\ 0 <= 0 /\
  HashGridV1.NewGridKey 0 0 < HashGridV1.NewGridKey (- 1) 0.
Proof.
  assert (Int.in_int32 (- 1)) as H1 by (apply in_int32_small; lia).
  assert (Int.in_int32 0) as H2 by (apply in_int32_small; lia).
  split; [exact H1 |]. split; [exact H2 |]. split; [lia |]. split; [lia |].
  exact (proj2 (proj2 (proj2 (NewGridKey_low_bits (- 1) 0))) 0 0 H1 H2 ltac:(lia) ltac:(lia)).
Defined.

(** ** Adding an entry and taking it out again *)

Section AddDrop.
Context {T : Type} `{Countable T}.

Lemma add_to_cells_lookup_notin (e : T) (cs : gmap Z (list T)) (keys : list Z) (k : Z) :
  k ∉ keys -> add_to_cells e cs keys !! k = cs !! k.
Proof.
  intros Hk. unfold add_to_cells. apply foldl_lookup_frame; [| exact Hk].
  intros cs' key Hne. by rewrite lookup_insert_ne.
Qed.

Lemma drop_add_cancel (e : T) (cs : gmap Z (list T)) (K : list Z) :
  NoDup K ->
  (forall k b, cs !! k = Some b -> b ≠ []) ->
  (forall k, e ∉ bucket cs k) ->
  drop_from_cells e (add_to_cells e cs K) K = cs.
Proof.
  intros Hnd Hne Hfresh. apply map_eq. intros k. destruct (decide (k ∈ K)) as [Hk | Hk].
  - rewrite drop_from_cells_lookup_in; [| by apply add_to_cells_nonempty | exact Hk].
    rewrite bucket_add_to_cells by exact Hnd. rewrite decide_True by exact Hk.
    unfold without. rewrite filter_app, filter_cons, filter_nil.
    rewrite decide_False by (intros Hx; by apply Hx). rewrite app_nil_r.
    fold (without e (bucket cs k)). rewrite without_not_in by apply Hfresh.
    symmetry. by apply lookup_of_bucket.
  - rewrite drop_from_cells_lookup_notin by exact Hk.
    by apply add_to_cells_lookup_notin.
Qed.

End AddDrop.

(** ** [src/hash/grid.go]: what an insertion does *)

Section HashInsert.
Context {T : Type} `{Countable T} `{Inhabited T} {P : FloatToInt}.
Implicit Types (g : Hash.Grid T) (item e : T).

Lemma elem_of_insert_keys g minX minY maxX maxY padding fn x0 y0 x1 y1 k :
  insert_range g minX minY maxX maxY padding = (x0, y0, x1, y1) ->
  k ∈ insert_keys g minX minY maxX maxY padding fn
  <-> exists cx cy, x0 <= cx < x1 /\ y0 <= cy < y1 /\
                    accepts g fn (cx, cy) = true /\ k = Hash.EncodeGridKey cx cy.
Proof.
  intros Hr. unfold insert_keys. rewrite Hr. rewrite list_elem_of_fmap. split.
  - intros ([cx cy] & -> & Hc).
    apply (list_elem_of_filter (fun c => accepts g fn c = true)) in Hc as [Hacc Hc].
    apply elem_of_row_major in Hc. exists cx, cy. by repeat split; try apply Hc.
  - intros (cx & cy & Hx & Hy & Hacc & ->). exists (cx, cy). split; [reflexivity |].
    apply (list_elem_of_filter (fun c => accepts g fn c = true)). split; [exact Hacc |].
    by apply elem_of_row_major.
Qed.

(** X4: inserting an item that is not in the grid returns [true]; the keys
    recorded for it are, without repetition, the keys of the cells of the
    padded range that the predicate accepts; the item is appended at the
    end of the bucket of each of them; every other bucket, the keys
    recorded for every other item, the generation counter, the cell size
    and the query buffer are as before. *)
Theorem insert_absent_effect g item minX minY maxX maxY padding fn x0 y0 x1 y1 :
  Hash.Contains g item = false ->
  insert_range g minX minY maxX maxY padding = (x0, y0, x1, y1) ->
  let r := Hash.insert g item minX minY maxX maxY padding fn in
  r.1 = true /\
  Hash.Contains r.2 item = true /\
  (exists K, Hash.itemCells r.2 !! item = Some K /\ NoDup K /\
     (forall k, k ∈ K <-> exists cx cy, x0 <= cx < x1 /\ y0 <= cy < y1 /\
                                       accepts g fn (cx, cy) = true /\
                                       k = Hash.EncodeGridKey cx cy) /\
     (forall k, k ∈ K -> bucket (Hash.cells r.2) k = bucket (Hash.cells g) k ++ [item]) /\
     (forall k, k ∉ K -> Hash.cells r.2 !! k = Hash.cells g !! k)) /\
  (forall e, e ≠ item ->
             Hash.itemCells r.2 !! e = Hash.itemCells g !! e /\
             Hash.Contains r.2 e = Hash.Contains g e) /\
  Hash.gen r.2 = Hash.gen g /\ Hash.CellSize r.2 = Hash.CellSize g /\
  Hash.qBuf r.2 = Hash.qBuf g.
Proof.
  intros Hc Hr r. subst r. rewrite insert_unfold by exact Hc. cbn [fst snd].
  split; [reflexivity |]. split.
  { apply Contains_spec. cbn. rewrite lookup_insert_eq. by eexists. }
  split.
  { exists (insert_keys g minX minY maxX maxY padding fn). cbn.
    pose proof (NoDup_insert_keys g minX minY maxX maxY padding fn) as Hnd.
    split; [by rewrite lookup_insert_eq |]. split; [exact Hnd |]. split; [| split].
    - intros k. by apply elem_of_insert_keys.
    - intros k Hk. rewrite bucket_add_to_cells by exact Hnd. by rewrite decide_True.
    - intros k Hk. by apply add_to_cells_lookup_notin. }
  split; [| by repeat split].
  intros e Hne. cbn. split; [by rewrite lookup_insert_ne |].
  unfold Hash.Contains. cbn. by rewrite lookup_insert_ne.
Qed.

Lemma row_major_empty x0 y0 x1 y1 : x1 <= x0 \/ y1 <= y0 -> row_major x0 y0 x1 y1 = [].
Proof.
  intros Hemp. apply elem_of_nil_inv. intros [cx cy] Hc.
  apply elem_of_row_major in Hc. lia.
Qed.

Lemma filter_accepts_None g (L : list (Z * Z)) :
  filter (fun c => accepts g None c = true) L = L.
Proof.
  induction L as [| c L IH]; [reflexivity |].
  rewrite filter_cons, IH. by rewrite decide_True.
Qed.

(** X5: what the padding argument of [Insert] does.  Any value other than
    [GridCellPadding] leaves the cell range of the box as it is.
    [GridCellPadding] widens it by one cell on every side as long as no
    bound sits at the end of [int32]; when the lower bound of the range is
    [math.MinInt32] its decrement wraps to [math.MaxInt32], the loops run
    over no cell, and the item is recorded with no key and stored in no
    bucket.  [Insert] of [src/unnamed/part_002] is [Insert] with
    [NoGridPadding]. *)
Theorem padding_widens_by_one g item minX minY maxX maxY x0 y0 x1 y1 :
  Hash.Contains g item = false ->
  Hash.cellRange g minX minY maxX maxY = (x0, y0, x1, y1) ->
  (forall padding, padding ≠ Hash.GridCellPadding ->
     Hash.itemCells (Hash.Insert g item minX minY maxX maxY padding).2 !! item
     = Some (encode_cell <$> row_major x0 y0 x1 y1)) /\
  (Int.min_int32 < x0 -> Int.min_int32 < y0 -> x1 < Int.max_int32 -> y1 < Int.max_int32 ->
     Hash.itemCells (Hash.Insert g item minX minY maxX maxY Hash.GridCellPadding).2 !! item
     = Some (encode_cell <$> row_major (x0 - 1) (y0 - 1) (x1 + 1) (y1 + 1))) /\
  (x0 = Int.min_int32 \/ y0 = Int.min_int32 ->
     Hash.itemCells (Hash.Insert g item minX minY maxX maxY Hash.GridCellPadding).2 !! item
     = Some [] /\
     Hash.cells (Hash.Insert g item minX minY maxX maxY Hash.GridCellPadding).2
     = Hash.cells g) /\
  HashV1.Insert g item minX minY maxX maxY
  = Hash.Insert g item minX minY maxX maxY Hash.NoGridPadding.
Proof.
  intros Hc Hr. pose proof (cellRange_in_range _ _ _ _ _ _ _ _ _ Hr) as (Hx0 & Hy0 & Hx1 & Hy1).
  unfold Int.in_int32 in *. unfold Hash.Insert.
  split; [| split; [| split]].
  - intros padding Hpad. rewrite insert_unfold by exact Hc. cbn [snd Hash.itemCells Hash.cells].
    rewrite lookup_insert_eq. f_equal. unfold insert_keys, insert_range. rewrite Hr.
    apply Z.eqb_neq in Hpad. rewrite Hpad. by rewrite filter_accepts_None.
  - intros Hx0' Hy0' Hx1' Hy1'. rewrite insert_unfold by exact Hc.
    cbn [snd Hash.itemCells Hash.cells].
    rewrite lookup_insert_eq. f_equal. unfold insert_keys, insert_range. rewrite Hr.
    rewrite Z.eqb_refl. rewrite filter_accepts_None.
    unfold Int.sub32, Int.add32.
    rewrite !to_int32_id by (unfold Int.in_int32; lia). reflexivity.
  - intros Hmin. rewrite insert_unfold by exact Hc. cbn [snd Hash.itemCells Hash.cells].
    rewrite lookup_insert_eq.
    assert (insert_keys g minX minY maxX maxY Hash.GridCellPadding None = []) as ->.
    { unfold insert_keys, insert_range. rewrite Hr. rewrite Z.eqb_refl.
      rewrite row_major_empty; [reflexivity |].
      pose proof (to_int32_in_range (x1 + 1)) as Hx1'.
      pose proof (to_int32_in_range (y1 + 1)) as Hy1'.
      unfold Int.in_int32 in Hx1', Hy1'. unfold Int.sub32, Int.add32.
      destruct Hmin as [-> | ->]; [left | right].
      - replace (Int.to_int32 (Int.min_int32 - 1)) with Int.max_int32 by reflexivity. lia.
      - replace (Int.to_int32 (Int.min_int32 - 1)) with Int.max_int32 by reflexivity. lia. }
    split; reflexivity.
  - unfold HashV1.Insert, Hash.insert. destruct (Hash.Contains g item); [reflexivity |].
    rewrite Hr. reflexivity.
Qed.

(** X6: on a grid reached from a new one, inserting an absent item and
    removing it again gives back the grid as it was: every bucket with its
    order, the reverse index, the presence map, the generation counter and
    the query buffer. *)
Theorem insert_then_remove (cw ch : float32) (g0 : Hash.Grid T) (ops : list hash_op)
    item minX minY maxX maxY padding fn :
  Hash.NewGrid cw ch = Returned g0 ->
  let g := hash_run g0 ops in
  Hash.Contains g item = false ->
  Hash.Remove (Hash.insert g item minX minY maxX maxY padding fn).2 item = g.
Proof.
  intros Hnew g Hc.
  pose proof (hash_reachable_inv cw ch g0 ops Hnew) as Hinv. fold g in Hinv.
  assert (Hash.items g !! item = None) as Hitems by (by apply Contains_false).
  assert (Hash.itemCells g !! item = None) as Hfresh.
  { apply eq_None_not_Some. rewrite <- (Contains_itemCells g item Hinv). congruence. }
  pose proof (NoDup_insert_keys g minX minY maxX maxY padding fn) as Hnd.
  rewrite insert_unfold by exact Hc. cbn [snd].
  set (K := insert_keys g minX minY maxX maxY padding fn) in *.
  unfold Hash.Remove, Hash.Contains. cbn.
  rewrite !lookup_insert_eq. rewrite bool_decide_eq_true_2 by (by eexists). cbn.
  rewrite !delete_insert_id by assumption.
  assert (foldl (Hash.remove_from_cell item) (add_to_cells item (Hash.cells g) K) K
          = Hash.cells g) as ->; [| by destruct g].
  rewrite (foldl_ext_in _ (drop_from_cell item))
    by (intros; apply remove_from_cell_drop).
  apply drop_add_cancel; [exact Hnd | apply (inv_nonempty _ _ (hash_index _ Hinv)) |].
  intros k. by apply (index_inv_fresh _ _ _ _ (hash_index _ Hinv)).
Qed.

End HashInsert.

Lemma insert_absent_effect_witness :
  Hash.Contains hash_grid_A entry_B = false /\
  insert_range (P := amd64) hash_grid_A (f32 0) (f32 0) (f32 100) (f32 32) Hash.NoGridPadding
  = (0, 0, 2, 1) /\
  (Hash.insert (P := amd64) hash_grid_A entry_B (f32 0) (f32 0) (f32 100) (f32 32)
     Hash.NoGridPadding None).1 = true.
Proof.
  assert (Hash.Contains hash_grid_A entry_B = false) as Hc by (vm_compute; reflexivity).
  assert (insert_range (P := amd64) hash_grid_A (f32 0) (f32 0) (f32 100) (f32 32)
            Hash.NoGridPadding = (0, 0, 2, 1)) as Hr by (vm_compute; reflexivity).
  split; [exact Hc |]. split; [exact Hr |].
  exact (proj1 (insert_absent_effect (P := amd64) hash_grid_A entry_B
                  (f32 0) (f32 0) (f32 100) (f32 32) Hash.NoGridPadding None 0 0 2 1 Hc Hr)).
Defined.

Lemma padding_widens_by_one_witness :
  (Hash.Contains hash_grid_64 entry_A = false /\
   Hash.cellRange (P := amd64) hash_grid_64 (f32 0) (f32 0) (f32 32) (f32 32) = (0, 0, 1, 1) /\
   Hash.itemCells
     (Hash.Insert (P := amd64) hash_grid_64 entry_A (f32 0) (f32 0) (f32 32) (f32 32)
        Hash.GridCellPadding).2 !! entry_A
   = Some (encode_cell <$> row_major (0 - 1) (0 - 1) (1 + 1) (1 + 1))) /\
  (Hash.cellRange (P := amd64) hash_grid_64 (f32 (- 2 ^ 37)) (f32 0) (f32 32) (f32 32)
   = (Int.min_int32, 0, 1, 1) /\
   Hash.itemCells
     (Hash.Insert (P := amd64) hash_grid_64 entry_A (f32 (- 2 ^ 37)) (f32 0) (f32 32) (f32 32)
        Hash.GridCellPadding).2 !! entry_A
   = Some []).
Proof.
  assert (Hash.Contains hash_grid_64 entry_A = false) as Hc by (vm_compute; reflexivity).
  assert (Hash.cellRange (P := amd64) hash_grid_64 (f32 0) (f32 0) (f32 32) (f32 32)
          = (0, 0, 1, 1)) as Hr by (vm_compute; reflexivity).
  assert (Hash.cellRange (P := amd64) hash_grid_64 (f32 (- 2 ^ 37)) (f32 0) (f32 32) (f32 32)
          = (Int.min_int32, 0, 1, 1)) as Hr' by (vm_compute; reflexivity).
  split.
  - split; [exact Hc |]. split; [exact Hr |].
    apply (proj1 (proj2 (padding_widens_by_one (P := amd64) hash_grid_64 entry_A
                           (f32 0) (f32 0) (f32 32) (f32 32) 0 0 1 1 Hc Hr)));
      unfold Int.min_int32, Int.max_int32; lia.
  - split; [exact Hr' |].
    apply (proj1 (proj2 (proj2 (padding_widens_by_one (P := amd64) hash_grid_64 entry_A
                                  (f32 (- 2 ^ 37)) (f32 0) (f32 32) (f32 32)
                                  Int.min_int32 0 1 1 Hc Hr')))).
    by left.
Defined.

Lemma insert_then_remove_witness :
  Hash.NewGrid (f32 64) (f32 64) = Returned hash_grid_64 /\
  Hash.Contains (hash_run (P := amd64) hash_grid_64 ops_A) entry_B = false /\
  Hash.Remove
    (Hash.insert (P := amd64) (hash_run (P := amd64) hash_grid_64 ops_A) entry_B
       (f32 0) (f32 0) (f32 100) (f32 100) Hash.GridCellPadding None).2 entry_B
  = hash_run (P := amd64) hash_grid_64 ops_A.
Proof.
  assert (Hash.Contains (hash_run (P := amd64) hash_grid_64 ops_A) entry_B = false) as Hc
    by (vm_compute; reflexivity).
  split; [reflexivity |]. split; [exact Hc |].
  exact (insert_then_remove (P := amd64) (f32 64) (f32 64) hash_grid_64 ops_A entry_B
           (f32 0) (f32 0) (f32 100) (f32 100) Hash.GridCellPadding None eq_refl Hc).
Defined.

(** ** First occurrences *)

Section FirstOccurrences.
Context {A : Type} `{EqDecision A}.
Implicit Types (l acc : list A) (x : A).

Lemma elem_of_keep_first_fold l acc x : x ∈ foldl keep_first acc l <-> x ∈ acc \/ x ∈ l.
Proof.
  revert acc. induction l as [| y l IH]; intros acc; cbn [foldl].
  - rewrite elem_of_nil. tauto.
  - rewrite IH, elem_of_cons. unfold keep_first. destruct (decide (y ∈ acc)) as [Hy | Hy].
    + split; [tauto |]. intros [Hx | [-> | Hx]]; tauto.
    + rewrite elem_of_app, list_elem_of_singleton. tauto.
Qed.

Lemma NoDup_keep_first_fold l acc : NoDup acc -> NoDup (foldl keep_first acc l).
Proof.
  revert acc. induction l as [| y l IH]; intros acc Hnd; cbn [foldl]; [exact Hnd |].
  apply IH. unfold keep_first. destruct (decide (y ∈ acc)) as [Hy | Hy]; [exact Hnd |].
  apply NoDup_app. split; [exact Hnd |]. split; [| apply NoDup_singleton].
  intros x Hx Hx'. apply list_elem_of_singleton in Hx'. by subst.
Qed.

Lemma keep_first_fold_NoDup l acc : NoDup (acc ++ l) -> foldl keep_first acc l = acc ++ l.
Proof.
  revert acc. induction l as [| y l IH]; intros acc Hnd; cbn [foldl].
  - by rewrite app_nil_r.
  - assert (y ∉ acc) as Hy.
    { apply NoDup_app in Hnd as (_ & Hdisj & _). intros Hin.
      apply (Hdisj y Hin). left. }
    unfold keep_first. rewrite decide_False by exact Hy.
    rewrite IH by (by rewrite <- app_assoc). by rewrite <- app_assoc.
Qed.

Lemma keep_first_fold_present l acc :
  (forall x, x ∈ l -> x ∈ acc) -> foldl keep_first acc l = acc.
Proof.
  revert acc. induction l as [| y l IH]; intros acc Hin; cbn [foldl]; [reflexivity |].
  unfold keep_first. rewrite decide_True by (apply Hin; left).
  apply IH. intros x Hx. apply Hin. by right.
Qed.

Lemma first_occurrences_spec l :
  NoDup (first_occurrences l) /\ forall x, x ∈ first_occurrences l <-> x ∈ l.
Proof.
  unfold first_occurrences. split; [apply NoDup_keep_first_fold, NoDup_nil_2 |].
  intros x. rewrite elem_of_keep_first_fold, elem_of_nil. tauto.
Qed.

End FirstOccurrences.

(** ** [src/hash/grid.go]: the result of [Query] *)

Section HashQuery.
Context {T : Type} `{Countable T} `{Inhabited T} {P : FloatToInt}.
Implicit Types (g : Hash.Grid T) (item e : T).

Lemma reachable_stamps_fresh (cw ch : float32) (g0 : Hash.Grid T) (ops : list hash_op) :
  Hash.NewGrid cw ch = Returned g0 ->
  Z.of_nat (length ops) < 2 ^ 64 - 1 ->
  stamps_fresh (hash_run g0 ops).
Proof.
  intros Hnew Hlen.
  apply (stamps_bounded_fresh (0 + Z.of_nat (length ops))); [| lia].
  apply stamps_bounded_run; [| lia].
  unfold Hash.NewGrid in Hnew. injection Hnew as <-. split; simpl; [lia |].
  intros e s Hs. by rewrite lookup_empty in Hs.
Qed.

Lemma visit_buffer g (seen : T -> Prop) st item :
  hash_inv g -> stamps_fresh g ->
  (exists k, item ∈ bucket (Hash.cells g) k) ->
  query_progress g seen st ->
  (Hash.visit (Int.to_uint64 (Hash.gen g + 1)) st item).2 = keep_first st.2 item.
Proof.
  intros Hinv Hfresh [k Hk] (_ & _ & Hst). unfold Hash.visit, keep_first.
  rewrite Hst. destruct (decide (item ∈ st.2)) as [Hin | Hin].
  - cbn [default]. by rewrite decide_True.
  - destruct (inv_indexed _ _ (hash_index _ Hinv) k item Hk) as (K & HK & _).
    assert (is_Some (Hash.items g !! item)) as [s Hs]
      by (apply (hash_items _ Hinv); by eexists).
    rewrite Hs. cbn [default]. rewrite decide_False by (by apply (Hfresh item)).
    reflexivity.
Qed.

Lemma visit_bucket_buffer g (its : list T) :
  hash_inv g -> stamps_fresh g ->
  (forall x, x ∈ its -> exists k, x ∈ bucket (Hash.cells g) k) ->
  forall st seen,
    query_progress g seen st ->
    (foldl (Hash.visit (Int.to_uint64 (Hash.gen g + 1))) st its).2
    = foldl keep_first st.2 its /\
    exists seen',
      query_progress g seen' (foldl (Hash.visit (Int.to_uint64 (Hash.gen g + 1))) st its).
Proof.
  intros Hinv Hfresh. induction its as [| x its IH]; intros Hin st seen Hst; cbn [foldl].
  - split; [reflexivity | by exists seen].
  - assert (exists k, x ∈ bucket (Hash.cells g) k) as Hx by (apply Hin; left).
    rewrite <- (visit_buffer g seen st x Hinv Hfresh Hx Hst).
    apply (IH (fun y Hy => Hin y (proj2 (elem_of_cons its y x) (or_intror Hy))) _
              (fun e => seen e \/ e = x)).
    by apply visit_progress.
Qed.

Lemma query_cells_buffer g (L : list (Z * Z)) :
  hash_inv g -> stamps_fresh g ->
  forall st seen,
    query_progress g seen st ->
    (foldl (fun st c => Hash.query_cell g (Int.to_uint64 (Hash.gen g + 1)) c.2 st c.1) st L).2
    = foldl keep_first st.2 (candidates encode_cell (Hash.cells g) L) /\
    exists seen',
      query_progress g seen'
        (foldl (fun st c => Hash.query_cell g (Int.to_uint64 (Hash.gen g + 1)) c.2 st c.1) st L).
Proof.
  intros Hinv Hfresh. induction L as [| c L IH]; intros st seen Hst; cbn [foldl].
  - split; [reflexivity | by exists seen].
  - unfold candidates. rewrite bind_cons, foldl_app. fold (candidates encode_cell (Hash.cells g) L).
    assert (Hash.query_cell g (Int.to_uint64 (Hash.gen g + 1)) c.2 st c.1
            = foldl (Hash.visit (Int.to_uint64 (Hash.gen g + 1))) st
                (bucket (Hash.cells g) (encode_cell c))) as ->.
    { unfold Hash.query_cell, bucket, encode_cell.
      by destruct (Hash.cells g !! Hash.EncodeGridKey c.1 c.2). }
    destruct (visit_bucket_buffer g (bucket (Hash.cells g) (encode_cell c)) Hinv Hfresh
                ltac:(by eauto) st seen Hst) as [<- [seen' Hst']].
    by apply (IH _ seen').
Qed.

Lemma query_state_buffer g minX minY maxX maxY x0 y0 x1 y1 :
  hash_inv g -> stamps_fresh g ->
  Hash.cellRange g minX minY maxX maxY = (x0, y0, x1, y1) ->
  (Hash.Query g minX minY maxX maxY).1
  = first_occurrences (candidates encode_cell (Hash.cells g) (row_major x0 y0 x1 y1)).
Proof.
  intros Hinv Hfresh Hr. rewrite Query_unfold. cbn [fst]. unfold query_state. rewrite Hr.
  apply (query_cells_buffer g (row_major x0 y0 x1 y1) Hinv Hfresh (Hash.items g, [])
           (fun _ => False)).
  split; [apply NoDup_nil_2 |]. split.
  - intros e. cbn [snd]. rewrite elem_of_nil. tauto.
  - intros e. cbn [fst snd]. rewrite decide_False; [reflexivity | apply not_elem_of_nil].
Qed.

(** X7: on a grid reached from a new one by fewer than [2^64 - 1]
    operations, the slice [Query] returns is the list of first occurrences
    in the sequence of bucket contents met when the cells of the query
    range are visited row by row: it has no duplicate, its order is the
    order of first encounter, and asking the same query again returns the
    same list. *)
Theorem Query_first_occurrences (cw ch : float32) (g0 : Hash.Grid T) (ops : list hash_op)
    (minX minY maxX maxY : float32) (x0 y0 x1 y1 : Z) :
  Hash.NewGrid cw ch = Returned g0 ->
  Z.of_nat (length ops) < 2 ^ 64 - 2 ->
  let g := hash_run g0 ops in
  Hash.cellRange g minX minY maxX maxY = (x0, y0, x1, y1) ->
  let r := (Hash.Query g minX minY maxX maxY).1 in
  r = first_occurrences (candidates encode_cell (Hash.cells g) (row_major x0 y0 x1 y1)) /\
  NoDup r /\
  (forall e, e ∈ r <-> exists cx cy, x0 <= cx < x1 /\ y0 <= cy < y1 /\
                                     e ∈ bucket (Hash.cells g) (Hash.EncodeGridKey cx cy)) /\
  (Hash.Query (Hash.Query g minX minY maxX maxY).2 minX minY maxX maxY).1 = r.
Proof.
  intros Hnew Hlen g Hr r.
  assert (hash_inv g) as Hinv by (by apply (hash_reachable_inv cw ch)).
  assert (stamps_fresh g) as Hfresh by (apply (reachable_stamps_fresh cw ch); [done | lia]).
  assert (r = first_occurrences
                (candidates encode_cell (Hash.cells g) (row_major x0 y0 x1 y1))) as Hrq
    by (by apply query_state_buffer).
  split; [exact Hrq |].
  destruct (first_occurrences_spec (candidates encode_cell (Hash.cells g) (row_major x0 y0 x1 y1)))
    as [Hnd Hmem].
  split; [by rewrite Hrq |]. split.
  - intros e. rewrite Hrq, Hmem. unfold candidates. rewrite list_elem_of_bind. split.
    + intros ([cx cy] & He & Hc). apply elem_of_row_major in Hc. exists cx, cy. tauto.
    + intros (cx & cy & Hx & Hy & He). exists (cx, cy). split; [exact He |].
      by apply elem_of_row_major.
  - set (g2 := (Hash.Query g minX minY maxX maxY).2).
    assert (g2 = hash_run g0 (ops ++ [OpQuery minX minY maxX maxY])) as Hg2
      by (unfold hash_run; by rewrite foldl_app).
    assert (Hash.cells g2 = Hash.cells g /\
            Hash.cellRange g2 minX minY maxX maxY = (x0, y0, x1, y1))
      as [Hcells Hr2].
    { subst g2. rewrite Query_unfold. cbn [snd]. split; [reflexivity |]. exact Hr. }
    rewrite (query_state_buffer g2 minX minY maxX maxY x0 y0 x1 y1).
    + by rewrite Hcells, Hrq.
    + rewrite Hg2. by apply (hash_reachable_inv cw ch).
    + rewrite Hg2. apply (reachable_stamps_fresh cw ch); [done |].
      rewrite length_app. cbn [length]. lia.
    + exact Hr2.
Qed.

End HashQuery.

Section HashQueryFurther.
Context {T : Type} `{Countable T} `{Inhabited T} {P : FloatToInt}.
Implicit Types (g : Hash.Grid T) (item e : T).

(** X8: after an absent item has been inserted, a query returns it
    exactly when a cell of its padded range that the predicate accepted
    lies in the cell range of the query rectangle; for every other entry
    the query answers as it did before the insertion. *)
Theorem insert_then_Query (cw ch : float32) (g0 : Hash.Grid T) (ops : list hash_op)
    item minX minY maxX maxY padding fn (qminX qminY qmaxX qmaxY : float32)
    (x0 y0 x1 y1 qx0 qy0 qx1 qy1 : Z) :
  Hash.NewGrid cw ch = Returned g0 ->
  Z.of_nat (length ops) < 2 ^ 64 - 2 ->
  let g := hash_run g0 ops in
  Hash.Contains g item = false ->
  insert_range g minX minY maxX maxY padding = (x0, y0, x1, y1) ->
  Hash.cellRange g qminX qminY qmaxX qmaxY = (qx0, qy0, qx1, qy1) ->
  let g' := (Hash.InsertFunc g item minX minY maxX maxY padding fn).2 in
  (item ∈ (Hash.Query g' qminX qminY qmaxX qmaxY).1
   <-> exists cx cy, x0 <= cx < x1 /\ y0 <= cy < y1 /\
                     qx0 <= cx < qx1 /\ qy0 <= cy < qy1 /\
                     accepts g fn (cx, cy) = true) /\
  (forall e, e ≠ item ->
             (e ∈ (Hash.Query g' qminX qminY qmaxX qmaxY).1
              <-> e ∈ (Hash.Query g qminX qminY qmaxX qmaxY).1)).
Proof.
  intros Hnew Hlen g Hc Hr Hq g'.
  assert (hash_inv g) as Hinv by (by apply (hash_reachable_inv cw ch)).
  assert (stamps_fresh g) as Hfresh by (apply (reachable_stamps_fresh cw ch); [done | lia]).
  assert (g' = hash_run g0 (ops ++ [OpInsertFunc item minX minY maxX maxY padding fn])) as Hg'
    by (unfold hash_run; by rewrite foldl_app).
  assert (hash_inv g') as Hinv' by (rewrite Hg'; by apply (hash_reachable_inv cw ch)).
  assert (stamps_fresh g') as Hfresh'.
  { rewrite Hg'. apply (reachable_stamps_fresh cw ch); [done |].
    rewrite length_app. cbn [length]. lia. }
  pose proof (NoDup_insert_keys g minX minY maxX maxY padding fn) as Hnd.
  assert (Hash.cellRange g' qminX qminY qmaxX qmaxY = (qx0, qy0, qx1, qy1)
          /\ forall k, bucket (Hash.cells g') k
                       = if decide (k ∈ insert_keys g minX minY maxX maxY padding fn)
                         then bucket (Hash.cells g) k ++ [item]
                         else bucket (Hash.cells g) k) as [Hq' Hb].
  { subst g'. unfold Hash.InsertFunc. rewrite insert_unfold by exact Hc. cbn [snd].
    split; [exact Hq |]. intros k. cbn [Hash.cells]. by apply bucket_add_to_cells. }
  assert (Hash.itemCells g !! item = None) as Hnone.
  { apply eq_None_not_Some. rewrite <- (Contains_itemCells g item Hinv). congruence. }
  pose proof (cellRange_in_range _ _ _ _ _ _ _ _ _ Hq) as (Hqx0 & Hqy0 & Hqx1 & Hqy1).
  pose proof (insert_range_in_range _ _ _ _ _ _ _ _ _ _ Hr) as (Hx0 & Hy0 & Hx1 & Hy1).
  destruct (query_state_exact g' _ _ _ _ _ _ _ _ Hinv' Hfresh' Hq') as [_ Hmem'].
  destruct (query_state_exact g _ _ _ _ _ _ _ _ Hinv Hfresh Hq) as [_ Hmem].
  rewrite !Query_unfold. cbn [fst]. split.
  - rewrite Hmem'. split.
    + intros (cx & cy & Hcx & Hcy & Hin). rewrite Hb in Hin.
      destruct (decide (Hash.EncodeGridKey cx cy ∈ insert_keys g minX minY maxX maxY padding fn))
        as [Hk | Hk].
      * apply (elem_of_insert_keys g _ _ _ _ _ _ _ _ _ _ _ Hr) in Hk
          as (cx' & cy' & Hcx' & Hcy' & Hacc & Heq).
        apply Hash_Encode_inj in Heq as [-> ->];
          try (unfold Int.in_int32 in *; lia).
        exists cx', cy'. tauto.
      * exfalso. by apply (index_inv_fresh _ _ item _ (hash_index _ Hinv) Hnone) in Hin.
    + intros (cx & cy & Hcx & Hcy & Hqx & Hqy & Hacc). exists cx, cy.
      split; [exact Hqx |]. split; [exact Hqy |]. rewrite Hb.
      rewrite decide_True; [apply elem_of_app; right; left |].
      apply (elem_of_insert_keys g _ _ _ _ _ _ _ _ _ _ _ Hr). exists cx, cy. tauto.
  - intros e Hne. rewrite Hmem', Hmem.
    assert (forall k, e ∈ bucket (Hash.cells g') k <-> e ∈ bucket (Hash.cells g) k) as He.
    { intros k. rewrite Hb. case_decide; [| reflexivity].
      rewrite elem_of_app, list_elem_of_singleton. tauto. }
    split; intros (cx & cy & Hcx & Hcy & Hin); exists cx, cy; by rewrite He in *.
Qed.

(** X9: every returned entry is in the grid, and an entry that has been
    removed is returned by no query. *)
Theorem Query_returns_present_only (cw ch : float32) (g0 : Hash.Grid T) (ops : list hash_op) :
  Hash.NewGrid cw ch = Returned g0 ->
  let g := hash_run g0 ops in
  (forall e minX minY maxX maxY,
      e ∈ (Hash.Query g minX minY maxX maxY).1 -> Hash.Contains g e = true) /\
  (forall e minX minY maxX maxY,
      e ∉ (Hash.Query (Hash.Remove g e) minX minY maxX maxY).1).
Proof.
  intros Hnew g.
  assert (hash_inv g) as Hinv by (by apply (hash_reachable_inv cw ch)).
  assert (forall g1 e minX minY maxX maxY,
             hash_inv g1 -> e ∈ (Hash.Query g1 minX minY maxX maxY).1 ->
             Hash.Contains g1 e = true) as Hpresent.
  { intros g1 e minX minY maxX maxY Hinv1. rewrite Query_unfold. cbn [fst]. intros He.
    destruct (Hash.cellRange g1 minX minY maxX maxY) as [[[x0 y0] x1] y1] eqn:Hr.
    destruct (query_state_sound g1 _ _ _ _ _ _ _ _ Hr e He) as (cx & cy & _ & _ & Hin).
    apply (Contains_itemCells g1 e Hinv1).
    destruct (inv_indexed _ _ (hash_index _ Hinv1) _ e Hin) as (K & HK & _). by eexists. }
  split; [intros e minX minY maxX maxY; by apply Hpresent |].
  intros e minX minY maxX maxY He.
  apply Hpresent in He; [| by apply hash_inv_Remove].
  revert He. unfold Hash.Remove. destruct (Hash.Contains g e) eqn:Hc; cbn [negb].
  - unfold Hash.Contains. cbn. rewrite lookup_delete_eq.
    rewrite bool_decide_eq_false_2; [discriminate |]. by intros [? ?].
  - congruence.
Qed.

(** X10: when the generation counter is at its largest value the
    increment of [Query] wraps to zero, the stamp [Insert] gives; an entry
    that still carries the stamp zero is then taken for already returned,
    and this one query leaves it out whatever its cells. *)
Theorem Query_at_last_generation g e minX minY maxX maxY :
  Hash.gen g = 2 ^ 64 - 1 ->
  Hash.items g !! e = Some 0 ->
  Hash.gen (Hash.Query g minX minY maxX maxY).2 = 0 /\
  e ∉ (Hash.Query g minX minY maxX maxY).1.
Proof.
  intros Hgen Hstamp. rewrite Query_unfold. cbn [fst snd Hash.gen].
  assert (Int.to_uint64 (Hash.gen g + 1) = 0) as Hzero by (rewrite Hgen; reflexivity).
  split; [exact Hzero |].
  unfold query_state. destruct (Hash.cellRange g minX minY maxX maxY) as [[[x0 y0] x1] y1].
  rewrite Hzero.
  apply (foldl_preserves (fun st => st.1 !! e = Some 0 /\ e ∉ st.2)); [| split].
  - intros st c _ Hst. unfold Hash.query_cell.
    destruct (Hash.cells g !! Hash.EncodeGridKey c.1 c.2) as [its |]; [| exact Hst].
    apply (foldl_preserves (fun st => st.1 !! e = Some 0 /\ e ∉ st.2)); [| exact Hst].
    intros st' item _ [Hs Hnin]. unfold Hash.visit.
    destruct (decide (default 0 (st'.1 !! item) = 0)) as [Hd | Hd]; [by split |].
    assert (item ≠ e) as Hne by (intros ->; rewrite Hs in Hd; by apply Hd).
    cbn [fst snd]. split; [by rewrite lookup_insert_ne |].
    rewrite not_elem_of_app, list_elem_of_singleton. split; [exact Hnin | congruence].
  - exact Hstamp.
  - apply not_elem_of_nil.
Qed.

Lemma QueryCells_loop (cs : gmap Z (list T)) (L : list (Z * Z)) (acc : list Z) :
  foldl (fun acc c =>
           if bool_decide (is_Some (cs !! Hash.EncodeGridKey c.1 c.2))
           then acc ++ [Hash.EncodeGridKey c.1 c.2] else acc) acc L
  = acc ++ filter (fun k => is_Some (cs !! k)) (encode_cell <$> L).
Proof.
  revert acc. induction L as [| c L IH]; intros acc; cbn [foldl fmap list_fmap].
  - by rewrite filter_nil, app_nil_r.
  - rewrite IH, filter_cons. unfold encode_cell at 2 3.
    destruct (decide (is_Some (cs !! Hash.EncodeGridKey c.1 c.2))) as [Hs | Hs].
    + rewrite bool_decide_eq_true_2 by exact Hs. by rewrite <- app_assoc.
    + by rewrite bool_decide_eq_false_2 by exact Hs.
Qed.

(** X11: [QueryCells] returns, row by row and without repetition, the keys
    of the cells of the query range that have a bucket; each of them is
    among [Cells]; and when it returns nothing, [Query] over the same
    rectangle returns nothing. *)
Theorem QueryCells_occupied g minX minY maxX maxY x0 y0 x1 y1 :
  Hash.cellRange g minX minY maxX maxY = (x0, y0, x1, y1) ->
  Hash.QueryCells g minX minY maxX maxY
  = filter (fun k => is_Some (Hash.cells g !! k)) (encode_cell <$> row_major x0 y0 x1 y1) /\
  NoDup (Hash.QueryCells g minX minY maxX maxY) /\
  (forall k, k ∈ Hash.QueryCells g minX minY maxX maxY
             <-> is_Some (Hash.cells g !! k) /\
                 exists cx cy, x0 <= cx < x1 /\ y0 <= cy < y1 /\ k = Hash.EncodeGridKey cx cy) /\
  (forall k, k ∈ Hash.QueryCells g minX minY maxX maxY -> k ∈ Hash.Cells g) /\
  (Hash.QueryCells g minX minY maxX maxY = [] -> (Hash.Query g minX minY maxX maxY).1 = []).
Proof.
  intros Hr.
  assert (Hash.QueryCells g minX minY maxX maxY
          = filter (fun k => is_Some (Hash.cells g !! k))
              (encode_cell <$> row_major x0 y0 x1 y1)) as Heq.
  { unfold Hash.QueryCells. rewrite Hr.
    rewrite (for_range_rows
               (fun cy acc cx =>
                  if bool_decide (is_Some (Hash.cells g !! Hash.EncodeGridKey cx cy))
                  then acc ++ [Hash.EncodeGridKey cx cy] else acc)).
    apply (QueryCells_loop (Hash.cells g) (row_major x0 y0 x1 y1) []). }
  pose proof (cellRange_in_range _ _ _ _ _ _ _ _ _ Hr) as (Hx0 & Hy0 & Hx1 & Hy1).
  assert (forall k, k ∈ Hash.QueryCells g minX minY maxX maxY
                    <-> is_Some (Hash.cells g !! k) /\
                        exists cx cy, x0 <= cx < x1 /\ y0 <= cy < y1 /\
                                      k = Hash.EncodeGridKey cx cy) as Hmem.
  { intros k. rewrite Heq.
    rewrite (list_elem_of_filter (fun k => is_Some (Hash.cells g !! k))).
    rewrite list_elem_of_fmap. split.
    - intros [Hs ([cx cy] & -> & Hc)]. apply elem_of_row_major in Hc.
      split; [exact Hs |]. exists cx, cy. tauto.
    - intros [Hs (cx & cy & Hx & Hy & ->)]. split; [exact Hs |].
      exists (cx, cy). split; [reflexivity |]. by apply elem_of_row_major. }
  split; [exact Heq |]. split; [| split; [exact Hmem | split]].
  - rewrite Heq. apply NoDup_filter, NoDup_encode_cells; [apply NoDup_row_major |].
    intros c Hc. by apply (row_major_in_range x0 y0 x1 y1).
  - intros k Hk. apply Cells_spec. by apply Hmem in Hk as [Hs _].
  - intros Hnil. apply elem_of_nil_inv. intros e He.
    rewrite Query_unfold in He. cbn [fst] in He.
    destruct (query_state_sound g _ _ _ _ _ _ _ _ Hr e He) as (cx & cy & Hx & Hy & Hin).
    apply bucket_elem_lookup in Hin as (b & Hb & _).
    assert (Hash.EncodeGridKey cx cy ∈ Hash.QueryCells g minX minY maxX maxY) as Hk.
    { apply Hmem. split; [by eexists |]. exists cx, cy. tauto. }
    rewrite Hnil in Hk. by apply not_elem_of_nil in Hk.
Qed.

(** X12: [Cells] lists every key that has a bucket once; on a grid reached
    from a new one these are exactly the keys recorded for some item. *)
Theorem Cells_are_recorded_keys (cw ch : float32) (g0 : Hash.Grid T) (ops : list hash_op) :
  Hash.NewGrid cw ch = Returned g0 ->
  let g := hash_run g0 ops in
  NoDup (Hash.Cells g) /\
  (forall k, k ∈ Hash.Cells g
             <-> exists item K, Hash.itemCells g !! item = Some K /\ k ∈ K) /\
  (forall k, k ∈ Hash.Cells g <-> bucket (Hash.cells g) k ≠ []).
Proof.
  intros Hnew g.
  assert (hash_inv g) as Hinv by (by apply (hash_reachable_inv cw ch)).
  destruct (hash_index _ Hinv) as [_ Honce Hne Hidx].
  split; [apply NoDup_fst_map_to_list |]. split.
  - intros k. rewrite Cells_spec. split.
    + intros [b Hb]. pose proof (Hne k b Hb) as Hb'.
      destruct b as [| e b]; [done |].
      destruct (Hidx k e) as (K & HK & Hk); [| by eauto].
      rewrite (bucket_lookup _ _ _ Hb). left.
    + intros (item & K & HK & Hk). pose proof (Honce item K k HK Hk) as Hocc.
      assert (item ∈ bucket (Hash.cells g) k) as Hin.
      { destruct (decide (item ∈ bucket (Hash.cells g) k)) as [Hin | Hin]; [exact Hin |].
        apply occurrences_zero in Hin. lia. }
      apply bucket_elem_lookup in Hin as (b & Hb & _). by eexists.
  - intros k. rewrite Cells_spec. split.
    + intros [b Hb]. rewrite (bucket_lookup _ _ _ Hb). by apply (Hne k).
    + intros Hb. unfold bucket in Hb. destruct (Hash.cells g !! k); [by eexists | done].
Qed.


End HashQueryFurther.

Lemma Query_first_occurrences_witness :
  Hash.NewGrid (f32 64) (f32 64) = Returned hash_grid_64 /\
  Z.of_nat (length ops_A) < 2 ^ 64 - 2 /\
  Hash.cellRange (P := amd64) (hash_run (P := amd64) hash_grid_64 ops_A)
    (f32 0) (f32 0) (f32 50) (f32 50) = (0, 0, 1, 1) /\
  NoDup (Hash.Query (P := amd64) (hash_run (P := amd64) hash_grid_64 ops_A)
           (f32 0) (f32 0) (f32 50) (f32 50)).1.
Proof.
  assert (Z.of_nat (length ops_A) < 2 ^ 64 - 2) as Hlen by (cbn; lia).
  assert (Hash.cellRange (P := amd64) (hash_run (P := amd64) hash_grid_64 ops_A)
            (f32 0) (f32 0) (f32 50) (f32 50) = (0, 0, 1, 1)) as Hr
    by (vm_compute; reflexivity).
  split; [reflexivity |]. split; [exact Hlen |]. split; [exact Hr |].
  exact (proj1 (proj2 (Query_first_occurrences (P := amd64) (f32 64) (f32 64) hash_grid_64
                         ops_A (f32 0) (f32 0) (f32 50) (f32 50) 0 0 1 1 eq_refl Hlen Hr))).
Defined.

Lemma insert_then_Query_witness :
  Hash.NewGrid (f32 64) (f32 64) = Returned hash_grid_64 /\
  Z.of_nat (length ops_A) < 2 ^ 64 - 2 /\
  Hash.Contains (hash_run (P := amd64) hash_grid_64 ops_A) entry_B = false /\
  insert_range (P := amd64) (hash_run (P := amd64) hash_grid_64 ops_A)
    (f32 100) (f32 100) (f32 120) (f32 120) Hash.NoGridPadding = (1, 1, 2, 2) /\
  Hash.cellRange (P := amd64) (hash_run (P := amd64) hash_grid_64 ops_A)
    (f32 0) (f32 0) (f32 50) (f32 50) = (0, 0, 1, 1) /\
  entry_B ∉ (Hash.Query (P := amd64)
               (Hash.InsertFunc (P := amd64) (hash_run (P := amd64) hash_grid_64 ops_A) entry_B
                  (f32 100) (f32 100) (f32 120) (f32 120) Hash.NoGridPadding None).2
               (f32 0) (f32 0) (f32 50) (f32 50)).1.
Proof.
  assert (Z.of_nat (length ops_A) < 2 ^ 64 - 2) as Hlen by (cbn; lia).
  assert (Hash.Contains (hash_run (P := amd64) hash_grid_64 ops_A) entry_B = false) as Hc
    by (vm_compute; reflexivity).
  assert (insert_range (P := amd64) (hash_run (P := amd64) hash_grid_64 ops_A)
            (f32 100) (f32 100) (f32 120) (f32 120) Hash.NoGridPadding = (1, 1, 2, 2)) as Hr
    by (vm_compute; reflexivity).
  assert (Hash.cellRange (P := amd64) (hash_run (P := amd64) hash_grid_64 ops_A)
            (f32 0) (f32 0) (f32 50) (f32 50) = (0, 0, 1, 1)) as Hq
    by (vm_compute; reflexivity).
  split; [reflexivity |]. split; [exact Hlen |]. split; [exact Hc |].
  split; [exact Hr |]. split; [exact Hq |].
  intros Hin.
  apply (proj1 (insert_then_Query (P := amd64) (f32 64) (f32 64) hash_grid_64 ops_A entry_B
                  (f32 100) (f32 100) (f32 120) (f32 120) Hash.NoGridPadding None
                  (f32 0) (f32 0) (f32 50) (f32 50) 1 1 2 2 0 0 1 1 eq_refl Hlen Hc Hr Hq))
    in Hin as (cx & cy & Hx & _ & Hqx & _).
  lia.
Defined.

Lemma Query_returns_present_only_witness :
  Hash.NewGrid (f32 64) (f32 64) = Returned hash_grid_64 /\
  entry_A ∉ (Hash.Query (P := amd64)
               (Hash.Remove (hash_run (P := amd64) hash_grid_64 ops_A) entry_A)
               (f32 0) (f32 0) (f32 50) (f32 50)).1.
Proof.
  split; [reflexivity |].
  exact (proj2 (Query_returns_present_only (P := amd64) (f32 64) (f32 64) hash_grid_64 ops_A
                  eq_refl) entry_A (f32 0) (f32 0) (f32 50) (f32 50)).
Defined.

Lemma Query_at_last_generation_witness :
  Hash.gen hash_grid_last_gen = 2 ^ 64 - 1 /\
  Hash.items hash_grid_last_gen !! entry_A = Some 0 /\
  entry_A ∈ bucket (Hash.cells hash_grid_last_gen) (Hash.EncodeGridKey 0 0) /\
  Hash.cellRange (P := amd64) hash_grid_last_gen (f32 0) (f32 0) (f32 50) (f32 50)
  = (0, 0, 1, 1) /\
  entry_A ∉ (Hash.Query (P := amd64) hash_grid_last_gen (f32 0) (f32 0) (f32 50) (f32 50)).1.
Proof.
  assert (Hash.gen hash_grid_last_gen = 2 ^ 64 - 1) as Hgen by reflexivity.
  assert (Hash.items hash_grid_last_gen !! entry_A = Some 0) as Hs
    by (vm_compute; reflexivity).
  split; [exact Hgen |]. split; [exact Hs |].
  split; [vm_compute; left |]. split; [vm_compute; reflexivity |].
  exact (proj2 (Query_at_last_generation (P := amd64) hash_grid_last_gen entry_A
                  (f32 0) (f32 0) (f32 50) (f32 50) Hgen Hs)).
Defined.

Lemma QueryCells_occupied_witness :
  Hash.cellRange (P := amd64) hash_grid_A (f32 0) (f32 0) (f32 100) (f32 100) = (0, 0, 2, 2) /\
  Hash.QueryCells (P := amd64) hash_grid_A (f32 0) (f32 0) (f32 100) (f32 100)
  = filter (fun k => is_Some (Hash.cells hash_grid_A !! k))
      (encode_cell <$> row_major 0 0 2 2).
Proof.
  assert (Hash.cellRange (P := amd64) hash_grid_A (f32 0) (f32 0) (f32 100) (f32 100)
          = (0, 0, 2, 2)) as Hr by (vm_compute; reflexivity).
  split; [exact Hr |].
  exact (proj1 (QueryCells_occupied (P := amd64) hash_grid_A
                  (f32 0) (f32 0) (f32 100) (f32 100) 0 0 2 2 Hr)).
Defined.

Lemma Cells_are_recorded_keys_witness :
  Hash.NewGrid (f32 64) (f32 64) = Returned hash_grid_64 /\
  NoDup (Hash.Cells (hash_run (P := amd64) hash_grid_64 ops_A)).
Proof.
  split; [reflexivity |].
  exact (proj1 (Cells_are_recorded_keys (P := amd64) (f32 64) (f32 64) hash_grid_64 ops_A
                  eq_refl)).
Defined.

(** ** Inclusive loops over a closed range of cells *)

Lemma foldl_opt_Some {A B : Type} (f : A -> B -> A) (l : list B) (a : A) :
  foldl_opt (fun a b => Some (f a b)) a l = Some (foldl f a l).
Proof. revert a. induction l as [| b l IH]; intros a; [reflexivity | apply IH]. Qed.

Lemma foldl_opt_ext {A B : Type} (f f' : A -> B -> option A) (l : list B) (a : A) :
  (forall a b, f a b = f' a b) -> foldl_opt f a l = foldl_opt f' a l.
Proof.
  intros Hext. revert a. induction l as [| b l IH]; intros a; [reflexivity |].
  cbn [foldl_opt]. rewrite Hext. destruct (f' a b); [apply IH | reflexivity].
Qed.

Lemma for_range_incl_nested {A : Type} (maxv : Z) (body : Z -> A -> Z -> A)
    (sX sY eX eY : Z) (a : A) :
  for_range_incl maxv sX eX
    (fun a x => for_range_incl maxv sY eY (fun a y => Some (body x a y)) a) a
  = if loops_return maxv sX sY eX eY
    then Some (foldl (fun a c => body c.1 a c.2) a (closed_cells sX sY eX eY))
    else None.
Proof.
  unfold for_range_incl, loops_return. destruct (eX =? maxv); [reflexivity |].
  cbn [negb andb]. destruct (eY =? maxv).
  - cbn [andb]. destruct (sX <=? eX) eqn:Hle; cbn [negb].
    + apply Z.leb_le in Hle. rewrite seqZ_cons by lia. reflexivity.
    + apply Z.leb_gt in Hle. rewrite seqZ_nil by lia. cbn [foldl_opt].
      unfold closed_cells, column_major. rewrite (seqZ_nil sX) by lia. reflexivity.
  - cbn [andb negb].
    rewrite (foldl_opt_ext _ (fun a x => Some (foldl (body x) a (seqZ sY (eY - sY + 1)))))
      by (intros; apply foldl_opt_Some).
    rewrite foldl_opt_Some. f_equal. unfold closed_cells.
    rewrite <- for_range_columns. unfold for_range.
    replace (eX + 1 - sX) with (eX - sX + 1) by lia.
    replace (eY + 1 - sY) with (eY - sY + 1) by lia. reflexivity.
Qed.

Lemma elem_of_closed_cells sX sY eX eY x y :
  (x, y) ∈ closed_cells sX sY eX eY <-> sX <= x <= eX /\ sY <= y <= eY.
Proof. unfold closed_cells. rewrite elem_of_column_major. lia. Qed.

Lemma foldl_snoc_fmap {A B : Type} (f : A -> B) (L : list A) (acc : list B) :
  foldl (fun acc c => acc ++ [f c]) acc L = acc ++ (f <$> L).
Proof.
  revert acc. induction L as [| c L IH]; intros acc; cbn [foldl fmap list_fmap].
  - by rewrite app_nil_r.
  - rewrite IH. by rewrite <- app_assoc.
Qed.

Lemma loops_return_spec maxv sX sY eX eY :
  sX <= maxv -> eX <= maxv -> eY <= maxv ->
  loops_return maxv sX sY eX eY = true <-> eX < maxv /\ (eY < maxv \/ eX < sX).
Proof.
  intros HsX HeX HeY. unfold loops_return.
  destruct (Z.eqb_spec eX maxv), (Z.eqb_spec eY maxv), (Z.leb_spec sX eX); cbn;
    split; intros; try lia; try discriminate; reflexivity.
Qed.

(** ** [src/hashgrid/grid.go]: construction, keys, queries and buckets *)

Lemma shiftr_land_bit (p k : Z) :
  0 <= k -> Z.shiftr (Z.land p (2 ^ k)) k = Z.b2z (Z.testbit p k).
Proof.
  intros Hk. apply Z.bits_inj'. intros n Hn.
  rewrite Z.shiftr_spec, Z.land_spec, Z.pow2_bits_eqb by lia.
  destruct (Z.eqb_spec k (n + k)) as [Heq | Hne].
  - assert (n = 0) as -> by lia. cbn [Z.add]. by rewrite Z.b2z_bit0, andb_true_r.
  - rewrite andb_false_r. symmetry.
    destruct (Z.testbit p k); cbn [Z.b2z]; [| apply Z.bits_0].
    change 1 with (2 ^ 0). rewrite Z.pow2_bits_eqb by lia.
    apply Z.eqb_neq. lia.
Qed.

Lemma leb_zero_false (x : float32) :
  F32.leb x F32.zero = false <-> x = S754_nan \/ F32.ltb F32.zero x = true.
Proof.
  destruct x as [s | s | | s m e]; try destruct s; cbn; split; intros Hx;
    try discriminate; try tauto; try (by right); try (by left);
    destruct Hx as [Hx | Hx]; discriminate.
Qed.

Section HashGridFurther.
Context {T : Type} `{Countable T} {P : FloatToInt}.
Implicit Types (g : HashGrid.Grid T) (entry e : T).

(** X14: [NewWithPadding] returns a grid for every cell size that does not
    compare [<= 0], which is every positive size and NaN; the grid has no
    cell, and its four paddings are the bits 0 to 3 of the padding
    argument, each zero or one; [New] is the case of no padding. *)
Theorem NewWithPadding_sides (cellSize : float32) (padding : HashGrid.GridPadding) :
  F32.leb cellSize F32.zero = false ->
  (cellSize = S754_nan \/ F32.ltb F32.zero cellSize = true) /\
  exists g : HashGrid.Grid T,
    HashGrid.NewWithPadding cellSize padding = Returned g /\
    HashGrid.left g = Z.b2z (Z.testbit padding 0) /\
    HashGrid.right g = Z.b2z (Z.testbit padding 1) /\
    HashGrid.top g = Z.b2z (Z.testbit padding 2) /\
    HashGrid.bottom g = Z.b2z (Z.testbit padding 3) /\
    HashGrid.CellSize g = cellSize /\
    HashGrid.Keys g = [] /\
    HashGrid.New (T := T) cellSize
    = Returned {| HashGrid.left := 0; HashGrid.right := 0; HashGrid.top := 0;
                  HashGrid.bottom := 0; HashGrid.cellSize := cellSize;
                  HashGrid.cells := ∅ |}.
Proof.
  intros Hpos. split; [by apply leb_zero_false |].
  unfold HashGrid.New, HashGrid.NewWithPadding. rewrite Hpos. eexists.
  split; [reflexivity |]. cbn [HashGrid.left HashGrid.right HashGrid.top HashGrid.bottom].
  split; [exact (shiftr_land_bit padding 0 ltac:(lia)) |].
  split; [exact (shiftr_land_bit padding 1 ltac:(lia)) |].
  split; [exact (shiftr_land_bit padding 2 ltac:(lia)) |].
  split; [exact (shiftr_land_bit padding 3 ltac:(lia)) |].
  split; [reflexivity |]. split; [| reflexivity].
  unfold HashGrid.Keys. cbn. by rewrite map_to_list_empty.
Qed.

Lemma entry_range_in_range (E : GridEntry T) g entry sX sY eX eY :
  entry_range E g entry = (sX, sY, eX, eY) ->
  Int.in_int32 sX /\ Int.in_int32 sY /\ Int.in_int32 eX /\ Int.in_int32 eY.
Proof.
  unfold entry_range, Int.add32, Int.sub32. intros [= <- <- <- <-].
  repeat split; apply to_int32_in_range.
Qed.

Lemma hashgrid_GetKeys_unfold (E : GridEntry T) g entry sX sY eX eY :
  entry_range E g entry = (sX, sY, eX, eY) ->
  HashGrid.GetKeys g entry
  = if loops_return Int.max_int32 sX sY eX eY
    then Some (encode_cell <$> closed_cells sX sY eX eY) else None.
Proof.
  unfold entry_range, HashGrid.GetKeys.
  destruct (Min entry) as [minX minY], (Max entry) as [maxX maxY]. cbn [fst snd].
  intros [= <- <- <- <-].
  rewrite (for_range_incl_nested Int.max_int32
             (fun x keys y => keys ++ [HashGrid.EncodeGridKey x y])).
  destruct (loops_return _ _ _ _ _); [| reflexivity]. f_equal.
  apply (foldl_snoc_fmap (fun c => HashGrid.EncodeGridKey c.1 c.2) _ []).
Qed.

Lemma closed_cells_in_range sX sY eX eY c :
  Int.in_int32 sX -> Int.in_int32 sY -> Int.in_int32 eX -> Int.in_int32 eY ->
  c ∈ closed_cells sX sY eX eY -> Int.in_int32 c.1 /\ Int.in_int32 c.2.
Proof.
  unfold Int.in_int32. intros HsX HsY HeX HeY Hc. destruct c as [x y].
  apply elem_of_closed_cells in Hc. cbn [fst snd]. lia.
Qed.

Lemma hashgrid_GetKeys_NoDup (E : GridEntry T) g entry keys :
  HashGrid.GetKeys g entry = Some keys -> NoDup keys.
Proof.
  destruct (entry_range E g entry) as [[[sX sY] eX] eY] eqn:Hr.
  rewrite (hashgrid_GetKeys_unfold E g entry _ _ _ _ Hr).
  apply entry_range_in_range in Hr as (HsX & HsY & HeX & HeY).
  destruct (loops_return _ _ _ _ _); [| discriminate]. intros [= <-].
  apply NoDup_encode_cells; [apply NoDup_column_major |].
  intros c Hc. by apply (closed_cells_in_range sX sY eX eY).
Qed.

(** X15: [GetKeys] walks the closed range
    [[startX, endX] x [startY, endY]] of its bounds column by column and
    returns the keys of its cells, each once.  It returns exactly when
    [endX] is not [math.MaxInt32] and, unless the range has no column,
    [endY] is not either: at that value the loop condition [<=] never
    fails.  Where the conversion of an out-of-range quotient yields
    [math.MinInt32] and there is no right padding, an entry whose
    [maxX / cellSize] is out of range makes [endX] wrap to
    [math.MaxInt32], so [GetKeys], [Insert] and [Remove] do not return. *)
Theorem GetKeys_closed_range (E : GridEntry T) g entry sX sY eX eY :
  entry_range E g entry = (sX, sY, eX, eY) ->
  HashGrid.GetKeys g entry
  = (if loops_return Int.max_int32 sX sY eX eY
     then Some (encode_cell <$> closed_cells sX sY eX eY) else None) /\
  (is_Some (HashGrid.GetKeys g entry)
   <-> eX < Int.max_int32 /\ (eY < Int.max_int32 \/ eX < sX)) /\
  (forall keys, HashGrid.GetKeys g entry = Some keys ->
     NoDup keys /\
     forall k, k ∈ keys <-> exists x y, sX <= x <= eX /\ sY <= y <= eY /\
                                        k = HashGrid.EncodeGridKey x y) /\
  (F32.trunc_int32 (F32.div (Max entry).1 (HashGrid.cellSize g)) = Int.min_int32 ->
   HashGrid.right g = 0 ->
   HashGrid.GetKeys g entry = None /\
   HashGrid.Insert g entry = None /\
   HashGrid.Remove g entry = None).
Proof.
  intros Hr. pose proof (hashgrid_GetKeys_unfold E g entry _ _ _ _ Hr) as Hget.
  pose proof (entry_range_in_range E g entry _ _ _ _ Hr) as (HsX & HsY & HeX & HeY).
  split; [exact Hget |]. split; [| split].
  - rewrite Hget. unfold Int.in_int32 in *.
    rewrite <- (loops_return_spec Int.max_int32 sX sY eX eY) by lia.
    destruct (loops_return _ _ _ _ _); split; intros Hs; try done; by destruct Hs.
  - intros keys Hkeys. split; [by apply (hashgrid_GetKeys_NoDup E g entry) |].
    rewrite Hget in Hkeys. destruct (loops_return _ _ _ _ _); [| discriminate].
    injection Hkeys as <-. intros k. rewrite list_elem_of_fmap. split.
    + intros ([x y] & -> & Hc). apply elem_of_closed_cells in Hc. exists x, y. tauto.
    + intros (x & y & Hx & Hy & ->). exists (x, y). split; [reflexivity |].
      by apply elem_of_closed_cells.
  - intros Hmin Hright.
    assert (eX = Int.max_int32) as HeX'.
    { unfold entry_range in Hr. injection Hr as _ _ <- _. rewrite Hmin, Hright. reflexivity. }
    assert (HashGrid.GetKeys g entry = None) as Hnone.
    { rewrite Hget. unfold loops_return. rewrite HeX', Z.eqb_refl. reflexivity. }
    split; [exact Hnone |]. unfold HashGrid.Insert, HashGrid.Remove. by rewrite Hnone.
Qed.

(** *** Queries *)

Lemma hashgrid_visit_unfold (E : GridEntry T) minX minY maxX maxY
    (st : gset T * list T) entry :
  HashGrid.visit minX minY maxX maxY st entry
  = if bool_decide (entry ∈ st.1) then st
    else if overlaps E minX minY maxX maxY entry
         then ({[entry]} ∪ st.1, st.2 ++ [entry]) else st.
Proof.
  unfold HashGrid.visit, overlaps. by destruct (Min entry), (Max entry).
Qed.

Lemma hashgrid_visit_fold (E : GridEntry T) minX minY maxX maxY (l : list T) :
  forall st : gset T * list T,
    (forall e, e ∈ st.1 <-> e ∈ st.2) ->
    (foldl (HashGrid.visit minX minY maxX maxY) st l).2
    = foldl keep_first st.2 (filter (fun e => overlaps E minX minY maxX maxY e = true) l) /\
    (forall e, e ∈ (foldl (HashGrid.visit minX minY maxX maxY) st l).1
               <-> e ∈ (foldl (HashGrid.visit minX minY maxX maxY) st l).2).
Proof.
  induction l as [| x l IH]; intros st Hst; cbn [foldl]; [by split |].
  rewrite filter_cons, hashgrid_visit_unfold.
  destruct (decide (x ∈ st.1)) as [Hin | Hin].
  - rewrite bool_decide_eq_true_2 by exact Hin.
    destruct (IH st Hst) as [-> Hst']. split; [| exact Hst'].
    destruct (decide (overlaps E minX minY maxX maxY x = true)); [| reflexivity].
    cbn [foldl].
    assert (keep_first st.2 x = st.2) as ->; [| reflexivity].
    unfold keep_first. by rewrite decide_True by (by apply Hst).
  - rewrite bool_decide_eq_false_2 by exact Hin.
    destruct (overlaps E minX minY maxX maxY x) eqn:Hov.
    + rewrite decide_True by reflexivity. cbn [foldl].
      assert (keep_first st.2 x = st.2 ++ [x]) as ->.
      { unfold keep_first. by rewrite decide_False by (by rewrite <- Hst). }
      apply IH. intros e. cbn [fst snd].
      rewrite elem_of_union, elem_of_singleton, elem_of_app, list_elem_of_singleton, Hst. tauto.
    + rewrite decide_False by discriminate. by apply IH.
Qed.

Lemma hashgrid_Query_unfold (E : GridEntry T) g minX minY maxX maxY sX sY eX eY :
  query_range (HashGrid.cellSize g) minX minY maxX maxY = (sX, sY, eX, eY) ->
  HashGrid.Query g minX minY maxX maxY
  = if loops_return Int.max_int32 sX sY eX eY
    then Some (first_occurrences
                 (filter (fun e => overlaps E minX minY maxX maxY e = true)
                    (candidates encode_cell (HashGrid.cells g) (closed_cells sX sY eX eY))))
    else None.
Proof.
  unfold query_range, HashGrid.Query. intros [= HsX HsY HeX HeY].
  rewrite HsX, HsY, HeX, HeY.
  rewrite (for_range_incl_nested Int.max_int32
             (fun x st y => foldl (HashGrid.visit minX minY maxX maxY) st
                              (bucket (HashGrid.cells g) (HashGrid.EncodeGridKey x y)))).
  destruct (loops_return _ _ _ _ _); [| reflexivity]. cbn [fmap option_fmap option_map].
  f_equal. unfold first_occurrences.
  assert (forall e : T, e ∈ (∅ : gset T) <-> e ∈ ([] : list T)) as Hst
    by (intros e; rewrite elem_of_empty, elem_of_nil; tauto).
  pose proof (proj1 (hashgrid_visit_fold E minX minY maxX maxY
                       (candidates encode_cell (HashGrid.cells g) (closed_cells sX sY eX eY))
                       (∅, []) Hst)) as Hv.
  cbn [snd] in Hv. rewrite <- Hv. unfold candidates. by rewrite foldl_bind.
Qed.

(** X16: when its loops return, [Query] yields the first occurrences, in
    the order the closed range of truncated quotients is walked column by
    column, of the bucket entries whose box overlaps the rectangle, edges
    included: no entry twice, and an entry is returned exactly when it sits
    in a bucket of the range and passes the overlap test.  It returns
    under the same condition on the bounds as [GetKeys]. *)
Theorem hashgrid_Query_result (E : GridEntry T) g minX minY maxX maxY sX sY eX eY :
  query_range (HashGrid.cellSize g) minX minY maxX maxY = (sX, sY, eX, eY) ->
  HashGrid.Query g minX minY maxX maxY
  = (if loops_return Int.max_int32 sX sY eX eY
     then Some (first_occurrences
                  (filter (fun e => overlaps E minX minY maxX maxY e = true)
                     (candidates encode_cell (HashGrid.cells g) (closed_cells sX sY eX eY))))
     else None) /\
  (forall r, HashGrid.Query g minX minY maxX maxY = Some r ->
     NoDup r /\
     forall e, e ∈ r <-> overlaps E minX minY maxX maxY e = true /\
                         exists x y, sX <= x <= eX /\ sY <= y <= eY /\
                                     e ∈ bucket (HashGrid.cells g) (HashGrid.EncodeGridKey x y)).
Proof.
  intros Hr. pose proof (hashgrid_Query_unfold E g _ _ _ _ _ _ _ _ Hr) as Hq.
  split; [exact Hq |]. intros r. rewrite Hq.
  destruct (loops_return _ _ _ _ _); [| discriminate]. intros [= <-].
  destruct (first_occurrences_spec
              (filter (fun e => overlaps E minX minY maxX maxY e = true)
                 (candidates encode_cell (HashGrid.cells g) (closed_cells sX sY eX eY))))
    as [Hnd Hmem].
  split; [exact Hnd |]. intros e. rewrite Hmem.
  rewrite (list_elem_of_filter (fun e => overlaps E minX minY maxX maxY e = true)).
  unfold candidates. rewrite list_elem_of_bind.
  split; intros [Hov Hin]; (split; [exact Hov |]).
  - destruct Hin as ([x y] & He & Hc). apply elem_of_closed_cells in Hc. exists x, y. tauto.
  - destruct Hin as (x & y & Hx & Hy & He). exists (x, y). split; [exact He |].
    by apply elem_of_closed_cells.
Qed.

End HashGridFurther.

(** *** Buckets along a run *)

Section HashGridRuns.
Context {T : Type} `{Countable T} {P : FloatToInt}.
Implicit Types (g : HashGrid.Grid T) (entry e : T) (cs : gmap Z (list T)).

Lemma buckets_ok_bucket cs k : buckets_ok cs -> NoDup (bucket cs k).
Proof.
  intros Hok. unfold bucket. destruct (cs !! k) as [b |] eqn:Hb; [| apply NoDup_nil_2].
  by apply (Hok k b).
Qed.

Lemma buckets_ok_insert cs k b :
  buckets_ok cs -> b ≠ [] -> NoDup b -> buckets_ok (<[k := b]> cs).
Proof.
  intros Hok Hne Hnd k' b' Hb'. apply lookup_insert_Some in Hb' as [[_ <-] | [_ Hb']].
  - by split.
  - by apply (Hok k').
Qed.

Lemma buckets_ok_delete cs k : buckets_ok cs -> buckets_ok (delete k cs).
Proof.
  intros Hok k' b' Hb'. apply lookup_delete_Some in Hb' as [_ Hb']. by apply (Hok k').
Qed.

Lemma insert_key_ok entry cs key :
  buckets_ok cs -> buckets_ok (HashGrid.insert_key entry cs key).
Proof.
  intros Hok. unfold HashGrid.insert_key.
  destruct (decide (entry ∈ bucket cs key)) as [Hin | Hin].
  - by rewrite bool_decide_eq_true_2 by exact Hin.
  - rewrite bool_decide_eq_false_2 by exact Hin. cbn [negb].
    apply buckets_ok_insert; [exact Hok | by destruct (bucket cs key) |].
    apply NoDup_app. split; [by apply buckets_ok_bucket |].
    split; [| apply NoDup_singleton].
    intros x Hx Hx'. apply list_elem_of_singleton in Hx'. by subst.
Qed.

Lemma remove_first_ok entry cs key : buckets_ok cs -> buckets_ok (remove_first entry cs key).
Proof.
  intros Hok. unfold remove_first.
  destruct (index_of entry (bucket cs key)) as [j |]; [| exact Hok].
  destruct (length (take j (bucket cs key) ++ drop (S j) (bucket cs key)) =? 0)%nat eqn:Hlen.
  - by apply buckets_ok_delete.
  - apply Nat.eqb_neq in Hlen. apply buckets_ok_insert; [exact Hok | |].
    + intros Hnil. by rewrite Hnil in Hlen.
    + rewrite <- delete_take_drop.
      apply (sublist_NoDup _ (bucket cs key)); [by apply buckets_ok_bucket |].
      apply sublist_delete.
Qed.

Lemma buckets_ok_empty : buckets_ok (∅ : gmap Z (list T)).
Proof. intros k b Hb. by rewrite lookup_empty in Hb. Qed.

Lemma grid_step_ok g g' o :
  buckets_ok (HashGrid.cells g) -> grid_step g o = Some g' ->
  buckets_ok (HashGrid.cells g') /\
  HashGrid.cellSize g' = HashGrid.cellSize g /\
  HashGrid.left g' = HashGrid.left g /\ HashGrid.right g' = HashGrid.right g /\
  HashGrid.top g' = HashGrid.top g /\ HashGrid.bottom g' = HashGrid.bottom g.
Proof.
  intros Hok. destruct o as [E entry | E entry |]; cbn [grid_step].
  - unfold HashGrid.Insert. destruct (HashGrid.GetKeys g entry) as [keys |]; [| discriminate].
    intros [= <-]. cbn. split; [| done].
    apply (foldl_preserves buckets_ok); [| exact Hok].
    intros cs key _. apply insert_key_ok.
  - unfold HashGrid.Remove. destruct (HashGrid.GetKeys g entry) as [keys |]; [| discriminate].
    intros [= <-]. cbn. split; [| done].
    apply (foldl_preserves buckets_ok); [| exact Hok].
    intros cs key _. apply remove_first_ok.
  - intros [= <-]. cbn. split; [apply buckets_ok_empty | done].
Qed.

Lemma grid_run_ok g0 g (ops : list grid_op) :
  buckets_ok (HashGrid.cells g0) -> grid_run g0 ops = Some g ->
  buckets_ok (HashGrid.cells g) /\
  HashGrid.cellSize g = HashGrid.cellSize g0 /\
  HashGrid.left g = HashGrid.left g0 /\ HashGrid.right g = HashGrid.right g0 /\
  HashGrid.top g = HashGrid.top g0 /\ HashGrid.bottom g = HashGrid.bottom g0.
Proof.
  intros Hok0 Hrun.
  apply (foldl_opt_preserves
           (fun g => buckets_ok (HashGrid.cells g) /\
                     HashGrid.cellSize g = HashGrid.cellSize g0 /\
                     HashGrid.left g = HashGrid.left g0 /\
                     HashGrid.right g = HashGrid.right g0 /\
                     HashGrid.top g = HashGrid.top g0 /\
                     HashGrid.bottom g = HashGrid.bottom g0)
           grid_step ops g0 g); [| split; [exact Hok0 | done] | exact Hrun].
  intros g1 o g2 _ (Hok1 & Hcs1 & Hl1 & Hr1 & Ht1 & Hb1) Hstep.
  destruct (grid_step_ok g1 g2 o Hok1 Hstep) as (Hok2 & Hcs2 & Hl2 & Hr2 & Ht2 & Hb2).
  split; [exact Hok2 |]. repeat split; congruence.
Qed.

Lemma NewWithPadding_ok (cellSize : float32) (padding : HashGrid.GridPadding) g0 :
  HashGrid.NewWithPadding cellSize padding = Returned g0 ->
  buckets_ok (HashGrid.cells g0) /\ HashGrid.cellSize g0 = cellSize.
Proof.
  unfold HashGrid.NewWithPadding.
  destruct (F32.leb cellSize F32.zero); [discriminate |]. intros [= <-].
  split; [apply buckets_ok_empty | reflexivity].
Qed.

(** X17: after any sequence of [Insert], [Remove] and [Clear] calls that
    return, on a grid made by [NewWithPadding], every stored bucket is
    non-empty and holds no entry twice, whatever boxes the entries
    reported at each call; [Keys] lists each occupied key once; the cell
    size and the paddings are those given at construction. *)
Theorem hashgrid_buckets_stay_ok (cellSize : float32) (padding : HashGrid.GridPadding)
    (g0 g : HashGrid.Grid T) (ops : list grid_op) :
  HashGrid.NewWithPadding cellSize padding = Returned g0 ->
  grid_run g0 ops = Some g ->
  buckets_ok (HashGrid.cells g) /\
  NoDup (HashGrid.Keys g) /\
  (forall k, k ∈ HashGrid.Keys g <-> bucket (HashGrid.cells g) k ≠ []) /\
  HashGrid.CellSize g = cellSize /\
  HashGrid.left g = HashGrid.left g0 /\ HashGrid.right g = HashGrid.right g0 /\
  HashGrid.top g = HashGrid.top g0 /\ HashGrid.bottom g = HashGrid.bottom g0.
Proof.
  intros Hnew Hrun.
  destruct (NewWithPadding_ok cellSize padding g0 Hnew) as [Hok0 Hcs0].
  destruct (grid_run_ok g0 g ops Hok0 Hrun) as (Hok & Hcs & Hl & Hr & Ht & Hb).
  split; [exact Hok |]. split; [apply NoDup_fst_map_to_list |].
  split; [| unfold HashGrid.CellSize; repeat split; congruence].
  intros k. unfold HashGrid.Keys. rewrite list_elem_of_fmap. split.
  - intros ([k' b] & -> & Hkb). apply elem_of_map_to_list in Hkb. cbn [fst].
    rewrite (bucket_lookup _ _ _ Hkb). by apply (Hok k').
  - intros Hb'. unfold bucket in Hb'. destruct (HashGrid.cells g !! k) as [b |] eqn:Hkb; [| done].
    exists (k, b). split; [reflexivity |]. by apply elem_of_map_to_list.
Qed.

Lemma insert_keys_add entry (keys : list Z) :
  forall cs,
    NoDup keys -> (forall k, k ∈ keys -> entry ∉ bucket cs k) ->
    foldl (HashGrid.insert_key entry) cs keys = add_to_cells entry cs keys.
Proof.
  unfold add_to_cells.
  induction keys as [| k keys IH]; intros cs Hnd Hfresh; cbn [foldl]; [reflexivity |].
  apply NoDup_cons in Hnd as [Hk Hnd].
  assert (HashGrid.insert_key entry cs k = <[k := bucket cs k ++ [entry]]> cs) as ->.
  { unfold HashGrid.insert_key.
    by rewrite bool_decide_eq_false_2 by (apply Hfresh; left). }
  apply IH; [exact Hnd |]. intros k' Hk'. rewrite bucket_insert.
  rewrite decide_False by (intros ->; by apply Hk). apply Hfresh. by right.
Qed.

Lemma occurrences_added entry cs keys k :
  NoDup keys -> k ∈ keys -> entry ∉ bucket cs k ->
  occurrences (add_to_cells entry cs keys) k entry = 1%nat.
Proof.
  intros Hnd Hk Hfresh. unfold occurrences.
  rewrite bucket_add_to_cells by exact Hnd. rewrite decide_True by exact Hk.
  rewrite count_snoc, decide_True by reflexivity.
  apply count_zero in Hfresh. by rewrite Hfresh.
Qed.

Lemma buckets_ok_nonempty cs : buckets_ok cs -> forall k b, cs !! k = Some b -> b ≠ [].
Proof. intros Hok k b Hb. by apply (Hok k b). Qed.

(** X18: on a grid reached from a new one, inserting an entry that is in
    no bucket and removing it while it reports the same box gives back the
    grid as it was, bucket order included. *)
Theorem hashgrid_insert_then_remove (E : GridEntry T) (cellSize : float32)
    (padding : HashGrid.GridPadding) (g0 g g1 : HashGrid.Grid T) (ops : list grid_op) entry :
  HashGrid.NewWithPadding cellSize padding = Returned g0 ->
  grid_run g0 ops = Some g ->
  (forall k, entry ∉ bucket (HashGrid.cells g) k) ->
  HashGrid.Insert g entry = Some g1 ->
  HashGrid.Remove g1 entry = Some g.
Proof.
  intros Hnew Hrun Hfresh Hins.
  destruct (NewWithPadding_ok cellSize padding g0 Hnew) as [Hok0 _].
  destruct (grid_run_ok g0 g ops Hok0 Hrun) as [Hok _].
  unfold HashGrid.Insert in Hins.
  destruct (HashGrid.GetKeys g entry) as [keys |] eqn:Hkeys; [| discriminate].
  pose proof (hashgrid_GetKeys_NoDup E g entry keys Hkeys) as Hnd.
  cbn in Hins. injection Hins as <-.
  unfold HashGrid.Remove.
  assert (HashGrid.GetKeys
            {| HashGrid.left := HashGrid.left g; HashGrid.right := HashGrid.right g;
               HashGrid.top := HashGrid.top g; HashGrid.bottom := HashGrid.bottom g;
               HashGrid.cellSize := HashGrid.cellSize g;
               HashGrid.cells := foldl (HashGrid.insert_key entry) (HashGrid.cells g) keys |}
            entry = Some keys) as -> by exact Hkeys.
  cbn. f_equal.
  rewrite insert_keys_add by (intros; auto).
  change (foldl (HashGrid.remove_key entry)) with (foldl (remove_first entry)).
  rewrite remove_first_fold.
  - rewrite drop_add_cancel; [by destruct g | exact Hnd | by apply buckets_ok_nonempty |].
    exact Hfresh.
  - apply add_to_cells_nonempty. by apply buckets_ok_nonempty.
  - intros k Hk. by rewrite occurrences_added.
Qed.

End HashGridRuns.

Lemma NewWithPadding_sides_witness :
  F32.leb (f32 64) F32.zero = false /\
  exists g : HashGrid.Grid nat,
    HashGrid.NewWithPadding (f32 64) HashGrid.AllPadding = Returned g /\
    HashGrid.right g = Z.b2z (Z.testbit HashGrid.AllPadding 1).
Proof.
  assert (F32.leb (f32 64) F32.zero = false) as Hpos by reflexivity.
  split; [exact Hpos |].
  destruct (proj2 (NewWithPadding_sides (T := nat) (f32 64) HashGrid.AllPadding Hpos))
    as (g & Hg & _ & Hright & _).
  exists g. split; assumption.
Defined.

Lemma GetKeys_closed_range_witness :
  (entry_range (P := amd64) (boxes 0 0 100 100) hashgrid_64 entry_A = (0, 0, 0, 0) /\
   HashGrid.GetKeys (P := amd64) (E := boxes 0 0 100 100) hashgrid_64 entry_A
   = Some (encode_cell <$> closed_cells 0 0 0 0)) /\
  (entry_range (P := amd64) (boxes 0 0 (2 ^ 40) 100) hashgrid_64 entry_A
   = (0, 0, Int.max_int32, 0) /\
   F32.trunc_int32 (P := amd64)
     (F32.div (Max (GridEntry := boxes 0 0 (2 ^ 40) 100) entry_A).1 (HashGrid.cellSize hashgrid_64))
   = Int.min_int32 /\
   HashGrid.right hashgrid_64 = 0 /\
   HashGrid.Insert (P := amd64) (E := boxes 0 0 (2 ^ 40) 100) hashgrid_64 entry_A = None).
Proof.
  assert (entry_range (P := amd64) (boxes 0 0 100 100) hashgrid_64 entry_A = (0, 0, 0, 0))
    as Hr by (vm_compute; reflexivity).
  assert (entry_range (P := amd64) (boxes 0 0 (2 ^ 40) 100) hashgrid_64 entry_A
          = (0, 0, Int.max_int32, 0)) as Hr' by (vm_compute; reflexivity).
  assert (F32.trunc_int32 (P := amd64)
            (F32.div (Max (GridEntry := boxes 0 0 (2 ^ 40) 100) entry_A).1
               (HashGrid.cellSize hashgrid_64))
          = Int.min_int32) as Hmin by (vm_compute; reflexivity).
  split.
  - split; [exact Hr |].
    exact (proj1 (GetKeys_closed_range (P := amd64) (boxes 0 0 100 100) hashgrid_64 entry_A
                    0 0 0 0 Hr)).
  - split; [exact Hr' |]. split; [exact Hmin |]. split; [reflexivity |].
    exact (proj1 (proj2 (proj2 (proj2 (proj2
             (GetKeys_closed_range (P := amd64) (boxes 0 0 (2 ^ 40) 100) hashgrid_64 entry_A
                0 0 Int.max_int32 0 Hr'))) Hmin eq_refl))).
Defined.

Lemma hashgrid_Query_result_witness :
  query_range (P := amd64) (HashGrid.cellSize (hashgrid_with (boxes 0 0 100 100) entry_A))
    (f32 0) (f32 0) (f32 50) (f32 50) = (0, 0, 0, 0) /\
  HashGrid.Query (P := amd64) (E := boxes 0 0 100 100)
    (hashgrid_with (boxes 0 0 100 100) entry_A) (f32 0) (f32 0) (f32 50) (f32 50)
  = Some [entry_A] /\
  NoDup [entry_A].
Proof.
  assert (query_range (P := amd64)
            (HashGrid.cellSize (hashgrid_with (boxes 0 0 100 100) entry_A))
            (f32 0) (f32 0) (f32 50) (f32 50) = (0, 0, 0, 0)) as Hr
    by (vm_compute; reflexivity).
  assert (HashGrid.Query (P := amd64) (E := boxes 0 0 100 100)
            (hashgrid_with (boxes 0 0 100 100) entry_A) (f32 0) (f32 0) (f32 50) (f32 50)
          = Some [entry_A]) as Hq by (vm_compute; reflexivity).
  split; [exact Hr |]. split; [exact Hq |].
  exact (proj1 (proj2 (hashgrid_Query_result (P := amd64) (boxes 0 0 100 100)
                         (hashgrid_with (boxes 0 0 100 100) entry_A)
                         (f32 0) (f32 0) (f32 50) (f32 50) 0 0 0 0 Hr) [entry_A] Hq)).
Defined.

Lemma hashgrid_buckets_stay_ok_witness :
  HashGrid.NewWithPadding (f32 64) HashGrid.NoPadding = Returned hashgrid_64 /\
  grid_run (P := amd64) hashgrid_64 grid_ops_A
  = Some (hashgrid_with (boxes 0 0 100 100) entry_A) /\
  buckets_ok (HashGrid.cells (hashgrid_with (boxes 0 0 100 100) entry_A)).
Proof.
  assert (HashGrid.NewWithPadding (f32 64) HashGrid.NoPadding = Returned hashgrid_64) as Hnew
    by reflexivity.
  assert (grid_run (P := amd64) hashgrid_64 grid_ops_A
          = Some (hashgrid_with (boxes 0 0 100 100) entry_A)) as Hrun
    by (vm_compute; reflexivity).
  split; [exact Hnew |]. split; [exact Hrun |].
  exact (proj1 (hashgrid_buckets_stay_ok (P := amd64) (f32 64) HashGrid.NoPadding hashgrid_64
                  (hashgrid_with (boxes 0 0 100 100) entry_A) grid_ops_A Hnew Hrun)).
Defined.

Lemma hashgrid_insert_then_remove_witness :
  HashGrid.NewWithPadding (f32 64) HashGrid.NoPadding = Returned hashgrid_64 /\
  grid_run (P := amd64) hashgrid_64 grid_ops_A
  = Some (hashgrid_with (boxes 0 0 100 100) entry_A) /\
  (forall k, entry_B ∉ bucket (HashGrid.cells (hashgrid_with (boxes 0 0 100 100) entry_A)) k) /\
  exists g1,
    HashGrid.Insert (P := amd64) (E := boxes 0 0 200 200)
      (hashgrid_with (boxes 0 0 100 100) entry_A) entry_B = Some g1 /\
    HashGrid.Remove (P := amd64) (E := boxes 0 0 200 200) g1 entry_B
    = Some (hashgrid_with (boxes 0 0 100 100) entry_A).
Proof.
  assert (HashGrid.NewWithPadding (f32 64) HashGrid.NoPadding = Returned hashgrid_64) as Hnew
    by reflexivity.
  assert (grid_run (P := amd64) hashgrid_64 grid_ops_A
          = Some (hashgrid_with (boxes 0 0 100 100) entry_A)) as Hrun
    by (vm_compute; reflexivity).
  assert (forall k, entry_B ∉ bucket
                      (HashGrid.cells (hashgrid_with (boxes 0 0 100 100) entry_A)) k) as Hfresh.
  { intros k Hin. apply bucket_elem_lookup in Hin as (b & Hb & Hin).
    assert (HashGrid.cells (hashgrid_with (boxes 0 0 100 100) entry_A)
            = {[ HashGrid.EncodeGridKey 0 0 := [entry_A] ]}) as Hcells
      by (vm_compute; reflexivity).
    rewrite Hcells in Hb. apply lookup_singleton_Some in Hb as [_ <-].
    apply list_elem_of_singleton in Hin. discriminate. }
  split; [exact Hnew |]. split; [exact Hrun |]. split; [exact Hfresh |].
  destruct (HashGrid.Insert (P := amd64) (E := boxes 0 0 200 200)
              (hashgrid_with (boxes 0 0 100 100) entry_A) entry_B) as [g1 |] eqn:Hins;
    [| vm_compute in Hins; discriminate].
  exists g1. split; [reflexivity |].
  exact (hashgrid_insert_then_remove (P := amd64) (boxes 0 0 200 200) (f32 64)
           HashGrid.NoPadding hashgrid_64 _ g1 grid_ops_A entry_B Hnew Hrun Hfresh Hins).
Defined.

(** ** [src/unnamed/part_000]: queries and round trips *)

Section RevFurther.
Context {T : Type} `{Countable T} {P : FloatToInt}.
Implicit Types (g : HashGridRev.Grid T) (entry e : T).

Lemma rev_query_cell_keep_first g x (res : list T) y :
  HashGridRev.query_cell g x res y
  = foldl keep_first res (bucket (HashGridRev.cells g) (encode_cell (x, y))).
Proof.
  unfold HashGridRev.query_cell, bucket, encode_cell. cbn [fst snd].
  change (HashGridRev.EncodeGridKey x y) with (Hash.EncodeGridKey x y).
  destruct (HashGridRev.cells g !! Hash.EncodeGridKey x y) as [entries |]; [| reflexivity].
  apply foldl_ext_in. intros res' e' _. unfold keep_first.
  destruct (decide (e' ∈ res')) as [Hin | Hin].
  - by rewrite bool_decide_eq_true_2.
  - by rewrite bool_decide_eq_false_2.
Qed.

Lemma rev_QueryUnsafe_unfold g minX minY maxX maxY sX sY eX eY :
  HashGridRev.computeCellRange minX minY maxX maxY (HashGridRev.cellSize g) = (sX, sY, eX, eY) ->
  HashGridRev.QueryUnsafe g minX minY maxX maxY
  = (first_occurrences
       (candidates encode_cell (HashGridRev.cells g) (column_major sX sY eX eY)),
     {| HashGridRev.cellSize := HashGridRev.cellSize g;
        HashGridRev.cells := HashGridRev.cells g;
        HashGridRev.cellKeys := HashGridRev.cellKeys g;
        HashGridRev.queryResults :=
          first_occurrences
            (candidates encode_cell (HashGridRev.cells g) (column_major sX sY eX eY));
        HashGridRev.queryKeys := HashGridRev.queryKeys g;
        HashGridRev.getKeys := HashGridRev.getKeys g |}).
Proof.
  intros Hr. unfold HashGridRev.QueryUnsafe. rewrite Hr.
  assert (for_range sX eX (fun res x => for_range sY eY (HashGridRev.query_cell g x) res) []
          = first_occurrences
              (candidates encode_cell (HashGridRev.cells g) (column_major sX sY eX eY))) as ->;
    [| reflexivity].
  rewrite (for_range_columns (HashGridRev.query_cell g)).
  unfold first_occurrences, candidates. rewrite foldl_bind.
  apply foldl_ext_in. intros res [x y] _. apply rev_query_cell_keep_first.
Qed.

Lemma rev_QueryUnsafe_mem g minX minY maxX maxY sX sY eX eY e :
  HashGridRev.computeCellRange minX minY maxX maxY (HashGridRev.cellSize g) = (sX, sY, eX, eY) ->
  e ∈ (HashGridRev.QueryUnsafe g minX minY maxX maxY).1
  <-> exists x y, sX <= x < eX /\ sY <= y < eY /\
                  e ∈ bucket (HashGridRev.cells g) (HashGridRev.EncodeGridKey x y).
Proof.
  intros Hr. rewrite (rev_QueryUnsafe_unfold g _ _ _ _ _ _ _ _ Hr). cbn [fst].
  rewrite (proj2 (first_occurrences_spec _)). unfold candidates. rewrite list_elem_of_bind.
  split.
  - intros ([x y] & He & Hc). apply elem_of_column_major in Hc. exists x, y. tauto.
  - intros (x & y & Hx & Hy & He). exists (x, y). split; [exact He |].
    by apply elem_of_column_major.
Qed.



(** X21: on a grid reached from a new one, inserting an entry that is not
    recorded and removing it again restores the buckets, with their
    order, and the reverse index; the key buffer holds the keys that were
    computed for the entry. *)
Theorem rev_insert_then_remove (E : GridEntry T) (cellSize : float32)
    (g0 : HashGridRev.Grid T) (ops : list rev_op) entry check :
  HashGridRev.New cellSize = Returned g0 ->
  let g := rev_run g0 ops in
  HashGridRev.cellKeys g !! entry = None ->
  let g1 := (HashGridRev.InsertStrictCheck g entry check).2 in
  let g2 := HashGridRev.Remove g1 entry in
  (HashGridRev.InsertStrictCheck g entry check).1 = true /\
  HashGridRev.cells g2 = HashGridRev.cells g /\
  HashGridRev.cellKeys g2 = HashGridRev.cellKeys g /\
  HashGridRev.cellSize g2 = HashGridRev.cellSize g.
Proof.
  intros Hnew g Hfresh g1 g2.
  assert (rev_inv g) as Hinv by (by apply (rev_reachable_inv cellSize)).
  destruct (InsertStrictCheck_unfold E g entry check Hfresh) as (Hret & Hcells & Hkeys).
  fold g1 in Hcells, Hkeys.
  pose proof (NoDup_getKeysInternal E g entry check) as Hnd.
  set (K := (HashGridRev.getKeysInternal g entry check).1) in *.
  assert (rev_inv g1) as Hinv1.
  { apply (rev_inv_step g (RevInsertStrictCheck E entry check) Hinv). }
  assert (HashGridRev.cellKeys g1 !! entry = Some K) as HK
    by (rewrite Hkeys; apply lookup_insert_eq).
  destruct (rev_Remove_cells g1 entry K Hinv1 HK) as [Hc2 Hk2]. fold g2 in Hc2, Hk2.
  split; [exact Hret |]. split; [| split].
  - rewrite Hc2, Hcells. apply drop_add_cancel; [exact Hnd | apply (inv_nonempty _ _ Hinv) |].
    intros k. by apply (index_inv_fresh _ _ _ _ Hinv).
  - rewrite Hk2, Hkeys. by apply delete_insert_id.
  - subst g2. unfold HashGridRev.Remove. rewrite HK. cbn.
    subst g1. unfold HashGridRev.InsertStrictCheck.
    rewrite bool_decide_eq_false_2 by (rewrite Hfresh; by intros [? ?]).
    unfold HashGridRev.GetKeys, HashGridRev.getKeysInternal.
    destruct (Min entry), (Max entry).
    by destruct (HashGridRev.computeCellRange _ _ _ _ _) as [[[? ?] ?] ?].
Qed.

(** X22: after an entry that is not recorded has been inserted, a query
    returns it exactly when a cell of its range that the check accepted
    lies in the cell range of the query rectangle. *)
Theorem rev_insert_then_Query (E : GridEntry T) (cellSize : float32)
    (g0 : HashGridRev.Grid T) (ops : list rev_op) entry check
    (minX minY maxX maxY : float32) (sX sY eX eY qsX qsY qeX qeY : Z) :
  HashGridRev.New cellSize = Returned g0 ->
  let g := rev_run g0 ops in
  HashGridRev.cellKeys g !! entry = None ->
  HashGridRev.computeCellRange (Min entry).1 (Min entry).2 (Max entry).1 (Max entry).2
    (HashGridRev.cellSize g) = (sX, sY, eX, eY) ->
  HashGridRev.computeCellRange minX minY maxX maxY (HashGridRev.cellSize g)
  = (qsX, qsY, qeX, qeY) ->
  let g1 := (HashGridRev.InsertStrictCheck g entry check).2 in
  entry ∈ (HashGridRev.QueryUnsafe g1 minX minY maxX maxY).1
  <-> exists x y, sX <= x < eX /\ sY <= y < eY /\ qsX <= x < qeX /\ qsY <= y < qeY /\
                  rev_accepts g check (x, y) = true.
Proof.
  intros Hnew g Hfresh Hr Hq g1.
  assert (rev_inv g) as Hinv by (by apply (rev_reachable_inv cellSize)).
  destruct (InsertStrictCheck_unfold E g entry check Hfresh) as (_ & Hcells & _).
  fold g1 in Hcells.
  pose proof (NoDup_getKeysInternal E g entry check) as Hnd.
  pose proof (getKeysInternal_keys E g entry check) as Hkeys. rewrite Hr in Hkeys.
  assert (HashGridRev.cellSize g1 = HashGridRev.cellSize g) as Hcs.
  { subst g1. unfold HashGridRev.InsertStrictCheck.
    rewrite bool_decide_eq_false_2 by (rewrite Hfresh; by intros [? ?]).
    unfold HashGridRev.GetKeys, HashGridRev.getKeysInternal.
    destruct (Min entry), (Max entry).
    by destruct (HashGridRev.computeCellRange _ _ _ _ _) as [[[? ?] ?] ?]. }
  rewrite <- Hcs in Hq.
  rewrite (rev_QueryUnsafe_mem g1 _ _ _ _ _ _ _ _ entry Hq).
  pose proof (computeCellRange_in_range _ _ _ _ _ _ _ _ _ Hr) as (HsX & HsY & HeX & HeY).
  pose proof (computeCellRange_in_range _ _ _ _ _ _ _ _ _ Hq) as (HqsX & HqsY & HqeX & HqeY).
  assert (forall k, entry ∈ bucket (HashGridRev.cells g1) k
                    <-> k ∈ (HashGridRev.getKeysInternal g entry check).1) as Hb.
  { intros k. rewrite Hcells, bucket_add_to_cells by exact Hnd.
    pose proof (index_inv_fresh _ _ entry k Hinv Hfresh) as Hnot.
    case_decide; [| tauto]. rewrite elem_of_app, list_elem_of_singleton. tauto. }
  split.
  - intros (x & y & Hx & Hy & Hin). apply Hb in Hin. rewrite Hkeys in Hin.
    apply list_elem_of_fmap in Hin as ([x' y'] & Heq & Hc).
    apply (list_elem_of_filter (fun c => rev_accepts g check c = true)) in Hc as [Hacc Hc].
    apply elem_of_column_major in Hc.
    change (HashGridRev.EncodeGridKey x y) with (Hash.EncodeGridKey x y) in Heq.
    unfold encode_cell in Heq. cbn [fst snd] in Heq.
    apply Hash_Encode_inj in Heq as [-> ->]; try (unfold Int.in_int32 in *; lia).
    exists x', y'. tauto.
  - intros (x & y & Hx & Hy & Hqx & Hqy & Hacc). exists x, y.
    split; [exact Hqx |]. split; [exact Hqy |]. apply Hb. rewrite Hkeys.
    apply list_elem_of_fmap. exists (x, y). split; [reflexivity |].
    apply (list_elem_of_filter (fun c => rev_accepts g check c = true)).
    split; [exact Hacc |]. by apply elem_of_column_major.
Qed.

End RevFurther.



Lemma rev_insert_then_remove_witness :
  HashGridRev.New (f32 64) = Returned hashgrid_rev_64 /\
  HashGridRev.cellKeys (rev_run (P := amd64) hashgrid_rev_64 rev_ops_A) !! entry_B = None /\
  HashGridRev.cells
    (HashGridRev.Remove
       (HashGridRev.InsertStrictCheck (P := amd64) (E := boxes 0 0 100 100)
          (rev_run (P := amd64) hashgrid_rev_64 rev_ops_A) entry_B None).2 entry_B)
  = HashGridRev.cells (rev_run (P := amd64) hashgrid_rev_64 rev_ops_A).
Proof.
  assert (HashGridRev.cellKeys (rev_run (P := amd64) hashgrid_rev_64 rev_ops_A) !! entry_B
          = None) as Hfresh by (vm_compute; reflexivity).
  split; [reflexivity |]. split; [exact Hfresh |].
  exact (proj1 (proj2 (rev_insert_then_remove (P := amd64) (boxes 0 0 100 100) (f32 64)
                         hashgrid_rev_64 rev_ops_A entry_B None eq_refl Hfresh))).
Defined.

Lemma rev_insert_then_Query_witness :
  HashGridRev.New (f32 64) = Returned hashgrid_rev_64 /\
  HashGridRev.cellKeys (rev_run (P := amd64) hashgrid_rev_64 rev_ops_A) !! entry_B = None /\
  HashGridRev.computeCellRange (P := amd64)
    (Min (GridEntry := boxes 100 100 120 120) entry_B).1
    (Min (GridEntry := boxes 100 100 120 120) entry_B).2
    (Max (GridEntry := boxes 100 100 120 120) entry_B).1
    (Max (GridEntry := boxes 100 100 120 120) entry_B).2
    (HashGridRev.cellSize (rev_run (P := amd64) hashgrid_rev_64 rev_ops_A)) = (1, 1, 2, 2) /\
  HashGridRev.computeCellRange (P := amd64) (f32 0) (f32 0) (f32 50) (f32 50)
    (HashGridRev.cellSize (rev_run (P := amd64) hashgrid_rev_64 rev_ops_A)) = (0, 0, 1, 1) /\
  entry_B ∉ (HashGridRev.QueryUnsafe (P := amd64)
               (HashGridRev.InsertStrictCheck (P := amd64) (E := boxes 100 100 120 120)
                  (rev_run (P := amd64) hashgrid_rev_64 rev_ops_A) entry_B None).2
               (f32 0) (f32 0) (f32 50) (f32 50)).1.
Proof.
  assert (HashGridRev.cellKeys (rev_run (P := amd64) hashgrid_rev_64 rev_ops_A) !! entry_B
          = None) as Hfresh by (vm_compute; reflexivity).
  assert (HashGridRev.computeCellRange (P := amd64)
            (Min (GridEntry := boxes 100 100 120 120) entry_B).1
            (Min (GridEntry := boxes 100 100 120 120) entry_B).2
            (Max (GridEntry := boxes 100 100 120 120) entry_B).1
            (Max (GridEntry := boxes 100 100 120 120) entry_B).2
            (HashGridRev.cellSize (rev_run (P := amd64) hashgrid_rev_64 rev_ops_A))
          = (1, 1, 2, 2)) as Hr by (vm_compute; reflexivity).
  assert (HashGridRev.computeCellRange (P := amd64) (f32 0) (f32 0) (f32 50) (f32 50)
            (HashGridRev.cellSize (rev_run (P := amd64) hashgrid_rev_64 rev_ops_A))
          = (0, 0, 1, 1)) as Hq by (vm_compute; reflexivity).
  split; [reflexivity |]. split; [exact Hfresh |]. split; [exact Hr |]. split; [exact Hq |].
  intros Hin.
  apply (proj1 (rev_insert_then_Query (P := amd64) (boxes 100 100 120 120) (f32 64)
                  hashgrid_rev_64 rev_ops_A entry_B None (f32 0) (f32 0) (f32 50) (f32 50)
                  1 1 2 2 0 0 1 1 eq_refl Hfresh Hr Hq))
    in Hin as (x & y & Hx & _ & Hqx & _).
  lia.
Defined.

(** ** [src/unnamed/part_001]: queries and buckets *)

Section V1Further.
Context {T : Type} `{Countable T} {P : FloatToInt}.
Implicit Types (g : HashGridV1.Grid T) (entry e : T) (cs : gmap Z (list T)).

Lemma v1_insert_key_eq entry cs key :
  HashGridV1.insert_key entry cs key = HashGrid.insert_key entry cs key.
Proof.
  unfold HashGridV1.insert_key, HashGrid.insert_key.
  destruct (cs !! key) as [b |] eqn:Hb.
  - by destruct (bool_decide (entry ∈ bucket cs key)).
  - assert (bucket cs key = []) as Hnil by (unfold bucket; by rewrite Hb).
    rewrite Hnil, bucket_insert, decide_True by reflexivity.
    rewrite !bool_decide_eq_false_2 by apply not_elem_of_nil. cbn [negb].
    apply insert_insert_eq.
Qed.

Lemma v1_remove_key_eq entry cs key :
  (forall k b, cs !! k = Some b -> b ≠ []) ->
  HashGridV1.remove_key entry cs key = remove_first entry cs key.
Proof.
  intros Hne. unfold HashGridV1.remove_key, remove_first.
  destruct (index_of entry (bucket cs key)) as [j |].
  - rewrite bucket_insert, decide_True by reflexivity.
    destruct (length (take j (bucket cs key) ++ drop (S j) (bucket cs key)) =? 0)%nat;
      [apply delete_insert_eq | reflexivity].
  - destruct (length (bucket cs key) =? 0)%nat eqn:Hlen; [| reflexivity].
    apply Nat.eqb_eq in Hlen. apply delete_id.
    destruct (cs !! key) as [b |] eqn:Hb; [| reflexivity].
    rewrite (bucket_lookup _ _ _ Hb) in Hlen. destruct b; [| discriminate].
    by destruct (Hne key [] Hb).
Qed.

Lemma v1_step_ok g g' (o : grid_op) :
  buckets_ok (HashGridV1.cells g) -> v1_step g o = Some g' ->
  buckets_ok (HashGridV1.cells g') /\ HashGridV1.cellSize g' = HashGridV1.cellSize g.
Proof.
  intros Hok. destruct o as [E entry | E entry |]; cbn [v1_step].
  - unfold HashGridV1.Insert.
    destruct (HashGridV1.GetKeys g entry) as [keys |]; [| discriminate].
    intros [= <-]. cbn. split; [| done].
    apply (foldl_preserves buckets_ok); [| exact Hok].
    intros cs key _ Hcs. rewrite v1_insert_key_eq. by apply insert_key_ok.
  - unfold HashGridV1.Remove.
    destruct (HashGridV1.GetKeys g entry) as [keys |]; [| discriminate].
    intros [= <-]. cbn. split; [| done].
    apply (foldl_preserves buckets_ok); [| exact Hok].
    intros cs key _ Hcs. rewrite v1_remove_key_eq by (by apply buckets_ok_nonempty).
    by apply remove_first_ok.
  - intros [= <-]. cbn. split; [apply buckets_ok_empty | done].
Qed.

(** X23: after any sequence of [Insert], [Remove] and [Clear] calls that
    return, on a grid made by [New], every stored bucket is non-empty and
    holds no entry twice, whatever boxes the entries reported at each
    call, and the cell size is the one given at construction.  The empty
    slice [Insert] stores for a missing key never survives the call. *)
Theorem v1_buckets_stay_ok (cellSize : float32) (g0 g : HashGridV1.Grid T)
    (ops : list grid_op) :
  HashGridV1.New cellSize = Returned g0 ->
  v1_run g0 ops = Some g ->
  buckets_ok (HashGridV1.cells g) /\ HashGridV1.cellSize g = cellSize.
Proof.
  intros Hnew Hrun.
  assert (buckets_ok (HashGridV1.cells g0) /\ HashGridV1.cellSize g0 = cellSize) as Hinit.
  { unfold HashGridV1.New in Hnew.
    destruct (F32.leb cellSize F32.zero); [discriminate |]. injection Hnew as <-.
    split; [apply buckets_ok_empty | reflexivity]. }
  apply (foldl_opt_preserves
           (fun g => buckets_ok (HashGridV1.cells g) /\ HashGridV1.cellSize g = cellSize)
           v1_step ops g0 g); [| exact Hinit | exact Hrun].
  intros g1 o g2 _ [Hok1 Hcs1] Hstep.
  destruct (v1_step_ok g1 g2 o Hok1 Hstep) as [Hok2 Hcs2]. split; [exact Hok2 | congruence].
Qed.

Lemma v1_GetKeys_unfold (E : GridEntry T) g entry sX sY eX eY :
  v1_range (HashGridV1.cellSize g) (Min entry).1 (Min entry).2 (Max entry).1 (Max entry).2
  = (sX, sY, eX, eY) ->
  HashGridV1.GetKeys g entry
  = if loops_return Int.max_int64 sX sY eX eY
    then Some (v1_key <$> closed_cells sX sY eX eY) else None.
Proof.
  unfold v1_range, HashGridV1.GetKeys.
  destruct (Min entry) as [minX minY], (Max entry) as [maxX maxY]. cbn [fst snd].
  intros [= -> -> -> ->].
  rewrite (for_range_incl_nested Int.max_int64
             (fun x keys y => keys ++ [HashGridV1.NewGridKey x y])).
  destruct (loops_return _ _ _ _ _); [| reflexivity]. f_equal.
  apply (foldl_snoc_fmap v1_key _ []).
Qed.

Lemma v1_Query_unfold (E : GridEntry T) g minX minY maxX maxY sX sY eX eY :
  v1_range (HashGridV1.cellSize g) minX minY maxX maxY = (sX, sY, eX, eY) ->
  HashGridV1.Query g minX minY maxX maxY
  = if loops_return Int.max_int64 sX sY eX eY
    then Some (first_occurrences
                 (filter (fun e => overlaps E minX minY maxX maxY e = true)
                    (candidates v1_key (HashGridV1.cells g) (closed_cells sX sY eX eY))))
    else None.
Proof.
  unfold v1_range, HashGridV1.Query. intros [= HsX HsY HeX HeY].
  rewrite HsX, HsY, HeX, HeY.
  rewrite (for_range_incl_nested Int.max_int64
             (fun x st y => foldl (HashGridV1.visit minX minY maxX maxY) st
                              (bucket (HashGridV1.cells g) (HashGridV1.NewGridKey x y)))).
  destruct (loops_return _ _ _ _ _); [| reflexivity]. cbn [fmap option_fmap option_map].
  f_equal. unfold first_occurrences.
  assert (forall e : T, e ∈ (∅ : gset T) <-> e ∈ ([] : list T)) as Hst
    by (intros e; rewrite elem_of_empty, elem_of_nil; tauto).
  pose proof (proj1 (hashgrid_visit_fold E minX minY maxX maxY
                       (candidates v1_key (HashGridV1.cells g) (closed_cells sX sY eX eY))
                       (∅, []) Hst)) as Hv.
  cbn [snd] in Hv. rewrite <- Hv. unfold candidates. by rewrite foldl_bind.
Qed.

(** X24: when its loops return, [Query] yields the first occurrences, in
    the order the closed range of truncated quotients is walked column by
    column, of the bucket entries whose box overlaps the rectangle, edges
    included; the bounds are of type [int], and the loops return unless a
    bound that is reached is [math.MaxInt64]. *)
Theorem v1_Query_result (E : GridEntry T) g minX minY maxX maxY sX sY eX eY :
  v1_range (HashGridV1.cellSize g) minX minY maxX maxY = (sX, sY, eX, eY) ->
  HashGridV1.Query g minX minY maxX maxY
  = (if loops_return Int.max_int64 sX sY eX eY
     then Some (first_occurrences
                  (filter (fun e => overlaps E minX minY maxX maxY e = true)
                     (candidates v1_key (HashGridV1.cells g) (closed_cells sX sY eX eY))))
     else None) /\
  (forall r, HashGridV1.Query g minX minY maxX maxY = Some r ->
     NoDup r /\
     forall e, e ∈ r <-> overlaps E minX minY maxX maxY e = true /\
                         exists x y, sX <= x <= eX /\ sY <= y <= eY /\
                                     e ∈ bucket (HashGridV1.cells g) (HashGridV1.NewGridKey x y)).
Proof.
  intros Hr. pose proof (v1_Query_unfold E g _ _ _ _ _ _ _ _ Hr) as Hq.
  split; [exact Hq |]. intros r. rewrite Hq.
  destruct (loops_return _ _ _ _ _); [| discriminate]. intros [= <-].
  destruct (first_occurrences_spec
              (filter (fun e => overlaps E minX minY maxX maxY e = true)
                 (candidates v1_key (HashGridV1.cells g) (closed_cells sX sY eX eY))))
    as [Hnd Hmem].
  split; [exact Hnd |]. intros e. rewrite Hmem.
  rewrite (list_elem_of_filter (fun e => overlaps E minX minY maxX maxY e = true)).
  unfold candidates. rewrite list_elem_of_bind.
  split; intros [Hov Hin]; (split; [exact Hov |]).
  - destruct Hin as ([x y] & He & Hc). apply elem_of_closed_cells in Hc. exists x, y. tauto.
  - destruct Hin as (x & y & Hx & Hy & He). exists (x, y). split; [exact He |].
    by apply elem_of_closed_cells.
Qed.

(** X25: an entry whose box is ordered and covers at least one cell is
    found by a query over its own box right after its insertion: [Query]
    returns, and the entry is in the result.  ([src/hashgrid/grid.go]
    loses this through the [- 1] of its [GetKeys].) *)
Theorem v1_insert_finds_entry (E : GridEntry T) g g1 entry sX sY eX eY :
  v1_range (HashGridV1.cellSize g) (Min entry).1 (Min entry).2 (Max entry).1 (Max entry).2
  = (sX, sY, eX, eY) ->
  sX <= eX -> sY <= eY ->
  F32.leb (Min entry).1 (Max entry).1 = true ->
  F32.leb (Min entry).2 (Max entry).2 = true ->
  HashGridV1.Insert g entry = Some g1 ->
  exists r,
    HashGridV1.Query g1 (Min entry).1 (Min entry).2 (Max entry).1 (Max entry).2 = Some r /\
    entry ∈ r.
Proof.
  intros Hr HX HY HleX HleY Hins. unfold HashGridV1.Insert in Hins.
  rewrite (v1_GetKeys_unfold E g entry _ _ _ _ Hr) in Hins.
  destruct (loops_return Int.max_int64 sX sY eX eY) eqn:Hret; [| discriminate].
  cbn in Hins. injection Hins as <-.
  rewrite (v1_Query_unfold E _ _ _ _ _ sX sY eX eY) by exact Hr. rewrite Hret.
  eexists. split; [reflexivity |].
  apply first_occurrences_spec.
  apply (list_elem_of_filter
           (fun e => overlaps E (Min entry).1 (Min entry).2 (Max entry).1 (Max entry).2 e = true)).
  split.
  - unfold overlaps, F32.geb, F32.leb in *. by rewrite HleX, HleY.
  - unfold candidates. apply list_elem_of_bind. exists (sX, sY).
    split; [| apply elem_of_closed_cells; lia]. cbn [HashGridV1.cells].
    rewrite (foldl_ext_in _ (HashGrid.insert_key entry))
      by (intros; apply v1_insert_key_eq).
    apply insert_keys_present_after. left.
    apply list_elem_of_fmap. exists (sX, sY). split; [reflexivity |].
    apply elem_of_closed_cells. lia.
Qed.

End V1Further.

Lemma v1_buckets_stay_ok_witness :
  HashGridV1.New (f32 64) = Returned hashgrid_v1_64 /\
  v1_run (P := amd64) hashgrid_v1_64 grid_ops_A = Some hashgrid_v1_A /\
  buckets_ok (HashGridV1.cells hashgrid_v1_A).
Proof.
  assert (v1_run (P := amd64) hashgrid_v1_64 grid_ops_A = Some hashgrid_v1_A) as Hrun
    by (vm_compute; reflexivity).
  split; [reflexivity |]. split; [exact Hrun |].
  exact (proj1 (v1_buckets_stay_ok (P := amd64) (f32 64) hashgrid_v1_64 hashgrid_v1_A
                  grid_ops_A eq_refl Hrun)).
Defined.

Lemma v1_Query_result_witness :
  v1_range (P := amd64) (HashGridV1.cellSize hashgrid_v1_A) (f32 0) (f32 0) (f32 50) (f32 50)
  = (0, 0, 0, 0) /\
  HashGridV1.Query (P := amd64) (E := boxes 0 0 100 100) hashgrid_v1_A
    (f32 0) (f32 0) (f32 50) (f32 50) = Some [entry_A] /\
  NoDup [entry_A].
Proof.
  assert (v1_range (P := amd64) (HashGridV1.cellSize hashgrid_v1_A)
            (f32 0) (f32 0) (f32 50) (f32 50) = (0, 0, 0, 0)) as Hr
    by (vm_compute; reflexivity).
  assert (HashGridV1.Query (P := amd64) (E := boxes 0 0 100 100) hashgrid_v1_A
            (f32 0) (f32 0) (f32 50) (f32 50) = Some [entry_A]) as Hq
    by (vm_compute; reflexivity).
  split; [exact Hr |]. split; [exact Hq |].
  exact (proj1 (proj2 (v1_Query_result (P := amd64) (boxes 0 0 100 100) hashgrid_v1_A
                         (f32 0) (f32 0) (f32 50) (f32 50) 0 0 0 0 Hr) [entry_A] Hq)).
Defined.

Lemma v1_insert_finds_entry_witness :
  v1_range (P := amd64) (HashGridV1.cellSize hashgrid_v1_64)
    (Min (GridEntry := boxes 0 0 32 32) entry_A).1 (Min (GridEntry := boxes 0 0 32 32) entry_A).2
    (Max (GridEntry := boxes 0 0 32 32) entry_A).1 (Max (GridEntry := boxes 0 0 32 32) entry_A).2
  = (0, 0, 0, 0) /\
  exists g1 r,
    HashGridV1.Insert (P := amd64) (E := boxes 0 0 32 32) hashgrid_v1_64 entry_A = Some g1 /\
    HashGridV1.Query (P := amd64) (E := boxes 0 0 32 32) g1
      (f32 0) (f32 0) (f32 32) (f32 32) = Some r /\
    entry_A ∈ r.
Proof.
  assert (v1_range (P := amd64) (HashGridV1.cellSize hashgrid_v1_64)
            (Min (GridEntry := boxes 0 0 32 32) entry_A).1
            (Min (GridEntry := boxes 0 0 32 32) entry_A).2
            (Max (GridEntry := boxes 0 0 32 32) entry_A).1
            (Max (GridEntry := boxes 0 0 32 32) entry_A).2
          = (0, 0, 0, 0)) as Hr by (vm_compute; reflexivity).
  split; [exact Hr |].
  destruct (HashGridV1.Insert (P := amd64) (E := boxes 0 0 32 32) hashgrid_v1_64 entry_A)
    as [g1 |] eqn:Hins; [| vm_compute in Hins; discriminate].
  destruct (v1_insert_finds_entry (P := amd64) (boxes 0 0 32 32) hashgrid_v1_64 g1 entry_A
              0 0 0 0 Hr ltac:(lia) ltac:(lia) eq_refl eq_refl Hins) as (r & Hq & Hin).
  exists g1, r. split; [reflexivity |]. split; [exact Hq | exact Hin].
Defined.

(** ** Package [linq] *)

Section LinqProperties.
Context {T : Type} `{Countable T}.

Lemma distinct_fold (l : list T) :
  forall st : gset T * list T,
    (forall x, x ∈ st.1 <-> x ∈ st.2) ->
    (foldl Linq.distinct_step st l).2 = foldl keep_first st.2 l /\
    (forall x, x ∈ (foldl Linq.distinct_step st l).1 <-> x ∈ (foldl Linq.distinct_step st l).2).
Proof.
  induction l as [| y l IH]; intros st Hst; cbn [foldl]; [by split |].
  assert ((Linq.distinct_step st y).2 = keep_first st.2 y /\
          forall x, x ∈ (Linq.distinct_step st y).1 <-> x ∈ (Linq.distinct_step st y).2)
    as [Hstep Hst'].
  { unfold Linq.distinct_step, keep_first. destruct (decide (y ∈ st.1)) as [Hin | Hin].
    - rewrite bool_decide_eq_true_2 by exact Hin.
      rewrite decide_True by (by apply Hst). by split.
    - rewrite bool_decide_eq_false_2 by exact Hin.
      rewrite decide_False by (by rewrite <- Hst). split; [reflexivity |].
      intros x. cbn [fst snd].
      rewrite elem_of_union, elem_of_singleton, elem_of_app, list_elem_of_singleton, Hst.
      tauto. }
  rewrite <- Hstep. by apply IH.
Qed.

Lemma Distinct_eq (items : list T) : Linq.Distinct items = first_occurrences items.
Proof.
  unfold Linq.Distinct, first_occurrences.
  apply (distinct_fold items (∅, [])). intros x. cbn [fst snd].
  rewrite elem_of_empty, elem_of_nil. tauto.
Qed.

Lemma keep_first_fold_sublist (l acc : list T) :
  exists l', foldl keep_first acc l = acc ++ l' /\ l' `sublist_of` l.
Proof.
  revert acc. induction l as [| y l IH]; intros acc; cbn [foldl].
  - exists []. by rewrite app_nil_r.
  - unfold keep_first at 2. destruct (decide (y ∈ acc)) as [Hin | Hin].
    + destruct (IH acc) as (l' & -> & Hsub). exists l'. split; [reflexivity |].
      by apply sublist_cons.
    + destruct (IH (acc ++ [y])) as (l' & -> & Hsub). exists (y :: l').
      split; [by rewrite <- app_assoc |]. by apply sublist_skip.
Qed.

(** X26: [Distinct] returns the first occurrence of every item, in the
    order of the input: the result has no duplicate, has the elements of
    the input, is a subsequence of it, and is the input itself when the
    input has no duplicate; so applying [Distinct] twice is applying it
    once. *)
Theorem Distinct_first_occurrences (items : list T) :
  Linq.Distinct items = first_occurrences items /\
  NoDup (Linq.Distinct items) /\
  (forall x, x ∈ Linq.Distinct items <-> x ∈ items) /\
  Linq.Distinct items `sublist_of` items /\
  (NoDup items -> Linq.Distinct items = items) /\
  Linq.Distinct (Linq.Distinct items) = Linq.Distinct items.
Proof.
  rewrite !Distinct_eq.
  destruct (first_occurrences_spec items) as [Hnd Hmem].
  assert (forall l : list T, NoDup l -> first_occurrences l = l) as Hfix.
  { intros l Hl. unfold first_occurrences. by rewrite keep_first_fold_NoDup. }
  split; [reflexivity |]. split; [exact Hnd |]. split; [exact Hmem |].
  split; [| split; [apply Hfix | by apply Hfix]].
  unfold first_occurrences. by destruct (keep_first_fold_sublist items []) as (l' & -> & Hsub).
Qed.

End LinqProperties.

Section BatchProperties.
Context {T : Type}.

Lemma batch_loop_spec (items : list T) (size : Z) :
  0 < size <= Int.max_int64 ->
  Z.of_nat (length items) < 2 ^ 62 ->
  forall (fuel : nat) (i : Z) (batches : list (list T)),
    0 <= i -> (i = 0 \/ size <= i) ->
    (Z.of_nat (length items) - i <= Z.of_nat fuel) ->
    concat batches = take (Z.to_nat i) items ->
    (forall b, b ∈ batches -> 0 < Z.of_nat (length b) <= size) ->
    (forall j b, batches !! j = Some b ->
                 (S j < length batches)%nat \/ i < Z.of_nat (length items) ->
                 Z.of_nat (length b) = size) ->
    exists bs,
      Linq.batch_loop fuel items size i batches = Some (Returned bs) /\
      concat bs = items /\
      (forall b, b ∈ bs -> 0 < Z.of_nat (length b) <= size) /\
      (forall j b, bs !! j = Some b -> (S j < length bs)%nat -> Z.of_nat (length b) = size).
Proof.
  intros Hsize Hlen. unfold Int.max_int64 in Hsize.
  induction fuel as [| fuel IH]; intros i batches Hi Hmult Hfuel Hcat Hall Hfull.
  - cbn [Linq.batch_loop]. rewrite (proj2 (Z.ltb_ge _ _)) by lia.
    exists batches. split; [reflexivity |]. split; [| split].
    + rewrite Hcat. apply take_ge. lia.
    + exact Hall.
    + intros j b Hb Hj. apply (Hfull j b Hb). by left.
  - cbn [Linq.batch_loop]. destruct (Z.ltb_spec i (Z.of_nat (length items))) as [Hlt | Hge].
    + assert (Int.to_int64 (i + size) = i + size) as Hsum.
      { unfold Int.to_int64. Z.div_mod_to_equations. lia. }
      rewrite Hsum.
      set (end_ := Z.min (i + size) (Z.of_nat (length items))).
      assert (i < end_ <= i + size /\ end_ <= Z.of_nat (length items)) as Hend
        by (unfold end_; lia).
      rewrite (proj2 (Z.leb_le 0 i)) by lia. rewrite (proj2 (Z.leb_le i end_)) by lia.
      cbn [andb].
      assert (length (take (Z.to_nat (end_ - i)) (drop (Z.to_nat i) items))
              = Z.to_nat (end_ - i)) as Hblen.
      { rewrite length_take, length_drop. lia. }
      apply IH; try lia.
      * rewrite concat_app, Hcat. cbn [concat]. rewrite app_nil_r.
        rewrite take_take_drop.
        destruct (Z.le_ge_cases (i + size) (Z.of_nat (length items))) as [Hle | Hgt].
        -- f_equal. unfold end_. lia.
        -- rewrite !take_ge; [reflexivity | lia | unfold end_; lia].
      * intros b Hb. apply elem_of_app in Hb as [Hb | Hb]; [by apply Hall |].
        apply list_elem_of_singleton in Hb. subst b. rewrite Hblen. lia.
      * intros j b Hb Hcond. rewrite length_app in Hcond. cbn [length] in Hcond.
        destruct (decide (j < length batches)%nat) as [Hj | Hj].
        -- rewrite lookup_app_l in Hb by exact Hj. apply (Hfull j b Hb). by right.
        -- rewrite lookup_app_r in Hb by lia.
           destruct (j - length batches)%nat eqn:Hjj; [| by destruct n].
           cbn in Hb. injection Hb as <-. rewrite Hblen. unfold end_. lia.
    + exists batches. split; [reflexivity |]. split; [| split].
      * rewrite Hcat. apply take_ge. lia.
      * exact Hall.
      * intros j b Hb Hj. apply (Hfull j b Hb). by left.
Qed.

(** X27: for a size that is not positive [Batch] returns no batch.  For a
    positive size and a slice of fewer than [2^62] elements, with fuel
    for as many iterations as there are elements, [Batch] returns without
    panic; the batches concatenated are the input, every batch is
    non-empty and at most [size] long, and every batch but the last has
    exactly [size] elements. *)
Theorem Batch_chunks (items : list T) (size : Z) (fuel : nat) :
  (size <= 0 -> Linq.Batch fuel items size = Some (Returned [])) /\
  (0 < size <= Int.max_int64 ->
   Z.of_nat (length items) < 2 ^ 62 ->
   (length items <= fuel)%nat ->
   exists bs,
     Linq.Batch fuel items size = Some (Returned bs) /\
     concat bs = items /\
     (forall b, b ∈ bs -> 0 < Z.of_nat (length b) <= size) /\
     (forall j b, bs !! j = Some b -> (S j < length bs)%nat -> Z.of_nat (length b) = size) /\
     (items = [] -> bs = [])).
Proof.
  split.
  - intros Hsize. unfold Linq.Batch. by rewrite (proj2 (Z.leb_le size 0)) by exact Hsize.
  - intros Hsize Hlen Hfuel. unfold Linq.Batch.
    rewrite (proj2 (Z.leb_gt size 0)) by lia.
    destruct (batch_loop_spec items size Hsize Hlen fuel 0 [])
      as (bs & Hrun & Hcat & Hall & Hfull); try lia.
    + reflexivity.
    + intros b Hb. by apply not_elem_of_nil in Hb.
    + intros j b Hb. by rewrite lookup_nil in Hb.
    + exists bs. split; [exact Hrun |]. split; [exact Hcat |]. split; [exact Hall |].
      split; [exact Hfull |]. intros ->.
      destruct bs as [| b bs]; [reflexivity |].
      assert (b = []) as -> by (cbn in Hcat; by destruct b).
      specialize (Hall [] ltac:(left)). cbn in Hall. lia.
Qed.

End BatchProperties.

(** ** Package [pool] *)

Section PoolProperties.
Context {T St : Type}.
Implicit Types (p : Pool.Pool T St) (s : St).

Lemma Get_Put p (item : T) s : Pool.Get (Pool.Put p item) s = Returned (item, p, s).
Proof.
  unfold Pool.Get, Pool.Put. cbn [Pool.items Pool.New].
  rewrite length_app. cbn [length]. rewrite Nat.add_1_r. cbn [Nat.eqb].
  replace (S (length (Pool.items p)) - 1)%nat with (length (Pool.items p)) by lia.
  rewrite lookup_app_r by lia. rewrite Nat.sub_diag. cbn [lookup list_lookup].
  rewrite take_app_length. by destruct p.
Qed.

Lemma Put_all p (xs : list T) (x : T) :
  foldl Pool.Put p (xs ++ [x]) = Pool.Put (foldl Pool.Put p xs) x.
Proof. by rewrite foldl_app. Qed.

(** X28: the pool is a stack.  Items put in are handed out by [Get] in
    the reverse order, without a call of [New], and the pool is then as
    it was before; [Len] counts the items.  On an empty pool [Get]
    returns what [New] makes and stores nothing, and panics when [New] is
    [nil]; on a non-empty pool it takes the last item and leaves the
    state of [New] alone. *)
Theorem pool_lifo p (xs : list T) s :
  get_n (length xs) (foldl Pool.Put p xs) s = Returned (rev xs, p, s) /\
  Pool.Len (foldl Pool.Put p xs) = Pool.Len p + Z.of_nat (length xs) /\
  (Pool.Len p = 0 ->
   forall new, Pool.New p = Some new -> Pool.Get p s = Returned ((new s).1, p, (new s).2)) /\
  (Pool.Len p = 0 -> Pool.New p = None -> exists msg, Pool.Get p s = Panicked msg) /\
  (Pool.Len p ≠ 0 ->
   exists item p', Pool.Get p s = Returned (item, p', s) /\
                   Pool.Len p' = Pool.Len p - 1 /\ Pool.Put p' item = p).
Proof.
  split; [| split; [| split; [| split]]].
  - induction xs as [| x xs IH] using rev_ind; [reflexivity |].
    rewrite length_app, Put_all, rev_app_distr. cbn [length rev app].
    rewrite Nat.add_1_r. cbn [get_n]. by rewrite Get_Put, IH.
  - induction xs as [| x xs IH] using rev_ind; [cbn; lia |].
    rewrite Put_all, length_app. unfold Pool.Len in *. cbn [Pool.Put Pool.items length].
    rewrite length_app. cbn [length]. lia.
  - unfold Pool.Len, Pool.Get. intros Hlen new Hnew.
    destruct (Pool.items p); [| cbn in Hlen; lia]. cbn [length Nat.eqb].
    rewrite Hnew. by destruct (new s).
  - unfold Pool.Len, Pool.Get. intros Hlen Hnew.
    destruct (Pool.items p); [| cbn in Hlen; lia]. cbn [length Nat.eqb].
    rewrite Hnew. by eexists.
  - unfold Pool.Len. intros Hlen.
    destruct (Pool.items p) as [| x l] eqn:Hitems using rev_ind; [done |]. clear IHl.
    exists x, {| Pool.items := l; Pool.New := Pool.New p |}.
    assert (p = Pool.Put {| Pool.items := l; Pool.New := Pool.New p |} x) as Hp
      by (destruct p; cbn in *; by subst).
    split; [rewrite Hp at 1; apply Get_Put |]. split; [| by rewrite <- Hp].
    cbn [Pool.items]. rewrite length_app. cbn [length]. lia.
Qed.

End PoolProperties.

(** ** The sets *)

Section SetProperties.
Context {T : Type} `{Countable T}.

Lemma add_all_distinct (items : list T) :
  forall st : list T * gset T,
    foldl (fun st item =>
             let '(added, s') := HashSet.Add st.2 item in
             (if added then st.1 ++ [item] else st.1, s')) st items
    = ((foldl Linq.distinct_step (st.2, st.1) items).2,
       (foldl Linq.distinct_step (st.2, st.1) items).1).
Proof.
  induction items as [| x items IH]; intros [l s]; cbn [foldl fst snd]; [reflexivity |].
  unfold HashSet.Add, HashSet.Contains, Linq.distinct_step at 2 4. cbn [fst snd].
  destruct (bool_decide (x ∈ s)); by rewrite IH.
Qed.

(** X29: when [Add] is called on every item of a list, starting from a
    new set, it returns [true] for the first occurrence of every item:
    the accepted items are [linq.Distinct] of the list.  The set then
    contains exactly the items of the list, [Size] is the number of
    distinct items, and [ToSlice] lists them once each in some order.
    [Add] of package [hashset] leaves the same set as [Add] of [hash.Set],
    and [Remove] takes an item out whether or not it was in. *)
Theorem set_add_all (items : list T) :
  let r := add_all (HashSet.NewSet []) items in
  r.1 = Linq.Distinct items /\
  (forall x, HashSet.Contains r.2 x = true <-> x ∈ items) /\
  HashSet.Size r.2 = Z.of_nat (length (Linq.Distinct items)) /\
  HashSet.ToSlice r.2 ≡ₚ Linq.Distinct items /\
  (forall (s : gset T) x, (HashSet.Add s x).2 = HashSetV2.Add s x) /\
  (forall (s : gset T) x,
      (HashSet.Add s x).1 = negb (HashSet.Contains s x) /\
      HashSet.Contains (HashSet.Add s x).2 x = true /\
      HashSet.Contains (HashSet.Remove s x) x = false).
Proof.
  intros r. subst r. unfold add_all, HashSet.NewSet.
  rewrite add_all_distinct. cbn [fst snd].
  assert (forall x : T, x ∈ (∅ : gset T) <-> x ∈ ([] : list T)) as Hst
    by (intros x; rewrite elem_of_empty, elem_of_nil; tauto).
  destruct (distinct_fold items (∅, []) Hst) as [_ Hsame].
  fold (Linq.Distinct items) in *.
  destruct (first_occurrences_spec items) as [Hnd Hmem]. rewrite <- Distinct_eq in Hnd, Hmem.
  assert (elements (foldl Linq.distinct_step (∅, []) items).1 ≡ₚ Linq.Distinct items)
    as Hperm.
  { apply NoDup_Permutation; [apply NoDup_elements | exact Hnd |].
    intros x. rewrite elem_of_elements. apply Hsame. }
  split; [reflexivity |]. split; [| split; [| split; [| split]]].
  - intros x. unfold HashSet.Contains. rewrite bool_decide_eq_true, Hsame. apply Hmem.
  - unfold HashSet.Size, size, set_size. cbn. by rewrite Hperm.
  - exact Hperm.
  - intros s x. unfold HashSet.Add, HashSetV2.Add, HashSet.Contains, HashSetV2.Contains.
    by destruct (bool_decide (x ∈ s)).
  - intros s x. unfold HashSet.Add, HashSet.Remove, HashSet.Contains.
    split; [by destruct (bool_decide (x ∈ s)) |]. split.
    + destruct (bool_decide (x ∈ s)) eqn:Hin; cbn [snd]; [exact Hin |].
      apply bool_decide_eq_true. apply elem_of_union. left. by apply elem_of_singleton.
    + apply bool_decide_eq_false. rewrite elem_of_difference, elem_of_singleton. tauto.
Qed.

End SetProperties.

Lemma Distinct_first_occurrences_witness :
  NoDup [entry_A; entry_B] /\ Linq.Distinct [entry_A; entry_B] = [entry_A; entry_B].
Proof.
  assert (NoDup [entry_A; entry_B]) as Hnd.
  { apply NoDup_cons. split; [| apply NoDup_singleton].
    intros Hin. apply list_elem_of_singleton in Hin. discriminate. }
  split; [exact Hnd |].
  exact (proj1 (proj2 (proj2 (proj2 (proj2
           (Distinct_first_occurrences [entry_A; entry_B]))))) Hnd).
Defined.

Lemma Batch_chunks_witness :
  (- 1 <= 0 /\ Linq.Batch 0 [1; 2; 3; 4; 5] (- 1) = Some (Returned [])) /\
  (0 < 2 <= Int.max_int64 /\
   Z.of_nat (length [1; 2; 3; 4; 5]) < 2 ^ 62 /\
   (length [1; 2; 3; 4; 5] <= 5)%nat /\
   exists bs, Linq.Batch 5 [1; 2; 3; 4; 5] 2 = Some (Returned bs) /\
              concat bs = [1; 2; 3; 4; 5]).
Proof.
  split.
  - split; [lia |].
    exact (proj1 (Batch_chunks [1; 2; 3; 4; 5] (- 1) 0) ltac:(lia)).
  - assert (0 < 2 <= Int.max_int64) as Hsize by (unfold Int.max_int64; lia).
    assert (Z.of_nat (length [1; 2; 3; 4; 5]) < 2 ^ 62) as Hlen by (cbn; lia).
    assert (length [1; 2; 3; 4; 5] <= 5)%nat as Hfuel by (cbn; lia).
    split; [exact Hsize |]. split; [exact Hlen |]. split; [exact Hfuel |].
    destruct (proj2 (Batch_chunks [1; 2; 3; 4; 5] 2 5) Hsize Hlen Hfuel)
      as (bs & Hrun & Hcat & _).
    exists bs. split; [exact Hrun | exact Hcat].
Defined.

Lemma pool_lifo_witness :
  Pool.Len {| Pool.items := @nil nat; Pool.New := Some counting_new |} = 0 /\
  Pool.Get {| Pool.items := @nil nat; Pool.New := Some counting_new |} 7%nat
  = Returned (7%nat, {| Pool.items := []; Pool.New := Some counting_new |}, 8%nat).
Proof.
  split; [reflexivity |].
  exact (proj1 (proj2 (proj2
           (pool_lifo {| Pool.items := @nil nat; Pool.New := Some counting_new |} [] 7%nat)))
           eq_refl counting_new eq_refl).
Defined.

(** ** The grid of one cell size ([src/pool/pool.go]) *)

Lemma foldl_hits {A B : Type} (Pre Post : A -> Prop) (f : A -> B -> A) (hit : B -> Prop)
    (l : list B) :
  (forall a x, Pre a -> Pre (f a x)) ->
  (forall a x, Post a -> Post (f a x)) ->
  (forall a x, Pre a -> hit x -> Post (f a x)) ->
  forall a, Pre a -> (exists x, x ∈ l /\ hit x) -> Post (foldl f a l).
Proof.
  intros Hpre Hpost Hhit. induction l as [| y l IH]; intros a Ha (x & Hx & Hhx).
  - by apply elem_of_nil in Hx.
  - cbn [foldl]. apply elem_of_cons in Hx as [-> | Hx].
    + apply (foldl_preserves Post); [intros; by apply Hpost | by apply Hhit].
    + apply IH; [by apply Hpre | by exists x].
Qed.

Section HashV0Properties.
Context {T : Type} `{Countable T} {P : FloatToInt}.
Implicit Types (g : HashV0.Grid T) (item e : T).

Lemma v0_cellKey g x y : HashV0.cellKey g x y = Hash.EncodeGridKey x y.
Proof. reflexivity. Qed.

Lemma v0_insert_loop g item (L : list (Z * Z)) cs acc :
  foldl (fun st c => HashV0.insert_cell g item c.1 st c.2) (cs, acc) L
  = (add_to_cells item cs (row_key <$> L), acc ++ (row_key <$> L)).
Proof.
  revert cs acc. induction L as [| c L IH]; intros cs acc.
  - cbn. by rewrite app_nil_r.
  - cbn [foldl fmap list_fmap]. unfold HashV0.insert_cell at 2. cbn [fst snd].
    rewrite v0_cellKey. fold (row_key c). rewrite IH. by rewrite <- app_assoc.
Qed.

Lemma v0_cellRange_in_range g minX minY maxX maxY x0 y0 x1 y1 :
  HashV0.cellRange g minX minY maxX maxY = (x0, y0, x1, y1) ->
  Int.in_int32 x0 /\ Int.in_int32 y0 /\ Int.in_int32 x1 /\ Int.in_int32 y1.
Proof.
  unfold HashV0.cellRange. intros [= <- <- <- <-].
  repeat split; apply int32_of_in_range.
Qed.

Lemma NoDup_row_keys x0 y0 x1 y1 :
  Int.in_int32 x0 -> Int.in_int32 y0 -> Int.in_int32 x1 -> Int.in_int32 y1 ->
  NoDup (row_key <$> closed_cells y0 x0 y1 x1).
Proof.
  intros Hx0 Hy0 Hx1 Hy1. apply NoDup_fmap_2_strong; [| apply NoDup_column_major].
  intros [cy cx] [cy' cx'] Hc Hc' Heq.
  apply elem_of_closed_cells in Hc. apply elem_of_closed_cells in Hc'.
  unfold row_key in Heq. cbn [fst snd] in Heq.
  apply Hash_Encode_inj in Heq as [-> ->]; [reflexivity | | | |];
    unfold Int.in_int32 in *; lia.
Qed.

Lemma v0_Insert_unfold g item minX minY maxX maxY x0 y0 x1 y1 :
  HashV0.Contains g item = false ->
  HashV0.cellRange g minX minY maxX maxY = (x0, y0, x1, y1) ->
  HashV0.Insert g item minX minY maxX maxY
  = if loops_return Int.max_int32 y0 x0 y1 x1
    then Some (true,
               {| HashV0.gen := HashV0.gen g;
                  HashV0.cellSize := HashV0.cellSize g;
                  HashV0.cells :=
                    add_to_cells item (HashV0.cells g) (row_key <$> closed_cells y0 x0 y1 x1);
                  HashV0.items := <[item := 0]> (HashV0.items g);
                  HashV0.itemCells :=
                    <[item := row_key <$> closed_cells y0 x0 y1 x1]> (HashV0.itemCells g);
                  HashV0.qBuf := HashV0.qBuf g |})
    else None.
Proof.
  intros Hc Hr. unfold HashV0.Insert. rewrite Hc, Hr.
  rewrite (for_range_incl_nested Int.max_int32 (HashV0.insert_cell g item)).
  destruct (loops_return _ _ _ _ _); [| reflexivity].
  by rewrite v0_insert_loop.
Qed.

Lemma v0_Query_unfold g minX minY maxX maxY x0 y0 x1 y1 :
  HashV0.cellRange g minX minY maxX maxY = (x0, y0, x1, y1) ->
  loops_return Int.max_int32 y0 x0 y1 x1 = true ->
  exists g',
    HashV0.Query g minX minY maxX maxY
    = Some ((foldl (fun st c =>
                      HashV0.query_cell g (Int.to_uint64 (HashV0.gen g + 1)) c.1 st c.2)
               (HashV0.items g, []) (closed_cells y0 x0 y1 x1)).2, g').
Proof.
  intros Hr Hret. unfold HashV0.Query. rewrite Hr.
  rewrite (for_range_incl_nested Int.max_int32
             (HashV0.query_cell g (Int.to_uint64 (HashV0.gen g + 1)))).
  rewrite Hret. cbn [mbind option_bind].
  destruct (foldl _ _ _) as [its buf]. by eexists.
Qed.

(** X30: in the grid of one cell size, [Insert] of an absent item walks
    the closed range of the truncated quotients row by row.  It returns
    unless a loop bound that is reached is [math.MaxInt32]; it then returns
    [true], records the key of every cell of the range once, appends the
    item to each of their buckets and leaves the other buckets alone.
    Unless the generation counter is about to wrap, a query over the same
    box then returns the item as soon as the range has a cell; and
    [Remove] gives back the buckets, the presence map and the reverse
    index as they were. *)
Theorem v0_insert_closed_range g g1 item (added : bool) minX minY maxX maxY x0 y0 x1 y1 :
  HashV0.Contains g item = false ->
  HashV0.cellRange g minX minY maxX maxY = (x0, y0, x1, y1) ->
  HashV0.Insert g item minX minY maxX maxY = Some (added, g1) ->
  added = true /\
  y1 < Int.max_int32 /\ (x1 < Int.max_int32 \/ y1 < y0) /\
  (exists K, HashV0.itemCells g1 !! item = Some K /\ NoDup K /\
     (forall k, k ∈ K <-> exists cx cy, x0 <= cx <= x1 /\ y0 <= cy <= y1 /\
                                       k = HashV0.cellKey g cx cy) /\
     (forall k, k ∈ K -> bucket (HashV0.cells g1) k = bucket (HashV0.cells g) k ++ [item]) /\
     (forall k, k ∉ K -> HashV0.cells g1 !! k = HashV0.cells g !! k)) /\
  HashV0.Contains g1 item = true /\
  (HashV0.gen g ≠ 2 ^ 64 - 1 -> 0 <= HashV0.gen g < 2 ^ 64 -> x0 <= x1 -> y0 <= y1 ->
   exists r g2, HashV0.Query g1 minX minY maxX maxY = Some (r, g2) /\ item ∈ r) /\
  ((forall k b, HashV0.cells g !! k = Some b -> b ≠ []) ->
   (forall k, item ∉ bucket (HashV0.cells g) k) ->
   HashV0.itemCells g !! item = None ->
   HashV0.Remove g1 item = g).
Proof.
  intros Hc Hr Hins.
  pose proof (v0_cellRange_in_range g _ _ _ _ _ _ _ _ Hr) as (Hx0 & Hy0 & Hx1 & Hy1).
  rewrite (v0_Insert_unfold g item _ _ _ _ _ _ _ _ Hc Hr) in Hins.
  destruct (loops_return Int.max_int32 y0 x0 y1 x1) eqn:Hret; [| discriminate].
  injection Hins as <- <-.
  pose proof (NoDup_row_keys x0 y0 x1 y1 Hx0 Hy0 Hx1 Hy1) as Hnd.
  set (K := row_key <$> closed_cells y0 x0 y1 x1) in *.
  assert (HashV0.items g !! item = None) as Hitems.
  { apply eq_None_not_Some. intros Hs. unfold HashV0.Contains in Hc.
    by rewrite bool_decide_eq_true_2 in Hc. }
  split; [reflexivity |].
  assert (y1 < Int.max_int32 /\ (x1 < Int.max_int32 \/ y1 < y0)) as Hbounds.
  { apply (loops_return_spec Int.max_int32 y0 x0 y1 x1); [| | | exact Hret];
      unfold Int.in_int32 in *; lia. }
  split; [apply Hbounds |]. split; [apply Hbounds |]. split; [| split; [| split]].
  - exists K. cbn [HashV0.itemCells HashV0.cells].
    split; [apply lookup_insert_eq |]. split; [exact Hnd |]. split; [| split].
    + intros k. unfold K. rewrite list_elem_of_fmap. split.
      * intros ([cy cx] & -> & Hcell). apply elem_of_closed_cells in Hcell.
        exists cx, cy. split; [tauto |]. split; [tauto | reflexivity].
      * intros (cx & cy & Hx & Hy & ->). exists (cy, cx). split; [reflexivity |].
        by apply elem_of_closed_cells.
    + intros k Hk. rewrite bucket_add_to_cells by exact Hnd. by rewrite decide_True.
    + intros k Hk. by apply add_to_cells_lookup_notin.
  - unfold HashV0.Contains. cbn [HashV0.items]. rewrite lookup_insert_eq.
    apply bool_decide_eq_true_2. by eexists.
  - intros Hgen Hgen' HX HY.
    set (g1 := {| HashV0.gen := HashV0.gen g; HashV0.cellSize := HashV0.cellSize g;
                  HashV0.cells := add_to_cells item (HashV0.cells g) K;
                  HashV0.items := <[item := 0]> (HashV0.items g);
                  HashV0.itemCells := <[item := K]> (HashV0.itemCells g);
                  HashV0.qBuf := HashV0.qBuf g |}).
    assert (HashV0.cellRange g1 minX minY maxX maxY = (x0, y0, x1, y1)) as Hr1 by exact Hr.
    destruct (v0_Query_unfold g1 _ _ _ _ _ _ _ _ Hr1 Hret) as [g2 Hq].
    eexists. exists g2. split; [exact Hq |].
    set (gen' := Int.to_uint64 (HashV0.gen g1 + 1)).
    assert (gen' ≠ 0) as Hfresh.
    { unfold gen', Int.to_uint64. cbn [HashV0.gen g1]. Z.div_mod_to_equations. lia. }
    assert (forall (st : gmap T Z * list T) x,
               (item ∈ st.2 \/ st.1 !! item = Some 0) ->
               (item ∈ (Hash.visit gen' st x).2 \/ (Hash.visit gen' st x).1 !! item = Some 0) /\
               (item ∈ st.2 -> item ∈ (Hash.visit gen' st x).2) /\
               (x = item -> item ∈ (Hash.visit gen' st x).2)) as Hvisit.
    { intros st x Hst. unfold Hash.visit.
      destruct (decide (default 0 (st.1 !! x) = gen')) as [Heq | Hne].
      - split; [exact Hst |]. split; [done |]. intros ->.
        destruct Hst as [Hin | Hs]; [exact Hin |]. rewrite Hs in Heq. cbn in Heq. congruence.
      - cbn [fst snd]. split; [| split].
        + destruct Hst as [Hin | Hs]; [left; apply elem_of_app; by left |].
          destruct (decide (x = item)) as [-> | Hxi].
          * left. apply elem_of_app. right. left.
          * right. by rewrite lookup_insert_ne.
        + intros Hin. apply elem_of_app. by left.
        + intros ->. apply elem_of_app. right. left. }
    apply (foldl_hits
             (fun st : gmap T Z * list T => item ∈ st.2 \/ st.1 !! item = Some 0)
             (fun st => item ∈ st.2)
             (fun st c => HashV0.query_cell g1 gen' c.1 st c.2)
             (fun c => item ∈ bucket (HashV0.cells g1) (row_key c))).
    + intros st c Hst. unfold HashV0.query_cell.
      destruct (HashV0.cells g1 !! HashV0.cellKey g1 c.2 c.1); [| exact Hst].
      apply (foldl_preserves
               (fun st : gmap T Z * list T => item ∈ st.2 \/ st.1 !! item = Some 0));
        [| exact Hst].
      intros st' x _ Hst'. by apply Hvisit.
    + intros st c Hst. unfold HashV0.query_cell.
      destruct (HashV0.cells g1 !! HashV0.cellKey g1 c.2 c.1); [| exact Hst].
      apply (foldl_preserves (fun st : gmap T Z * list T => item ∈ st.2)); [| exact Hst].
      intros st' x _ Hst'.
      by apply (proj1 (proj2 (Hvisit st' x (or_introl Hst')))).
    + intros st c Hst Hhit. unfold HashV0.query_cell. rewrite v0_cellKey. fold (row_key c).
      apply bucket_elem_lookup in Hhit as (b & -> & Hin).
      apply (foldl_hits
               (fun st : gmap T Z * list T => item ∈ st.2 \/ st.1 !! item = Some 0)
               (fun st => item ∈ st.2) (Hash.visit gen') (fun x => x = item)).
      * intros st' x Hst'. by apply Hvisit.
      * intros st' x Hst'. by apply (proj1 (proj2 (Hvisit st' x (or_introl Hst')))).
      * intros st' x Hst' ->. by apply (proj2 (proj2 (Hvisit st' item Hst'))).
      * exact Hst.
      * by exists item.
    + right. cbn [fst HashV0.items g1]. apply lookup_insert_eq.
    + exists (y0, x0). split; [apply elem_of_closed_cells; lia |].
      cbn [HashV0.cells g1]. rewrite bucket_add_to_cells by exact Hnd.
      rewrite decide_True; [apply elem_of_app; right; left |].
      apply list_elem_of_fmap. exists (y0, x0). split; [reflexivity |].
      apply elem_of_closed_cells. lia.
  - intros Hne Hnot Hcells. unfold HashV0.Remove, HashV0.Contains.
    cbn [HashV0.items HashV0.itemCells HashV0.cells HashV0.gen HashV0.cellSize HashV0.qBuf].
    rewrite !lookup_insert_eq. rewrite bool_decide_eq_true_2 by (by eexists).
    cbn [negb default]. change (id K) with K. rewrite !delete_insert_id by assumption.
    assert (foldl (Hash.remove_from_cell item) (add_to_cells item (HashV0.cells g) K) K
            = HashV0.cells g) as ->; [| by destruct g].
    rewrite (foldl_ext_in _ (drop_from_cell item))
      by (intros; apply remove_from_cell_drop).
    by apply drop_add_cancel.
Qed.

End HashV0Properties.

Lemma v0_insert_closed_range_witness :
  HashV0.Contains hash_v0_64 entry_A = false /\
  HashV0.cellRange (P := amd64) hash_v0_64 (f32 0) (f32 0) (f32 64) (f32 64) = (0, 0, 1, 1) /\
  exists g1,
    HashV0.Insert (P := amd64) hash_v0_64 entry_A (f32 0) (f32 0) (f32 64) (f32 64)
    = Some (true, g1) /\
    (exists r g2, HashV0.Query (P := amd64) g1 (f32 0) (f32 0) (f32 64) (f32 64)
                  = Some (r, g2) /\ entry_A ∈ r) /\
    HashV0.Remove g1 entry_A = hash_v0_64.
Proof.
  assert (HashV0.Contains hash_v0_64 entry_A = false) as Hc by (vm_compute; reflexivity).
  assert (HashV0.cellRange (P := amd64) hash_v0_64 (f32 0) (f32 0) (f32 64) (f32 64)
          = (0, 0, 1, 1)) as Hr by (vm_compute; reflexivity).
  split; [exact Hc |]. split; [exact Hr |].
  destruct (HashV0.Insert (P := amd64) hash_v0_64 entry_A (f32 0) (f32 0) (f32 64) (f32 64))
    as [[added g1] |] eqn:Hins; [| vm_compute in Hins; discriminate].
  destruct (v0_insert_closed_range (P := amd64) hash_v0_64 g1 entry_A added
              (f32 0) (f32 0) (f32 64) (f32 64) 0 0 1 1 Hc Hr Hins)
    as (-> & _ & _ & _ & _ & Hquery & Hremove).
  exists g1. split; [reflexivity |]. split.
  - apply Hquery; cbn; lia.
  - apply Hremove.
    + intros k b Hb. cbn in Hb. by rewrite lookup_empty in Hb.
    + intros k Hin. cbn in Hin. unfold bucket in Hin. rewrite lookup_empty in Hin.
      by apply not_elem_of_nil in Hin.
    + cbn. apply lookup_empty.
Defined.


Lemma set_add_all_witness :
  (add_all (HashSet.NewSet []) [entry_A; entry_B; entry_A]).1
  = Linq.Distinct [entry_A; entry_B; entry_A].
Proof. exact (proj1 (set_add_all [entry_A; entry_B; entry_A])). Defined.
